(** * Solarus: hero state machine, ground effects and stream actions

    A shallow embedding of [src/entities/Hero.cpp],
    [src/entities/StreamAction.cpp] and, for the frames and the animations
    of a sprite, [src/SpriteAnimationSet.cpp].  Machine integers are [Z] with their
    wrap-around written out, [System::now()] is an explicit argument (the
    simulated clock does not advance inside one call), and the collaborators
    whose code is elsewhere (the map's collision oracle, the ground
    classifier, the callbacks of the hero states) are parameters. *)

From Stdlib Require Import ZArith List Bool Lia String.
From stdpp Require Import base option list gmap strings.

Local Open Scope Z_scope.

(** ** Machine arithmetic *)

(** Conversion to [uint32_t]. *)
Definition uint32 (z : Z) : Z := z mod 2 ^ 32.

(** ** Geometry shared by both classes *)

Record Rectangle := mkRect { rx : Z; ry : Z; rw : Z; rh : Z }.

(** [Rectangle::add_xy(dx, dy)]. *)
Definition add_xy (r : Rectangle) (d : Z * Z) : Rectangle :=
  mkRect (rx r + fst d) (ry r + snd d) (rw r) (rh r).

Inductive Layer := LAYER_LOW | LAYER_INTERMEDIATE | LAYER_HIGH.

Inductive Ground :=
| GROUND_EMPTY | GROUND_TRAVERSABLE
| GROUND_WALL | GROUND_LOW_WALL
| GROUND_WALL_TOP_RIGHT | GROUND_WALL_TOP_LEFT
| GROUND_WALL_BOTTOM_LEFT | GROUND_WALL_BOTTOM_RIGHT
| GROUND_WALL_TOP_RIGHT_WATER | GROUND_WALL_TOP_LEFT_WATER
| GROUND_WALL_BOTTOM_LEFT_WATER | GROUND_WALL_BOTTOM_RIGHT_WATER
| GROUND_DEEP_WATER | GROUND_SHALLOW_WATER | GROUND_GRASS
| GROUND_HOLE | GROUND_ICE | GROUND_LADDER | GROUND_PRICKLE | GROUND_LAVA.

Definition Ground_eqb (a b : Ground) : bool :=
  match a, b with
  | GROUND_EMPTY, GROUND_EMPTY | GROUND_TRAVERSABLE, GROUND_TRAVERSABLE
  | GROUND_WALL, GROUND_WALL | GROUND_LOW_WALL, GROUND_LOW_WALL
  | GROUND_WALL_TOP_RIGHT, GROUND_WALL_TOP_RIGHT
  | GROUND_WALL_TOP_LEFT, GROUND_WALL_TOP_LEFT
  | GROUND_WALL_BOTTOM_LEFT, GROUND_WALL_BOTTOM_LEFT
  | GROUND_WALL_BOTTOM_RIGHT, GROUND_WALL_BOTTOM_RIGHT
  | GROUND_WALL_TOP_RIGHT_WATER, GROUND_WALL_TOP_RIGHT_WATER
  | GROUND_WALL_TOP_LEFT_WATER, GROUND_WALL_TOP_LEFT_WATER
  | GROUND_WALL_BOTTOM_LEFT_WATER, GROUND_WALL_BOTTOM_LEFT_WATER
  | GROUND_WALL_BOTTOM_RIGHT_WATER, GROUND_WALL_BOTTOM_RIGHT_WATER
  | GROUND_DEEP_WATER, GROUND_DEEP_WATER
  | GROUND_SHALLOW_WATER, GROUND_SHALLOW_WATER
  | GROUND_GRASS, GROUND_GRASS | GROUND_HOLE, GROUND_HOLE
  | GROUND_ICE, GROUND_ICE | GROUND_LADDER, GROUND_LADDER
  | GROUND_PRICKLE, GROUND_PRICKLE | GROUND_LAVA, GROUND_LAVA => true
  | _, _ => false
  end.

(** Modelled from the spec: [MapEntity::direction_to_xy_move] is not under
    src/; the spec calls its result the "unit displacement per step" of an
    8-way direction.  Directions turn counter-clockwise from east and the y
    axis points down.  The general theorems take the table as a parameter;
    this instance is the one used by the concrete scenarios. *)
Definition direction_to_xy_move_table (direction8 : Z) : Z * Z :=
  match direction8 with
  | 0 => (1, 0) | 1 => (1, -1) | 2 => (0, -1) | 3 => (-1, -1)
  | 4 => (-1, 0) | 5 => (-1, 1) | 6 => (0, 1) | 7 => (1, 1)
  | _ => (0, 0)
  end.

(** Modelled from the spec: [MapEntity::get_distance(x, y)] is not under
    src/; it is the Euclidean distance between the entity's coordinates and
    the point, converted to [int] (so truncated). *)
Definition get_distance_xy (x1 y1 x2 y2 : Z) : Z :=
  Z.sqrt ((x2 - x1) * (x2 - x1) + (y2 - y1) * (y2 - y1)).

(** What the map sees of an entity's moves: the collision queries and the
    committed position changes, in program order. *)
Inductive Event :=
| EvCollisionTest (l : Layer) (box : Rectangle) (obstacle : bool)
| EvMove (l : Layer) (box : Rectangle)
| EvPositionChanged.

(** Every committed move comes right after a query on the same layer and
    box that answered [false]. *)
Fixpoint moves_validated (tr : list Event) : Prop :=
  match tr with
  | [] => True
  | EvMove _ _ :: _ => False
  | EvCollisionTest l box false :: EvMove l' box' :: rest =>
      l' = l /\ box' = box /\ moves_validated rest
  | _ :: rest => moves_validated rest
  end.

(** No query that answered [true] is followed by the commit of its box. *)
Fixpoint no_obstructed_move (tr : list Event) : Prop :=
  match tr with
  | [] => True
  | EvCollisionTest l box true :: rest =>
      match rest with
      | EvMove _ _ :: _ => False
      | _ => no_obstructed_move rest
      end
  | _ :: rest => no_obstructed_move rest
  end.

(** * StreamAction.cpp *)

Module Streams.

(** ** Data *)

(** What a stream action reads of its stream ([entities/Stream.h] is not
    under src/: the accessors called by StreamAction.cpp become fields). *)
Record Stream := mkStream {
  stream_being_removed : bool;
  stream_enabled : bool;
  allow_movement : bool;
  direction : Z;            (* get_direction(): 0..7 *)
  speed : Z;                (* get_speed(): int, pixels per second *)
  stream_x : Z;
  stream_y : Z
}.

(** What it reads and writes of the entity it moves. *)
Record MapEntity := mkEntity {
  bounding_box : Rectangle;
  origin : Z * Z;
  layer : Layer;
  being_removed : bool;
  enabled : bool
}.

Definition get_x (e : MapEntity) : Z := rx (bounding_box e) + fst (origin e).
Definition get_y (e : MapEntity) : Z := ry (bounding_box e) + snd (origin e).

(** [MapEntity::set_xy]: the origin point goes to [(x, y)]. *)
Definition set_xy (x y : Z) (e : MapEntity) : MapEntity :=
  mkEntity (mkRect (x - fst (origin e)) (y - snd (origin e))
                   (rw (bounding_box e)) (rh (bounding_box e)))
           (origin e) (layer e) (being_removed e) (enabled e).

Definition get_distance (e : MapEntity) (x y : Z) : Z :=
  get_distance_xy (get_x e) (get_y e) x y.

(** The two shared objects and the log of what the action did to the map. *)
Record World := mkWorld {
  w_stream : Stream;
  w_entity : MapEntity;
  w_trace : list Event
}.

Record StreamAction := mkAction {
  stream : bool;            (* stream != NULL *)
  entity_moved : bool;      (* entity_moved != NULL *)
  active : bool;
  suspended : bool;
  when_suspended : Z;
  dx : Z;
  dy : Z;
  target_x : Z;
  target_y : Z;
  next_move_date : Z;
  delay : Z
}.

Definition set_active (b : bool) (a : StreamAction) : StreamAction :=
  mkAction (stream a) (entity_moved a) b (suspended a) (when_suspended a)
           (dx a) (dy a) (target_x a) (target_y a) (next_move_date a) (delay a).

Definition set_next_move_date (d : Z) (a : StreamAction) : StreamAction :=
  mkAction (stream a) (entity_moved a) (active a) (suspended a) (when_suspended a)
           (dx a) (dy a) (target_x a) (target_y a) d (delay a).

Definition drop_stream (a : StreamAction) : StreamAction :=
  mkAction false (entity_moved a) (active a) (suspended a) (when_suspended a)
           (dx a) (dy a) (target_x a) (target_y a) (next_move_date a) (delay a).

Definition drop_entity_moved (a : StreamAction) : StreamAction :=
  mkAction (stream a) false (active a) (suspended a) (when_suspended a)
           (dx a) (dy a) (target_x a) (target_y a) (next_move_date a) (delay a).

Definition log (ev : Event) (w : World) : World :=
  mkWorld (w_stream w) (w_entity w) (w_trace w ++ [ev]).

Definition move_entity (x y : Z) (w : World) : World :=
  let e := set_xy x y (w_entity w) in
  mkWorld (w_stream w) e (w_trace w ++ [EvMove (layer e) (bounding_box e)]).

(** ** The double arithmetic of the constructor *)

(** [std::sqrt(2)] as an IEEE double is [sqrt2_mantissa * 2^-52]. *)
Definition sqrt2_mantissa : Z := 6369051672525773.

(** Rounding of a positive integer to 53 significant bits, to nearest, ties
    to even: the rounding of a double product. *)
Definition round53 (p : Z) : Z :=
  if p <? 2 ^ 53 then p
  else
    let s := Z.log2 p - 52 in
    let q := p / 2 ^ s in
    let r := p mod 2 ^ s in
    let half := 2 ^ (s - 1) in
    let q' := if (half <? r) || ((r =? half) && Z.odd q) then q + 1 else q in
    q' * 2 ^ s.

(** [(uint32_t) (delay * std::sqrt(2))]: [delay] is converted to double
    exactly, the product is rounded once, the conversion truncates. *)
Definition times_sqrt2 (delay : Z) : Z :=
  uint32 (round53 (delay * sqrt2_mantissa) / 2 ^ 52).

(** ** Operations *)

Section WithMap.

(** [Map::test_collision_with_obstacles(layer, box, entity)]. *)
Variable test_collision_with_obstacles : MapEntity -> Layer -> Rectangle -> bool.
(** [Detector::overlaps(rectangle)] on the stream. *)
Variable overlaps : Stream -> Rectangle -> bool.
(** [MapEntity::get_ground_point()] (virtual). *)
Variable get_ground_point : MapEntity -> Rectangle.
(** [MapEntity::direction_to_xy_move(direction8)]. *)
Variable direction_to_xy_move : Z -> Z * Z.

(** [StreamAction::StreamAction(stream, entity_moved)].  The speed of a
    stream is at least 1: with a speed of 0 the division of the constructor
    traps, which this definition does not represent. *)
Definition create (now : Z) (s : Stream) (e : MapEntity) : StreamAction :=
  let direction8 := direction s in
  let xy := direction_to_xy_move direction8 in
  let dx := fst xy in
  let dy := snd xy in
  let delay0 := uint32 (Z.quot 1000 (speed s)) in
  let '(tx, ty, delay) :=
    if Z.rem direction8 2 =? 0 then
      if negb (dx =? 0) then
        (stream_x s + (if 0 <? dx then 16 else -16), get_y e, delay0)
      else
        (get_x e, stream_y s + (if 0 <? dy then 16 else -16), delay0)
    else
      (get_x e + (if 0 <? dx then 16 else -16),
       get_y e + (if 0 <? dy then 16 else -16),
       times_sqrt2 delay0) in
  mkAction true true true false 0 dx dy tx ty (uint32 (now + delay)) delay.

Definition is_active (a : StreamAction) : bool := active a.
Definition is_suspended (a : StreamAction) : bool := suspended a.

(** [StreamAction::has_reached_target]. *)
Definition has_reached_target (a : StreamAction) (e : MapEntity) : bool :=
  let finished_x :=
    (dx a =? 0) || ((0 <? dx a) && (target_x a <=? get_x e))
                || ((dx a <? 0) && (get_x e <=? target_x a)) in
  let finished_y :=
    (dy a =? 0) || ((0 <? dy a) && (target_y a <=? get_y e))
                || ((dy a <? 0) && (get_y e <=? target_y a)) in
  finished_x && finished_y.

(** [StreamAction::test_obstacles]: the answer and the logged query. *)
Definition test_obstacles (a : StreamAction) (w : World) : bool * World :=
  let e := w_entity w in
  let collision_box := add_xy (bounding_box e) (dx a, dy a) in
  let r := test_collision_with_obstacles e (layer e) collision_box in
  (r, log (EvCollisionTest (layer e) collision_box r) w).

(** One turn of the [while] loop of [update], entered when its condition
    holds.  The boolean tells whether the loop goes on to test its
    condition again ([false] is the [break]). *)
Definition update_step (a : StreamAction) (w : World) : StreamAction * World * bool :=
  let a1 := set_next_move_date (uint32 (next_move_date a + delay a)) a in
  let '(obstacle, w1) := test_obstacles a1 w in
  if obstacle then
    let a2 := if negb (allow_movement (w_stream w1)) then set_active false a1 else a1 in
    (a2, w1, false)
  else
    let e := w_entity w1 in
    let w2 := move_entity (get_x e + dx a1) (get_y e + dy a1) w1 in
    let w3 := log EvPositionChanged w2 in
    let a2 := if has_reached_target a1 (w_entity w3) then set_active false a1 else a1 in
    (a2, w3, true).

(** The loop condition: [System::now() >= next_move_date && is_active()]. *)
Definition loop_condition (now : Z) (a : StreamAction) : bool :=
  (next_move_date a <=? now) && is_active a.

Fixpoint update_loop (fuel : nat) (now : Z) (a : StreamAction) (w : World)
  : option (StreamAction * World) :=
  if loop_condition now a then
    match fuel with
    | O => None
    | S fuel' =>
        let '(a', w', again) := update_step a w in
        if again then update_loop fuel' now a' w' else Some (a', w')
    end
  else Some (a, w).

(** Pixels left to the target on the axes the action moves along. *)
Definition remaining (a : StreamAction) (e : MapEntity) : Z :=
  (if 0 <? dx a then Z.max 0 (target_x a - get_x e)
   else if dx a <? 0 then Z.max 0 (get_x e - target_x a) else 0)
  + (if 0 <? dy a then Z.max 0 (target_y a - get_y e)
     else if dy a <? 0 then Z.max 0 (get_y e - target_y a) else 0).

(** [StreamAction::update].  The loop runs at most once per pixel left to
    the target, plus the turn that breaks or finishes. *)
Definition update (now : Z) (a : StreamAction) (w : World)
  : option (StreamAction * World) :=
  if negb (is_active a) then Some (a, w)
  else if stream_being_removed (w_stream w) then
    Some (set_active false (drop_stream a), w)
  else if negb (stream_enabled (w_stream w)) then Some (set_active false a, w)
  else if being_removed (w_entity w) then
    Some (set_active false (drop_entity_moved a), w)
  else if negb (enabled (w_entity w)) then Some (set_active false a, w)
  else
    let ground_point := get_ground_point (w_entity w) in
    if allow_movement (w_stream w) && negb (overlaps (w_stream w) ground_point)
       && (8 <? get_distance (w_entity w) (target_x a) (target_y a))
    then Some (set_active false a, w)
    else if is_suspended a then Some (a, w)
    else update_loop (S (Z.to_nat (remaining a (w_entity w)))) now a w.

(** [StreamAction::set_suspended]. *)
Definition set_suspended (now : Z) (b : bool) (a : StreamAction) : StreamAction :=
  let a1 := mkAction (stream a) (entity_moved a) (active a) b (when_suspended a)
                     (dx a) (dy a) (target_x a) (target_y a)
                     (next_move_date a) (delay a) in
  if b then
    mkAction (stream a1) (entity_moved a1) (active a1) (suspended a1) now
             (dx a1) (dy a1) (target_x a1) (target_y a1)
             (next_move_date a1) (delay a1)
  else if negb (when_suspended a1 =? 0) then
    set_next_move_date
      (uint32 (next_move_date a1 + uint32 (now - when_suspended a1))) a1
  else a1.

(** What can happen to an action once it is created: the main loop updates
    it, the game suspends or resumes it, and the rest of the game changes
    the stream and the entity. *)
Inductive Call :=
| CallUpdate (now : Z)
| CallSetSuspended (now : Z) (b : bool)
| WorldChanges (s : Stream) (e : MapEntity).

Definition run_call (c : Call) (aw : StreamAction * World)
  : option (StreamAction * World) :=
  match c with
  | CallUpdate now => update now (fst aw) (snd aw)
  | CallSetSuspended now b => Some (set_suspended now b (fst aw), snd aw)
  | WorldChanges s e => Some (fst aw, mkWorld s e (w_trace (snd aw)))
  end.

Fixpoint run_calls (cs : list Call) (aw : StreamAction * World)
  : option (StreamAction * World) :=
  match cs with
  | [] => Some aw
  | c :: cs' =>
      match run_call c aw with
      | Some aw' => run_calls cs' aw'
      | None => None
      end
  end.

End WithMap.

(** Nearest integer to [a / b], halves up, for [0 <= a] and [0 < b]: the
    rounding that the specification speaks of. *)
Definition round_div (a b : Z) : Z := (2 * a + b) / (2 * b).

End Streams.

(** * Hero.cpp *)

Module Heroes.

(** ** Data *)

(** The answers of a hero state to the virtual queries that Hero.cpp calls
    ([hero/State.h] and the state classes are not under src/). *)
Record StateClass := mkClass {
  name : string;
  can_avoid_deep_water : bool;
  can_avoid_hole : bool;
  can_avoid_ice : bool;
  can_avoid_lava : bool;
  can_avoid_prickle : bool;
  are_collisions_ignored : bool;
  can_come_from_bad_ground : bool;
  is_touching_ground : bool;
  is_free : bool;
  can_control_movement : bool;
  wanted_movement_direction8 : Z      (* -1, or 0..7 *)
}.

(** A state object: where it lives and what it answers. *)
Record State := mkState { addr : nat; kind : StateClass }.

Record Hero := mkHero {
  bounding_box : Rectangle;  (* MapEntity: position and size *)
  layer : Layer;
  on_map : bool;  (* is_on_map() *)
  suspended : bool;
  when_suspended : Z;
  ground_below : Ground;
  movement_speed : option Z;  (* get_movement(): NULL, or the speed of the movement *)
  state : option State;  (* NULL only inside the constructor *)
  old_states : list (option State);
  normal_walking_speed : Z;
  walking_speed : Z;
  next_ground_date : Z;
  next_ice_date : Z;
  ice_movement_direction8 : Z;
  ground_dxy : Z * Z;
  last_solid_ground_coords : Z * Z;
  last_solid_ground_layer : Layer;
  heap : gset nat;  (* ghost: addresses of the State objects alive *)
  next_addr : nat;  (* ghost: what the next [new] returns *)
  destroyed : list nat;  (* ghost: addresses deleted so far, oldest first *)
  requested : list State;  (* ghost: argument of each set_state invocation, oldest first *)
  trace : list Event  (* ghost: collision queries and committed moves *)
}.

(** Field updates. *)
Definition with_bounding_box (v : Rectangle) (h : Hero) : Hero :=
  mkHero v (layer h) (on_map h) (suspended h) (when_suspended h) (ground_below
    h) (movement_speed h) (state h) (old_states h) (normal_walking_speed h)
    (walking_speed h) (next_ground_date h) (next_ice_date h)
    (ice_movement_direction8 h) (ground_dxy h) (last_solid_ground_coords h)
    (last_solid_ground_layer h) (heap h) (next_addr h) (destroyed h)
    (requested h) (trace h).
Definition with_layer (v : Layer) (h : Hero) : Hero :=
  mkHero (bounding_box h) v (on_map h) (suspended h) (when_suspended h)
    (ground_below h) (movement_speed h) (state h) (old_states h)
    (normal_walking_speed h) (walking_speed h) (next_ground_date h)
    (next_ice_date h) (ice_movement_direction8 h) (ground_dxy h)
    (last_solid_ground_coords h) (last_solid_ground_layer h) (heap h)
    (next_addr h) (destroyed h) (requested h) (trace h).
Definition with_suspended (v : bool) (h : Hero) : Hero :=
  mkHero (bounding_box h) (layer h) (on_map h) v (when_suspended h)
    (ground_below h) (movement_speed h) (state h) (old_states h)
    (normal_walking_speed h) (walking_speed h) (next_ground_date h)
    (next_ice_date h) (ice_movement_direction8 h) (ground_dxy h)
    (last_solid_ground_coords h) (last_solid_ground_layer h) (heap h)
    (next_addr h) (destroyed h) (requested h) (trace h).
Definition with_when_suspended (v : Z) (h : Hero) : Hero :=
  mkHero (bounding_box h) (layer h) (on_map h) (suspended h) v (ground_below
    h) (movement_speed h) (state h) (old_states h) (normal_walking_speed h)
    (walking_speed h) (next_ground_date h) (next_ice_date h)
    (ice_movement_direction8 h) (ground_dxy h) (last_solid_ground_coords h)
    (last_solid_ground_layer h) (heap h) (next_addr h) (destroyed h)
    (requested h) (trace h).
Definition with_ground_below (v : Ground) (h : Hero) : Hero :=
  mkHero (bounding_box h) (layer h) (on_map h) (suspended h) (when_suspended
    h) v (movement_speed h) (state h) (old_states h) (normal_walking_speed h)
    (walking_speed h) (next_ground_date h) (next_ice_date h)
    (ice_movement_direction8 h) (ground_dxy h) (last_solid_ground_coords h)
    (last_solid_ground_layer h) (heap h) (next_addr h) (destroyed h)
    (requested h) (trace h).
Definition with_state (v : option State) (h : Hero) : Hero :=
  mkHero (bounding_box h) (layer h) (on_map h) (suspended h) (when_suspended
    h) (ground_below h) (movement_speed h) v (old_states h)
    (normal_walking_speed h) (walking_speed h) (next_ground_date h)
    (next_ice_date h) (ice_movement_direction8 h) (ground_dxy h)
    (last_solid_ground_coords h) (last_solid_ground_layer h) (heap h)
    (next_addr h) (destroyed h) (requested h) (trace h).
Definition with_old_states (v : list (option State)) (h : Hero) : Hero :=
  mkHero (bounding_box h) (layer h) (on_map h) (suspended h) (when_suspended
    h) (ground_below h) (movement_speed h) (state h) v (normal_walking_speed
    h) (walking_speed h) (next_ground_date h) (next_ice_date h)
    (ice_movement_direction8 h) (ground_dxy h) (last_solid_ground_coords h)
    (last_solid_ground_layer h) (heap h) (next_addr h) (destroyed h)
    (requested h) (trace h).
Definition with_walking_speed (v : Z) (h : Hero) : Hero :=
  mkHero (bounding_box h) (layer h) (on_map h) (suspended h) (when_suspended
    h) (ground_below h) (movement_speed h) (state h) (old_states h)
    (normal_walking_speed h) v (next_ground_date h) (next_ice_date h)
    (ice_movement_direction8 h) (ground_dxy h) (last_solid_ground_coords h)
    (last_solid_ground_layer h) (heap h) (next_addr h) (destroyed h)
    (requested h) (trace h).
Definition with_next_ground_date (v : Z) (h : Hero) : Hero :=
  mkHero (bounding_box h) (layer h) (on_map h) (suspended h) (when_suspended
    h) (ground_below h) (movement_speed h) (state h) (old_states h)
    (normal_walking_speed h) (walking_speed h) v (next_ice_date h)
    (ice_movement_direction8 h) (ground_dxy h) (last_solid_ground_coords h)
    (last_solid_ground_layer h) (heap h) (next_addr h) (destroyed h)
    (requested h) (trace h).
Definition with_next_ice_date (v : Z) (h : Hero) : Hero :=
  mkHero (bounding_box h) (layer h) (on_map h) (suspended h) (when_suspended
    h) (ground_below h) (movement_speed h) (state h) (old_states h)
    (normal_walking_speed h) (walking_speed h) (next_ground_date h) v
    (ice_movement_direction8 h) (ground_dxy h) (last_solid_ground_coords h)
    (last_solid_ground_layer h) (heap h) (next_addr h) (destroyed h)
    (requested h) (trace h).
Definition with_ice_movement_direction8 (v : Z) (h : Hero) : Hero :=
  mkHero (bounding_box h) (layer h) (on_map h) (suspended h) (when_suspended
    h) (ground_below h) (movement_speed h) (state h) (old_states h)
    (normal_walking_speed h) (walking_speed h) (next_ground_date h)
    (next_ice_date h) v (ground_dxy h) (last_solid_ground_coords h)
    (last_solid_ground_layer h) (heap h) (next_addr h) (destroyed h)
    (requested h) (trace h).
Definition with_ground_dxy (v : Z * Z) (h : Hero) : Hero :=
  mkHero (bounding_box h) (layer h) (on_map h) (suspended h) (when_suspended
    h) (ground_below h) (movement_speed h) (state h) (old_states h)
    (normal_walking_speed h) (walking_speed h) (next_ground_date h)
    (next_ice_date h) (ice_movement_direction8 h) v (last_solid_ground_coords
    h) (last_solid_ground_layer h) (heap h) (next_addr h) (destroyed h)
    (requested h) (trace h).
Definition with_last_solid_ground_coords (v : Z * Z) (h : Hero) : Hero :=
  mkHero (bounding_box h) (layer h) (on_map h) (suspended h) (when_suspended
    h) (ground_below h) (movement_speed h) (state h) (old_states h)
    (normal_walking_speed h) (walking_speed h) (next_ground_date h)
    (next_ice_date h) (ice_movement_direction8 h) (ground_dxy h) v
    (last_solid_ground_layer h) (heap h) (next_addr h) (destroyed h)
    (requested h) (trace h).
Definition with_last_solid_ground_layer (v : Layer) (h : Hero) : Hero :=
  mkHero (bounding_box h) (layer h) (on_map h) (suspended h) (when_suspended
    h) (ground_below h) (movement_speed h) (state h) (old_states h)
    (normal_walking_speed h) (walking_speed h) (next_ground_date h)
    (next_ice_date h) (ice_movement_direction8 h) (ground_dxy h)
    (last_solid_ground_coords h) v (heap h) (next_addr h) (destroyed h)
    (requested h) (trace h).
Definition with_heap (v : gset nat) (h : Hero) : Hero :=
  mkHero (bounding_box h) (layer h) (on_map h) (suspended h) (when_suspended
    h) (ground_below h) (movement_speed h) (state h) (old_states h)
    (normal_walking_speed h) (walking_speed h) (next_ground_date h)
    (next_ice_date h) (ice_movement_direction8 h) (ground_dxy h)
    (last_solid_ground_coords h) (last_solid_ground_layer h) v (next_addr h)
    (destroyed h) (requested h) (trace h).
Definition with_next_addr (v : nat) (h : Hero) : Hero :=
  mkHero (bounding_box h) (layer h) (on_map h) (suspended h) (when_suspended
    h) (ground_below h) (movement_speed h) (state h) (old_states h)
    (normal_walking_speed h) (walking_speed h) (next_ground_date h)
    (next_ice_date h) (ice_movement_direction8 h) (ground_dxy h)
    (last_solid_ground_coords h) (last_solid_ground_layer h) (heap h) v
    (destroyed h) (requested h) (trace h).
Definition with_destroyed (v : list nat) (h : Hero) : Hero :=
  mkHero (bounding_box h) (layer h) (on_map h) (suspended h) (when_suspended
    h) (ground_below h) (movement_speed h) (state h) (old_states h)
    (normal_walking_speed h) (walking_speed h) (next_ground_date h)
    (next_ice_date h) (ice_movement_direction8 h) (ground_dxy h)
    (last_solid_ground_coords h) (last_solid_ground_layer h) (heap h)
    (next_addr h) v (requested h) (trace h).
Definition with_requested (v : list State) (h : Hero) : Hero :=
  mkHero (bounding_box h) (layer h) (on_map h) (suspended h) (when_suspended
    h) (ground_below h) (movement_speed h) (state h) (old_states h)
    (normal_walking_speed h) (walking_speed h) (next_ground_date h)
    (next_ice_date h) (ice_movement_direction8 h) (ground_dxy h)
    (last_solid_ground_coords h) (last_solid_ground_layer h) (heap h)
    (next_addr h) (destroyed h) v (trace h).
Definition with_trace (v : list Event) (h : Hero) : Hero :=
  mkHero (bounding_box h) (layer h) (on_map h) (suspended h) (when_suspended
    h) (ground_below h) (movement_speed h) (state h) (old_states h)
    (normal_walking_speed h) (walking_speed h) (next_ground_date h)
    (next_ice_date h) (ice_movement_direction8 h) (ground_dxy h)
    (last_solid_ground_coords h) (last_solid_ground_layer h) (heap h)
    (next_addr h) (destroyed h) (requested h) v.

Notation "'do' x <- e ; k" :=
  (match e with Some x => k | None => None end)
  (at level 10, x name, e at level 100, k at level 200, only parsing).

(** The hero's origin point, set once by the constructor. *)
Definition origin : Z * Z := (8, 13).
Definition get_x (h : Hero) : Z := rx (bounding_box h) + fst origin.
Definition get_y (h : Hero) : Z := ry (bounding_box h) + snd origin.
Definition get_xy (h : Hero) : Z * Z := (get_x h, get_y h).
Definition get_distance (h : Hero) (x y : Z) : Z :=
  get_distance_xy (get_x h) (get_y h) x y.

Definition log (ev : Event) (h : Hero) : Hero := with_trace (trace h ++ [ev]) h.

(** Comparison of two [State*]. *)
Definition same_state (a b : option State) : bool :=
  match a, b with
  | Some s, Some t => Nat.eqb (addr s) (addr t)
  | None, None => true
  | _, _ => false
  end.

(** [new C]: a fresh object. *)
Definition operator_new (c : StateClass) (h : Hero) : State * Hero :=
  let s := mkState (next_addr h) c in
  (s, with_next_addr (S (next_addr h)) (with_heap ({[next_addr h]} ∪ heap h) h)).

(** [delete p]: nothing for NULL; deleting what is not alive (a second
    delete) is undefined behaviour, here a failure. *)
Definition delete_state (p : option State) (h : Hero) : option Hero :=
  match p with
  | None => Some h
  | Some s =>
      if decide (addr s ∈ heap h)
      then Some (with_destroyed (destroyed h ++ [addr s])
                   (with_heap (heap h ∖ {[addr s]}) h))
      else None
  end.

Fixpoint delete_all (l : list (option State)) (h : Hero) : option Hero :=
  match l with
  | [] => Some h
  | p :: l' => do h1 <- delete_state p h; delete_all l' h1
  end.

Definition Layer_pred (l : Layer) : Layer :=
  match l with
  | LAYER_HIGH => LAYER_INTERMEDIATE
  | _ => LAYER_LOW
  end.

Definition is_bad_ground (g : Ground) : bool :=
  match g with
  | GROUND_DEEP_WATER | GROUND_HOLE | GROUND_LAVA | GROUND_PRICKLE
  | GROUND_EMPTY => true
  | _ => false
  end.

(** The code outside Hero.cpp.  A callback of a state (or of the detectors,
    or of the movement) is the sequence of [hero.set_state(new C)]
    calls it makes: given the hero as it is when the callback gets control
    back and the number of calls it has already made in this invocation,
    the class of its next call, or [None] when it returns. *)
Record Collaborators := mkEnv {
  on_stop : Hero -> State -> State -> nat -> option StateClass;
  on_start : Hero -> State -> option State -> nat -> option StateClass;
  on_update : Hero -> State -> nat -> option StateClass;
  on_detectors : Hero -> nat -> option StateClass;
  on_movement : Hero -> nat -> option StateClass;
  ground_at : Layer -> Z -> Z -> Ground;
  test_collision_with_obstacles : Hero -> Layer -> Rectangle -> bool;
  direction_to_xy_move : Z -> Z * Z;
  has_ability_swim : bool;
  FreeState : StateClass;
  FallingState : StateClass;
  PlungingState : StateClass;
  SwimmingState : StateClass;
  JumpingState : StateClass;
  BackToSolidGroundState : StateClass
}.

(** ** Operations that reach [set_state]

    They are written over [set_new], which stands for
    [set_state(new C)]; [set_state] below ties the knot. *)

Module Open.
Section WithSetState.

Variable env : Collaborators.
Variable set_new : StateClass -> Hero -> option Hero.

(** Runs a callback: each transition it asks for, in turn. *)
Fixpoint run_requests (n : nat) (cb : Hero -> nat -> option StateClass)
    (k : nat) (h : Hero) : option Hero :=
  match cb h k with
  | None => Some h
  | Some c =>
      match n with
      | O => None
      | S n' => do h1 <- set_new c h; run_requests n' cb (S k) h1
      end
  end.

(** [Hero::set_walking_speed]. *)
Definition set_walking_speed (v : Z) (h : Hero) : option Hero :=
  if negb (v =? walking_speed h) then
    do _st <- state h;                 (* state->notify_walking_speed_changed() *)
    Some (with_walking_speed v h)
  else Some h.

(** [Hero::start_deep_water]. *)
Definition start_deep_water (h : Hero) : option Hero :=
  do st <- state h;
  if negb (is_touching_ground (kind st)) then set_new (PlungingState env) h
  else if has_ability_swim env then set_new (SwimmingState env) h
  else set_new (JumpingState env) h.   (* start_jumping(direction8, 32, ...) *)

(** [Hero::start_hole]. *)
Definition start_hole (now : Z) (h : Hero) : option Hero :=
  do st <- state h;
  if negb (can_control_movement (kind st)) then set_new (FallingState env) h
  else
    let h1 := with_next_ground_date now h in
    let lx := fst (last_solid_ground_coords h1) in
    let ly := snd (last_solid_ground_coords h1) in
    if (lx =? -1) || ((lx =? get_x h1) && (ly =? get_y h1)) then
      set_new (FallingState env) h1
    else
      let dx := if lx <? get_x h1 then 1 else if get_x h1 <? lx then -1 else 0 in
      let dy := if ly <? get_y h1 then 1 else if get_y h1 <? ly then -1 else 0 in
      set_walking_speed (Z.quot (normal_walking_speed h1) 3)
        (with_ground_dxy (dx, dy) h1).

(** [Hero::start_ice]. *)
Definition start_ice (now : Z) (h : Hero) : option Hero :=
  do st <- state h;
  let h1 := with_next_ice_date now (with_next_ground_date now h) in
  let wanted := wanted_movement_direction8 (kind st) in
  let h2 := with_ice_movement_direction8 wanted h1 in
  if wanted =? -1 then Some (with_ground_dxy (0, 0) h2)
  else Some (with_ground_dxy (direction_to_xy_move env wanted) h2).

(** [Hero::start_lava]. *)
Definition start_lava (h : Hero) : option Hero := set_new (PlungingState env) h.

(** [Hero::start_prickle], through [start_back_to_solid_ground]. *)
Definition start_prickle (h : Hero) : option Hero :=
  set_new (BackToSolidGroundState env) h.

(** [Hero::start_grass] and [Hero::start_shallow_water].  The product is an
    [int] operation of the code; it is exact as long as
    [normal_walking_speed * 4] is an [int]. *)
Definition start_grass (now : Z) (h : Hero) : option Hero :=
  set_walking_speed (Z.quot (normal_walking_speed h * 4) 5)
    (with_next_ground_date (Z.max (next_ground_date h) now) h).

(** [Hero::notify_ground_below_changed].  The product of the ladder case is
    an [int] operation as well. *)
Definition notify_ground_below_changed (now : Z) (h : Hero) : option Hero :=
  do h1 <-
    match ground_below h with
    | GROUND_TRAVERSABLE => set_walking_speed (normal_walking_speed h) h
    | GROUND_DEEP_WATER =>
        do st <- state h;
        if negb (can_avoid_deep_water (kind st)) then start_deep_water h else Some h
    | GROUND_HOLE =>
        do st <- state h;
        if negb (can_avoid_hole (kind st)) then start_hole now h else Some h
    | GROUND_ICE =>
        do st <- state h;
        if negb (can_avoid_ice (kind st)) then start_ice now h else Some h
    | GROUND_LAVA =>
        do st <- state h;
        if negb (can_avoid_lava (kind st)) then start_lava h else Some h
    | GROUND_PRICKLE =>
        do st <- state h;
        if negb (can_avoid_prickle (kind st)) then start_prickle h else Some h
    | GROUND_SHALLOW_WATER | GROUND_GRASS => start_grass now h
    | GROUND_LADDER =>
        set_walking_speed (Z.quot (normal_walking_speed h * 3) 5) h
    | _ => Some h
    end;
  do _st <- state h1;                  (* state->notify_ground_changed() *)
  Some h1.

(** Modelled from the spec: [MapEntity::update_ground_below] is not under
    src/; it "re-samples the ground below" at the ground point, which
    [Hero::get_ground_point] puts 2 pixels above the hero's coordinates, and
    a change of category is what [notify_ground_below_changed] reacts to. *)
Definition update_ground_below (now : Z) (h : Hero) : option Hero :=
  let g := ground_at env (layer h) (get_x h) (get_y h - 2) in
  if Ground_eqb g (ground_below h) then Some h
  else notify_ground_below_changed now (with_ground_below g h).

(** [check_collision_with_detectors]: the detectors react, which may change
    the state of the hero. *)
Definition check_collision_with_detectors (fuel : nat) (h : Hero) : option Hero :=
  run_requests fuel (on_detectors env) 0%nat h.

(** The part of [Hero::check_position] that saves the last valid position. *)
Definition save_last_valid_position (h : Hero) : option Hero :=
  if negb (is_bad_ground (ground_below h)) then
    do st <- state h;
    if can_come_from_bad_ground (kind st)
       && (negb (get_x h =? fst (last_solid_ground_coords h))
           || negb (get_y h =? snd (last_solid_ground_coords h)))
    then Some (with_last_solid_ground_layer (layer h)
                 (with_last_solid_ground_coords (get_xy h) h))
    else Some h
  else Some h.

(** The end of [Hero::check_position]: with empty ground, possibly go to the
    lower layer. *)
Definition descend_layer (h : Hero) : option Hero :=
  if Ground_eqb (ground_below h) GROUND_EMPTY then
    do st <- state h;
    if is_touching_ground (kind st) then
      let x := rx (bounding_box h) in
      let y := ry (bounding_box h) in
      let l := layer h in
      if match l with LAYER_LOW => false | _ => true end
         && Ground_eqb (ground_at env l x y) GROUND_EMPTY
         && Ground_eqb (ground_at env l (x + 15) y) GROUND_EMPTY
         && Ground_eqb (ground_at env l x (y + 15)) GROUND_EMPTY
         && Ground_eqb (ground_at env l (x + 15) (y + 15)) GROUND_EMPTY
      then Some (with_layer (Layer_pred l) h)
      else Some h
    else Some h
  else Some h.

(** [Hero::check_position]. *)
Definition check_position (fuel : nat) (now : Z) (h : Hero) : option Hero :=
  if negb (on_map h) then Some h
  else
    do st <- state h;
    if are_collisions_ignored (kind st) then Some h
    else
      do h1 <- check_collision_with_detectors fuel h;
      if suspended h1 then Some h1
      else
        do h2 <- update_ground_below now h1;
        do h3 <- save_last_valid_position h2;
        descend_layer h3.

(** [Hero::notify_position_changed]. *)
Definition notify_position_changed (fuel : nat) (now : Z) (h : Hero) : option Hero :=
  do h1 <- check_position fuel now (log EvPositionChanged h);
  do _st <- state h1;                  (* state->notify_position_changed() *)
  Some h1.

(** One attempt of [apply_additional_ground_movement]: the query on the
    translated box and, if it is free, the move.  Returns [moved]. *)
Definition try_ground_move (fuel : nat) (now : Z) (d : Z * Z) (h : Hero)
  : option (Hero * bool) :=
  let collision_box := add_xy (bounding_box h) d in
  let obstacle := test_collision_with_obstacles env h (layer h) collision_box in
  let h1 := log (EvCollisionTest (layer h) collision_box obstacle) h in
  if negb obstacle then
    let h2 := log (EvMove (layer h1) collision_box)
                (with_bounding_box collision_box h1) in
    do h3 <- notify_position_changed fuel now h2;
    Some (h3, true)
  else Some (h1, false).

(** [Hero::apply_additional_ground_movement]. *)
Definition apply_additional_ground_movement (fuel : nat) (now : Z) (h : Hero)
  : option Hero :=
  if (fst (ground_dxy h) =? 0) && (snd (ground_dxy h) =? 0) then Some h
  else
    do r1 <- try_ground_move fuel now (ground_dxy h) h;
    do r2 <-
      (if negb (snd r1) && negb (fst (ground_dxy (fst r1)) =? 0)
       then try_ground_move fuel now (fst (ground_dxy (fst r1)), 0) (fst r1)
       else Some r1);
    do r3 <-
      (if negb (snd r2) && negb (snd (ground_dxy (fst r2)) =? 0)
       then try_ground_move fuel now (0, snd (ground_dxy (fst r2))) (fst r2)
       else Some r2);
    if negb (snd r3) then
      if Ground_eqb (ground_below (fst r3)) GROUND_HOLE then
        do h4 <- set_walking_speed (normal_walking_speed (fst r3)) (fst r3);
        set_new (FallingState env) h4
      else Some (fst r3)
    else Some (fst r3).

(** [Hero::update_ice]. *)
Definition update_ice (now : Z) (h : Hero) : option Hero :=
  do st <- state h;
  let wanted := wanted_movement_direction8 (kind st) in
  let ice := ice_movement_direction8 h in
  if wanted =? -1 then
    if ice =? -1 then
      Some (with_next_ice_date (uint32 (now + 1000)) (with_ground_dxy (0, 0) h))
    else
      Some (with_next_ice_date (uint32 (now + 300))
              (with_ground_dxy (direction_to_xy_move env ice) h))
  else
    if ice =? -1 then
      Some (with_ground_dxy (direction_to_xy_move env (Z.rem (wanted + 4) 8)) h)
    else if negb (ice =? wanted) then
      Some (with_next_ice_date (uint32 (now + 300))
              (with_ground_dxy (direction_to_xy_move env ice) h))
    else
      Some (with_next_ice_date (uint32 (now + 300))
              (with_ground_dxy (direction_to_xy_move env wanted) h)).

(** The re-evaluation of the slide in [update_ground_effects]:
    [update_ice(); ice_movement_direction8 = get_wanted_movement_direction8();] *)
Definition reevaluate_ice (now : Z) (h : Hero) : option Hero :=
  do h1 <- update_ice now h;
  do st <- state h1;
  Some (with_ice_movement_direction8 (wanted_movement_direction8 (kind st)) h1).

(** [Hero::is_ground_visible]. *)
Definition is_ground_visible (h : Hero) : option bool :=
  match ground_below h with
  | GROUND_GRASS | GROUND_SHALLOW_WATER =>
      do st <- state h; Some (is_touching_ground (kind st))
  | _ => Some false
  end.

(** [Hero::update_ground_effects].  The speed of the movement is a double
    holding an integer, so [(int) (20000 / speed)] is the truncated
    quotient. *)
Definition update_ground_effects (fuel : nat) (now : Z) (h : Hero) : option Hero :=
  if next_ground_date h <=? now then
    do visible <- is_ground_visible h;
    match (if visible then movement_speed h else None) with
    | Some speed =>
        Some (with_next_ground_date
                (uint32 (now + Z.max 150 (Z.quot 20000 speed))) h)
    | None =>
        match ground_below h with
        | GROUND_HOLE =>
            do st <- state h;
            if negb (can_avoid_hole (kind st)) then
              let h1 := with_next_ground_date (uint32 (now + 60)) h in
              if 8 <=? get_distance h1 (fst (last_solid_ground_coords h1))
                                       (snd (last_solid_ground_coords h1))
              then
                do h2 <- set_walking_speed (normal_walking_speed h1) h1;
                set_new (FallingState env) h2
              else apply_additional_ground_movement fuel now h1
            else Some h
        | GROUND_ICE =>
            do st <- state h;
            do h1 <- (if negb (can_avoid_ice (kind st))
                      then apply_additional_ground_movement fuel now h
                      else Some h);
            let h2 := with_next_ground_date (uint32 (now + 20)) h1 in
            if next_ice_date h2 <=? now then reevaluate_ice now h2
            else Some h2
        | _ => Some h
        end
    end
  else Some h.

End WithSetState.
End Open.

(** ** The state machine *)

Section WithCollaborators.

Variable env : Collaborators.

(** [Hero::set_state].  [fuel] bounds the depth of the calls. *)
Fixpoint set_state (fuel : nat) (now : Z) (new_state : State) (h : Hero)
  : option Hero :=
  match fuel with
  | O => None
  | S fuel' =>
      let set_new := fun c h0 =>
        set_state fuel' now (fst (operator_new c h0)) (snd (operator_new c h0)) in
      let h := with_requested (requested h ++ [new_state]) h in
      let old_state := state h in
      (* Stop the previous state. *)
      do h1 <-
        match old_state with
        | Some old =>
            Open.run_requests set_new fuel'
              (fun h0 k => on_stop env h0 old new_state k) 0%nat h
        | None => Some h
        end;
      if match old_state with
         | Some _ => negb (same_state old_state (state h1))
         | None => false
         end
      then
        (* Debug::error(...); the state that was supposed to start is forced. *)
        set_state fuel' now new_state h1
      else
        let h2 := with_old_states (old_states h1 ++ [old_state]) h1 in
        let h3 := with_state (Some new_state) h2 in
        do h4 <-
          Open.run_requests set_new fuel'
            (fun h0 k => on_start env h0 new_state old_state k) 0%nat h3;
        if same_state (state h4) (Some new_state)
        then Open.check_position env set_new fuel' now h4
        else Some h4
  end.

(** [set_state(new C)]. *)
Definition set_new (fuel : nat) (now : Z) (c : StateClass) (h : Hero)
  : option Hero :=
  set_state fuel now (fst (operator_new c h)) (snd (operator_new c h)).

Definition run_requests (fuel : nat) (now : Z) :=
  Open.run_requests (set_new fuel now) fuel.
Definition check_position (fuel : nat) (now : Z) :=
  Open.check_position env (set_new fuel now) fuel now.
Definition notify_position_changed (fuel : nat) (now : Z) :=
  Open.notify_position_changed env (set_new fuel now) fuel now.
Definition apply_additional_ground_movement (fuel : nat) (now : Z) :=
  Open.apply_additional_ground_movement env (set_new fuel now) fuel now.
Definition try_ground_move (fuel : nat) (now : Z) :=
  Open.try_ground_move env (set_new fuel now) fuel now.
Definition update_ground_effects (fuel : nat) (now : Z) :=
  Open.update_ground_effects env (set_new fuel now) fuel now.
Definition update_ice := Open.update_ice env.
Definition reevaluate_ice := Open.reevaluate_ice env.
Definition start_ice := Open.start_ice env.
Definition save_last_valid_position := Open.save_last_valid_position.
Definition descend_layer := Open.descend_layer env.
Definition check_collision_with_detectors (fuel : nat) (now : Z) :=
  Open.check_collision_with_detectors env (set_new fuel now) fuel.
Definition update_ground_below (fuel : nat) (now : Z) :=
  Open.update_ground_below env (set_new fuel now) now.
Definition set_walking_speed := Open.set_walking_speed.

(** [Hero::update_state]: updates the state, then destroys the old ones. *)
Definition update_state (fuel : nat) (now : Z) (h : Hero) : option Hero :=
  do st <- state h;
  do h1 <- run_requests fuel now (fun h0 k => on_update env h0 st k) 0%nat h;
  do h2 <- delete_all (old_states h1) h1;
  Some (with_old_states [] h2).

(** [Hero::update_movement]: the movement, if any, is updated; what it does
    to the state of the hero is its callback. *)
Definition update_movement (fuel : nat) (now : Z) (h : Hero) : option Hero :=
  match movement_speed h with
  | None => Some h
  | Some _ => run_requests fuel now (on_movement env) 0%nat h
  end.

(** [Hero::update]. *)
Definition update (fuel : nat) (now : Z) (h : Hero) : option Hero :=
  do h1 <- update_movement fuel now h;
  do h2 <- update_state fuel now h1;
  if negb (suspended h2) then
    do h3 <- update_ground_effects fuel now h2;
    check_collision_with_detectors fuel now h3
  else Some h2.

(** Modelled from the spec: [MapEntity::set_suspended] is not under src/;
    each component "stores its own when-suspended timestamp", so it sets
    the flag and, when suspending, records the date. *)
Definition MapEntity_set_suspended (now : Z) (b : bool) (h : Hero) : Hero :=
  let h1 := with_suspended b h in
  if b then with_when_suspended now h1 else h1.

(** [Hero::set_suspended]. *)
Definition set_suspended (now : Z) (b : bool) (h : Hero) : option Hero :=
  let h2 := MapEntity_set_suspended now b h in
  let h3 :=
    if negb b then
      let diff := uint32 (now - when_suspended h2) in
      with_next_ground_date (uint32 (next_ground_date h2 + diff)) h2
    else h2 in
  do _st <- state h3;                  (* state->set_suspended(suspended) *)
  Some h3.

(** The members as the initialisers of [Hero::Hero] leave them, before its
    call to [set_state]; [ice_movement_direction8] is not initialised. *)
Definition uninitialised (ice : Z) : Hero :=
  mkHero (mkRect (-8) (-13) 16 16) LAYER_LOW false false 0 GROUND_EMPTY None
         None [] 88 88 0 0 ice (0, 0) (-1, -1) LAYER_LOW ∅ 0%nat [] [] [].

(** [Hero::Hero]. *)
Definition create (fuel : nat) (now : Z) (ice : Z) : option Hero :=
  set_new fuel now (FreeState env) (uninitialised ice).

End WithCollaborators.

(** ** Well-formed heroes *)

Definition addr_of (p : option State) : option nat :=
  match p with Some s => Some (addr s) | None => None end.

(** The addresses of the objects of a list of [State*], the NULLs left out. *)
Definition addrs (l : list (option State)) : list nat := omap addr_of l.

(** What the objects alive are: the active state and the retired ones, each
    once, and the objects [pending], created but not yet installed by the
    [set_state] calls under way.  [new] returns addresses never used, no
    object is lost, and no object is deleted twice. *)
Record well_formed_with (pending : gset nat) (h : Hero) : Prop := mkWF {
  wf_distinct : NoDup (addrs (state h :: old_states h));
  wf_heap : forall a,
    a ∈ heap h <-> a ∈ addrs (state h :: old_states h) \/ a ∈ pending;
  wf_pending : forall a, a ∈ pending -> a ∉ addrs (state h :: old_states h);
  wf_fresh : forall a, a ∈ heap h -> (a < next_addr h)%nat;
  wf_no_leak : forall a, (a < next_addr h)%nat -> a ∈ heap h \/ a ∈ destroyed h;
  wf_destroyed : forall a, a ∈ destroyed h -> (a < next_addr h)%nat /\ a ∉ heap h;
  wf_destroyed_once : NoDup (destroyed h)
}.

(** A hero between two calls: no transition under way, a state installed. *)
Definition well_formed (h : Hero) : Prop :=
  well_formed_with ∅ h /\ is_Some (state h).

(** The fields of the state machine are the same. *)
Definition stays (h h' : Hero) : Prop :=
  state h' = state h /\ old_states h' = old_states h /\ heap h' = heap h
  /\ next_addr h' = next_addr h /\ destroyed h' = destroyed h
  /\ requested h' = requested h.

(** The effect of one or more complete [set_state] calls: nothing was
    deleted, the state held at first was retired, and on a well-formed hero
    the state installed is the argument of the last call. *)
Definition advances (h h' : Hero) : Prop :=
  destroyed h' = destroyed h
  /\ (exists l, old_states h' = old_states h ++ state h :: l)
  /\ (forall P, well_formed_with P h ->
       well_formed_with P h'
       /\ exists l s, requested h' = requested h ++ l ++ [s] /\ state h' = Some s).

Definition evolves (h h' : Hero) : Prop := stays h h' \/ advances h h'.

(** The same for the operations that leave the log alone. *)
Definition evolves_quietly (h h' : Hero) : Prop :=
  evolves h h' /\ trace h' = trace h.

(** The effect of [set_state(s)] on a hero where [s] is pending. *)
Definition installs (s : State) (h h' : Hero) : Prop :=
  destroyed h' = destroyed h
  /\ (exists l, old_states h' = old_states h ++ state h :: l)
  /\ trace h' = trace h
  /\ (forall P, addr s ∉ P -> well_formed_with ({[addr s]} ∪ P) h ->
       well_formed_with P h'
       /\ exists l s', requested h' = requested h ++ s :: l
                       /\ last (s :: l) = Some s' /\ state h' = Some s').

(** Whether [notify_ground_below_changed] calls [set_state] on the ground
    [g]: [start_deep_water], [start_lava] and [start_prickle] always do,
    [start_hole] does unless the hero is to be pulled first, and they are
    reached only when the state does not avoid the ground. *)
Definition starts_a_state (g : Ground) (st : State) (h : Hero) : bool :=
  match g with
  | GROUND_DEEP_WATER => negb (can_avoid_deep_water (kind st))
  | GROUND_HOLE =>
      negb (can_avoid_hole (kind st))
      && (negb (can_control_movement (kind st))
          || (fst (last_solid_ground_coords h) =? -1)
          || ((fst (last_solid_ground_coords h) =? get_x h)
              && (snd (last_solid_ground_coords h) =? get_y h)))
  | GROUND_LAVA => negb (can_avoid_lava (kind st))
  | GROUND_PRICKLE => negb (can_avoid_prickle (kind st))
  | _ => false
  end.

End Heroes.

(** * Concrete scenarios *)

Module StreamScenario.
Import Streams.

(** A stream that points east, speed 4, from which the entity cannot
    escape; its target is 16 pixels ahead of the entity, which starts on
    the stream. *)
Definition blocking_stream : Stream := mkStream false true false 0 4 100 100.
Definition diagonal_stream : Stream := mkStream false true true 1 64 100 100.
Definition slow_stream : Stream := mkStream false true true 0 6 100 100.

Definition entity_on_stream : MapEntity :=
  mkEntity (mkRect 92 87 16 16) (8, 13) LAYER_LOW false true.

(** An obstacle 8 pixels east of the entity: boxes further right collide. *)
Definition wall_after_8px (e : MapEntity) (l : Layer) (box : Rectangle) : bool :=
  100 <? rx box.

Definition no_obstacle (e : MapEntity) (l : Layer) (box : Rectangle) : bool :=
  false.

Definition on_stream (s : Stream) (point : Rectangle) : bool := true.

Definition ground_point (e : MapEntity) : Rectangle :=
  mkRect (get_x e) (get_y e - 2) 1 1.

Definition start_world (s : Stream) : World := mkWorld s entity_on_stream [].

(** The main loop calls [update] every 10 ms for 3 seconds. *)
Definition ticks : list Call :=
  map (fun n => CallUpdate (Z.of_nat n * 10)) (seq 1 300).

End StreamScenario.

Module HeroScenario.
Import Heroes.

(** The answers of the states used below (the state classes are not under
    src/; only the answers that the operations read matter). *)
Definition free_class (wanted : Z) : StateClass :=
  mkClass "free" false false false false false false true true true true wanted.
Definition falling_class : StateClass :=
  mkClass "falling" true true true true true false false false false false (-1).
Definition other_class (n : string) : StateClass :=
  mkClass n true true true true true false true true false false (-1).
Definition stuck_class : StateClass :=
  mkClass "stuck" false false false false false false false true false true (-1).

(** Callbacks that never change the state, no obstacle, and the ground
    [g] everywhere. *)
Definition quiet_env (g : Ground) : Collaborators :=
  mkEnv (fun _ _ _ _ => None) (fun _ _ _ _ => None) (fun _ _ _ => None)
        (fun _ _ => None) (fun _ _ => None)
        (fun _ _ _ => g) (fun _ _ _ => false) direction_to_xy_move_table false
        (free_class (-1)) falling_class (other_class "plunging")
        (other_class "swimming") (other_class "jumping")
        (other_class "back to solid ground").

(** The same with an obstacle everywhere. *)
Definition walled_env (g : Ground) : Collaborators :=
  mkEnv (fun _ _ _ _ => None) (fun _ _ _ _ => None) (fun _ _ _ => None)
        (fun _ _ => None) (fun _ _ => None)
        (fun _ _ _ => g) (fun _ _ _ => true) direction_to_xy_move_table false
        (free_class (-1)) falling_class (other_class "plunging")
        (other_class "swimming") (other_class "jumping")
        (other_class "back to solid ground").

(** A free state whose [stop], when asked to let the state "A" start,
    starts the state "B" instead. *)
Definition reentrant_env : Collaborators :=
  mkEnv (fun _ old next k =>
           if String.eqb (name (kind old)) "free"
              && String.eqb (name (kind next)) "A" && Nat.eqb k 0
           then Some (other_class "B") else None)
        (fun _ _ _ _ => None) (fun _ _ _ => None)
        (fun _ _ => None) (fun _ _ => None)
        (fun _ _ _ => GROUND_TRAVERSABLE) (fun _ _ _ => false)
        direction_to_xy_move_table false
        (free_class (-1)) falling_class (other_class "plunging")
        (other_class "swimming") (other_class "jumping")
        (other_class "back to solid ground").

(** A hero at [(x, y)] on the ground [g], in the state [c], whose last solid
    ground is [solid]; [dxy] is the displacement imposed by the ground and
    [ice] the last direction of the slide. *)
Definition hero_at (x y : Z) (g : Ground) (c : StateClass) (solid : Z * Z)
    (dxy : Z * Z) (ice : Z) : Hero :=
  mkHero (mkRect (x - 8) (y - 13) 16 16) LAYER_LOW true false 0 g None
         (Some (mkState 0 c)) [] 88 29 0 0 ice dxy solid LAYER_LOW
         {[0%nat]} 1%nat [] [] [].

(** At (100,100) on a hole, 10 pixels below the last solid ground. *)
Definition hero_over_hole : Hero :=
  hero_at 100 100 GROUND_HOLE (free_class (-1)) (100, 90) (0, 1) (-1).

(** At (100,100) on a hole, exactly 8 pixels right of the last solid ground. *)
Definition hero_8px_in_hole : Hero :=
  hero_at 100 100 GROUND_HOLE (free_class (-1)) (92, 100) (1, 0) (-1).

(** At (100,100) on a hole, 3 pixels right of the last solid ground. *)
Definition hero_3px_in_hole : Hero :=
  hero_at 100 100 GROUND_HOLE (free_class (-1)) (97, 100) (1, 0) (-1).

(** On traversable ground. *)
Definition hero_on_traversable : Hero :=
  hero_at 100 100 GROUND_TRAVERSABLE (free_class (-1)) (90, 100) (0, 0) (-1).

(** On ice, at rest, the player asking for the direction [d]. *)
Definition hero_on_ice (d : Z) : Hero :=
  hero_at 100 100 GROUND_ICE (free_class d) (90, 100) (0, 0) (-1).

(** A hero on traversable ground whose state does not let it come back
    from bad ground. *)
Definition hero_stuck : Hero :=
  hero_at 100 100 GROUND_TRAVERSABLE stuck_class (90, 100) (0, 0) (-1).

End HeroScenario.

(** * More of StreamAction.cpp and Hero.cpp *)

Module StreamCourse.
Import Streams.

(** The entity is [r] steps of [(dx, dy)] before the target of the action. *)
Definition steps_left (a : StreamAction) (e : MapEntity) (r : Z) : Prop :=
  0 <= r
  /\ get_x e = target_x a - dx a * r
  /\ get_y e = target_y a - dy a * r.

(** The calls made on the action itself: the rest of the game leaves the
    stream and the entity alone. *)
Definition by_the_action (c : Call) : bool :=
  match c with
  | WorldChanges _ _ => false
  | _ => true
  end.

(** The course of an action: its direction and its target. *)
Definition course (a : StreamAction) : Z * Z * Z * Z :=
  (dx a, dy a, target_x a, target_y a).

(** The entity is on the line to the target, at most [r0] steps before it,
    and an active action has at least one step to make. *)
Definition on_course (c : Z * Z * Z * Z) (r0 : Z) (a : StreamAction)
    (e : MapEntity) : Prop :=
  course a = c
  /\ exists r, r <= r0 /\ steps_left a e r /\ (active a = true -> 1 <= r).

(** The number of committed moves of a log. *)
Fixpoint count_moves (tr : list Event) : Z :=
  match tr with
  | [] => 0
  | EvMove _ _ :: tr' => 1 + count_moves tr'
  | _ :: tr' => count_moves tr'
  end.

(** What the schedule and the log say of the moves of an update. *)
Definition paced (now : Z) (a a' : StreamAction) (w w' : World) : Prop :=
  exists evs n,
    w_trace w' = w_trace w ++ evs
    /\ next_move_date a' = next_move_date a + n * delay a
    /\ count_moves evs <= n <= count_moves evs + 1
    /\ (0 < n -> next_move_date a + (n - 1) * delay a <= now)
    /\ get_x (w_entity w') = get_x (w_entity w) + count_moves evs * dx a
    /\ get_y (w_entity w') = get_y (w_entity w) + count_moves evs * dy a.

End StreamCourse.

Module StreamCases.
Import Streams StreamScenario.

(** A blocking stream that is being removed from the map. *)
Definition removed_stream : Stream := mkStream true true false 0 4 100 100.

(** The entity of the scenarios after one step to the east, and the log of
    that step. *)
Definition entity_at_101 : MapEntity :=
  mkEntity (mkRect 93 87 16 16) (8, 13) LAYER_LOW false true.
Definition first_step : list Event :=
  [EvCollisionTest LAYER_LOW (mkRect 93 87 16 16) false;
   EvMove LAYER_LOW (mkRect 93 87 16 16); EvPositionChanged].

(** The action of the blocking stream created at 0, and its world, after
    an update at 600 ms: two moves, due at 250 and 500 ms. *)
Definition action_at_600 : StreamAction :=
  set_next_move_date 750 (create direction_to_xy_move_table 0 blocking_stream
                            entity_on_stream).
Definition world_at_600 : World :=
  mkWorld blocking_stream
    (mkEntity (mkRect 94 87 16 16) (8, 13) LAYER_LOW false true)
    [EvCollisionTest LAYER_LOW (mkRect 93 87 16 16) false;
     EvMove LAYER_LOW (mkRect 93 87 16 16); EvPositionChanged;
     EvCollisionTest LAYER_LOW (mkRect 94 87 16 16) false;
     EvMove LAYER_LOW (mkRect 94 87 16 16); EvPositionChanged].

End StreamCases.

Module HeroOps.
Import Heroes.

(** Whether the point [(x, y)] is inside a rectangle. *)
Definition covers (r : Rectangle) (x y : Z) : Prop :=
  rx r <= x < rx r + rw r /\ ry r <= y < ry r + rh r.

(** [Hero::~Hero]: the active state, then each retired state, is deleted
    (the sprites are not modelled). *)
Definition destroy (h : Hero) : option Hero :=
  do h1 <- delete_state (state h) h;
  delete_all (old_states h1) h1.

(** [Hero::stop_ice_movement]. *)
Definition stop_ice_movement (h : Hero) : Hero :=
  with_ground_dxy (0, 0) (with_ice_movement_direction8 0 h).

(** [Hero::get_facing_point(direction)]; [None] is [Debug::die]. *)
Definition get_facing_point (direction : Z) (h : Hero) : option Rectangle :=
  let b := bounding_box h in
  match direction with
  | 0 => Some (mkRect (rx b + 16) (ry b + 8) 1 1)
  | 1 => Some (mkRect (rx b + 8) (ry b - 1) 1 1)
  | 2 => Some (mkRect (rx b - 1) (ry b + 8) 1 1)
  | 3 => Some (mkRect (rx b + 8) (ry b + 16) 1 1)
  | _ => None
  end.

(** The box that [Hero::is_facing_obstacle] tests: the bounding box moved
    one pixel in the direction of the sprites; [None] is [Debug::die]. *)
Definition facing_collision_box (animation_direction : Z) (h : Hero)
  : option Rectangle :=
  let b := bounding_box h in
  match animation_direction with
  | 0 => Some (add_xy b (1, 0))
  | 1 => Some (add_xy b (0, -1))
  | 2 => Some (add_xy b (-1, 0))
  | 3 => Some (add_xy b (0, 1))
  | _ => None
  end.

(** [Hero::is_moving_towards(direction4)].  [stopped] is the answer of
    [Movement::is_stopped()], read only when there is a movement. *)
Definition is_moving_towards (stopped : bool) (direction4 : Z) (h : Hero)
  : option bool :=
  match movement_speed h with
  | None => Some false
  | Some _ =>
      if stopped then Some false
      else
        do st <- state h;
        let direction8 := direction4 * 2 in
        let movement_direction8 := wanted_movement_direction8 (kind st) in
        Some (negb (movement_direction8 =? -1)
              && ((movement_direction8 =? direction8)
                  || (Z.rem (movement_direction8 + 1) 8 =? direction8)
                  || (Z.rem (movement_direction8 + 7) 8 =? direction8)))
  end.

Section WithCollaborators.

Variable env : Collaborators.

(** [Hero::is_facing_obstacle]. *)
Definition is_facing_obstacle (animation_direction : Z) (h : Hero) : option bool :=
  do collision_box <- facing_collision_box animation_direction h;
  Some (test_collision_with_obstacles env h (layer h) collision_box).

(** Whether the bounding box moved by one step in [direction8] is free. *)
Definition can_move_towards (direction8 : Z) (h : Hero) : bool :=
  negb (test_collision_with_obstacles env h (layer h)
          (add_xy (bounding_box h) (direction_to_xy_move env direction8))).

(** [Hero::get_real_movement_direction8].  [%] is the remainder of C++,
    which has the sign of the dividend. *)
Definition get_real_movement_direction8 (h : Hero) : option Z :=
  do st <- state h;
  let wanted_direction8 := wanted_movement_direction8 (kind st) in
  if wanted_direction8 =? -1 then Some (-1)
  else if can_move_towards wanted_direction8 h then Some wanted_direction8
  else
    let alternative_direction8 := Z.rem (wanted_direction8 + 1) 8 in
    if can_move_towards alternative_direction8 h then Some alternative_direction8
    else
      let alternative_direction8 := Z.rem (wanted_direction8 - 1) 8 in
      if can_move_towards alternative_direction8 h then Some alternative_direction8
      else Some wanted_direction8.

(** [Hero::notify_obstacle_reached].  [on_obstacle_reached] is what
    [MapEntity::notify_obstacle_reached] and the state's
    [notify_obstacle_reached] ask of the hero. *)
Definition notify_obstacle_reached
    (on_obstacle_reached : Hero -> nat -> option StateClass)
    (fuel : nat) (now : Z) (h : Hero) : option Hero :=
  do _st <- state h;
  do h1 <- run_requests env fuel now on_obstacle_reached 0%nat h;
  if Ground_eqb (ground_below h1) GROUND_ICE then
    Some (with_ice_movement_direction8 (-1) (with_ground_dxy (0, 0) h1))
  else Some h1.

(** [Hero::try_snap_to_facing_entity].  [facing] is the top-left corner of
    the facing entity, [None] when there is none (a NULL pointer, which the
    code dereferences). *)
Definition try_snap_to_facing_entity (fuel : nat) (now : Z)
    (animation_direction : Z) (facing : option (Z * Z)) (h : Hero)
  : option Hero :=
  do top_left <- facing;
  let b := bounding_box h in
  let collision_box :=
    if Z.rem animation_direction 2 =? 0 then
      if Z.abs (ry b - snd top_left) <=? 5
      then mkRect (rx b) (snd top_left) (rw b) (rh b) else b
    else
      if Z.abs (rx b - fst top_left) <=? 5
      then mkRect (fst top_left) (ry b) (rw b) (rh b) else b in
  let obstacle := test_collision_with_obstacles env h (layer h) collision_box in
  let h1 := log (EvCollisionTest (layer h) collision_box obstacle) h in
  if negb obstacle then
    notify_position_changed env fuel now
      (log (EvMove (layer h1) collision_box) (with_bounding_box collision_box h1))
  else Some h1.

(** [Hero::update_ground_effects] called at each of the dates in turn. *)
Fixpoint update_ground_effects_at (fuel : nat) (dates : list Z) (h : Hero)
  : option Hero :=
  match dates with
  | [] => Some h
  | now :: dates' =>
      do h1 <- update_ground_effects env fuel now h;
      update_ground_effects_at fuel dates' h1
  end.

End WithCollaborators.

(** Dates at which the ground effects are due: each one is at or after the
    date [gate] that the previous call left as the next one, 60 ms after
    it, and the 32-bit clock does not wrap. *)
Fixpoint due_dates (gate : Z) (dates : list Z) : Prop :=
  match dates with
  | [] => True
  | now :: dates' =>
      gate <= now /\ 0 <= now /\ now + 60 < 2 ^ 32 /\ due_dates (now + 60) dates'
  end.

(** The hero after one pull of the hole at [now]: the query, the move, the
    notification, on the box moved by the displacement of the ground. *)
Definition pulled (now : Z) (h : Hero) : Hero :=
  let h1 := with_next_ground_date (uint32 (now + 60)) h in
  let box := add_xy (bounding_box h1) (ground_dxy h1) in
  log EvPositionChanged
    (log (EvMove (layer h1) box)
       (with_bounding_box box (log (EvCollisionTest (layer h1) box false) h1))).

(** A hero being pulled away from his last solid ground. *)
Definition in_the_hole (st : State) (lx ly : Z) (h : Hero) : Prop :=
  on_map h = true /\ suspended h = false /\ state h = Some st
  /\ ground_below h = GROUND_HOLE
  /\ last_solid_ground_coords h = (lx, ly)
  /\ ground_dxy h = (Z.sgn (get_x h - lx), Z.sgn (get_y h - ly))
  /\ (get_x h <> lx \/ get_y h <> ly).

(** How far he is from it, on the axis where he is the farthest. *)
Definition offset (lx ly : Z) (h : Hero) : Z :=
  Z.max (Z.abs (get_x h - lx)) (Z.abs (get_y h - ly)).

(** Callbacks that ask for no transition. *)
Definition quiet (env : Collaborators) : Prop :=
  (forall h old next k, on_stop env h old next k = None)
  /\ (forall h s old k, on_start env h s old k = None)
  /\ (forall h s k, on_update env h s k = None)
  /\ (forall h k, on_detectors env h k = None)
  /\ (forall h k, on_movement env h k = None).

(** The call returned, with a state installed. *)
Definition returns (r : option Hero) : Prop :=
  exists h, r = Some h /\ is_Some (state h).

(** The ground recorded is the ground at the ground point. *)
Definition settled (env : Collaborators) (h : Hero) : Prop :=
  ground_at env (layer h) (get_x h) (get_y h - 2) = ground_below h.

End HeroOps.

Module HeroCases.
Import Heroes HeroScenario.

(** On traversable ground with a movement of speed 88, the player asking
    for the direction [d]. *)
Definition walking_hero (d : Z) : Hero :=
  mkHero (mkRect 92 87 16 16) LAYER_LOW true false 0 GROUND_TRAVERSABLE (Some 88)
         (Some (mkState 0 (free_class d))) [] 88 88 0 0 (-1) (0, 0) (90, 100)
         LAYER_LOW {[0%nat]} 1%nat [] [] [].

(** [hero_on_traversable], whose box is at (92,87), snapped to an entity at
    (108,90) on his right. *)
Definition snapped_hero : Hero :=
  mkHero (mkRect 92 90 16 16) LAYER_LOW true false 0 GROUND_TRAVERSABLE None
         (Some (mkState 0 (free_class (-1)))) [] 88 29 0 0 (-1) (0, 0) (100, 103)
         LAYER_LOW {[0%nat]} 1%nat [] []
         [EvCollisionTest LAYER_LOW (mkRect 92 90 16 16) false;
          EvMove LAYER_LOW (mkRect 92 90 16 16); EvPositionChanged].

(** On ice, sliding to the west, the player asking for no direction. *)
Definition sliding_hero : Hero :=
  hero_at 100 100 GROUND_ICE (free_class (-1)) (90, 100) (-1, 0) 4.

(** The hero as the constructor leaves him. *)
Definition new_hero : Hero :=
  mkHero (mkRect (-8) (-13) 16 16) LAYER_LOW false false 0 GROUND_EMPTY None
         (Some (mkState 0 (free_class (-1)))) [None] 88 88 0 0 (-1) (0, 0) (-1, -1)
         LAYER_LOW {[0%nat]} 1%nat [] [mkState 0 (free_class (-1))] [].

(** Just arrived on grass, the walking speed still the normal one. *)
Definition hero_on_grass : Hero :=
  mkHero (mkRect 92 87 16 16) LAYER_LOW true false 0 GROUND_GRASS (Some 88)
         (Some (mkState 0 (free_class (-1)))) [] 88 88 0 0 (-1) (0, 0) (90, 100)
         LAYER_LOW {[0%nat]} 1%nat [] [] [].

(** A wall along the line x = 109: a box whose right side passes it
    collides. *)
Definition wall_on_the_right : Collaborators :=
  mkEnv (fun _ _ _ _ => None) (fun _ _ _ _ => None) (fun _ _ _ => None)
        (fun _ _ => None) (fun _ _ => None)
        (fun _ _ _ => GROUND_ICE) (fun _ _ box => 109 <? rx box + rw box)
        direction_to_xy_move_table false
        (free_class (-1)) falling_class (other_class "plunging")
        (other_class "swimming") (other_class "jumping")
        (other_class "back to solid ground").

(** On ice at (101,100), against that wall, sliding to the south-east. *)
Definition hero_sliding_along_wall : Hero :=
  hero_at 101 100 GROUND_ICE (free_class 7) (90, 100) (1, 1) 7.

End HeroCases.

(** * SpriteAnimationSet.cpp *)

Module Sprites.

(** ** Data *)

(** What the constructors of [SpriteAnimationDirection] and
    [SpriteAnimation] are given (neither class is under src/). *)
Record SpriteAnimationDirection := mkDirection {
  frames : list Rectangle;          (* positions_in_src *)
  direction_origin : Z * Z
}.

Record SpriteAnimation := mkAnimation {
  src_image : string;
  directions : list SpriteAnimationDirection;
  frame_delay : Z;
  frame_to_loop_on : Z
}.

Record SpriteAnimationSet := mkSet {
  id : string;
  animations : gmap string SpriteAnimation;
  default_animation_name : string;
  max_size : Z * Z                  (* width and height of the rectangle *)
}.

(** One entry of the [directions] table of the data file, as [l_animation]
    reads it into [int] variables (the optional fields already defaulted). *)
Record DirectionData := mkDirectionData {
  d_x : Z;
  d_y : Z;
  d_frame_width : Z;
  d_frame_height : Z;
  d_origin_x : Z;
  d_origin_y : Z;
  d_num_frames : Z;
  d_num_columns : Z
}.

(** The table given to one [animation{...}] call of the data file. *)
Record AnimationData := mkAnimationData {
  a_name : string;
  a_src_image : string;
  a_frame_delay : Z;
  a_frame_to_loop_on : Z;
  a_directions : list DirectionData
}.

(** ** The frames of a direction *)

(** The numbers of the table are C++ [int]s.  [int32] is the conversion to
    [int] of the 32-bit two's complement machine. *)
Definition INT_MIN : Z := - 2 ^ 31.
Definition INT_MAX : Z := 2 ^ 31 - 1.
Definition int32 (z : Z) : Z := (z + 2 ^ 31) mod 2 ^ 32 - 2 ^ 31.
Definition is_int (z : Z) : Prop := INT_MIN <= z <= INT_MAX.

(** The rectangle pushed for the column [c] of the row [r].  The products
    and the sums are [int] operations; an overflow, undefined in C++, is
    written as the wrap-around that the machine performs. *)
Definition position_in_src (d : DirectionData) (r c : Z) : Rectangle :=
  mkRect (int32 (d_x d + int32 (c * d_frame_width d)))
         (int32 (d_y d + int32 (r * d_frame_height d)))
         (d_frame_width d) (d_frame_height d).

(** The inner loop,
    [for (c = 0; c < num_columns && j < num_frames; ++c)]: the frame number
    and the vector when it ends.  The counters stay below their bounds, so
    their increments do not overflow. *)
Fixpoint columns_loop (fuel : nat) (d : DirectionData) (r c j : Z)
    (positions : list Rectangle) : option (Z * list Rectangle) :=
  if (c <? d_num_columns d) && (j <? d_num_frames d) then
    match fuel with
    | O => None
    | S fuel' =>
        columns_loop fuel' d r (c + 1) (j + 1)
          (positions ++ [position_in_src d r c])
    end
  else Some (j, positions).

(** The outer loop, [for (r = 0; r < num_rows && j < num_frames; ++r)]. *)
Fixpoint rows_loop (fuel : nat) (d : DirectionData) (num_rows r j : Z)
    (positions : list Rectangle) : option (list Rectangle) :=
  if (r <? num_rows) && (j <? d_num_frames d) then
    match fuel with
    | O => None
    | S fuel' =>
        match columns_loop (Z.to_nat (d_num_columns d)) d r 0 j positions with
        | Some (j', positions') => rows_loop fuel' d num_rows (r + 1) j' positions'
        | None => None
        end
    end
  else Some positions.

(** The number of rows: [/] and [%] are those of C++.  The division by 0,
    and the division of [INT_MIN] by -1, whose quotient is no [int], are
    undefined behaviour (the processor traps): no result.  When the
    remainder is not 0 the quotient is at most half of [INT_MAX] in
    absolute value, so the increment does not overflow. *)
Definition num_rows (d : DirectionData) : option Z :=
  if (d_num_columns d =? 0)
     || ((d_num_frames d =? INT_MIN) && (d_num_columns d =? -1))
  then None
  else if Z.rem (d_num_frames d) (d_num_columns d) =? 0
  then Some (Z.quot (d_num_frames d) (d_num_columns d))
  else Some (Z.quot (d_num_frames d) (d_num_columns d) + 1).

(** The vector [positions_in_src] of one direction.  Each loop runs at most
    as many times as its bound. *)
Definition positions_in_src (d : DirectionData) : option (list Rectangle) :=
  match num_rows d with
  | Some n => rows_loop (Z.to_nat n) d n 0 0 []
  | None => None
  end.

(** ** The animation set *)

Definition set_max_size (v : Z * Z) (s : SpriteAnimationSet) : SpriteAnimationSet :=
  mkSet (id s) (animations s) (default_animation_name s) v.

(** The loop of [l_animation] over the directions: the maximum size is
    raised and the direction is built. *)
Fixpoint directions_loop (ds : list DirectionData) (s : SpriteAnimationSet)
    (built : list SpriteAnimationDirection)
  : option (SpriteAnimationSet * list SpriteAnimationDirection) :=
  match ds with
  | [] => Some (s, built)
  | d :: ds' =>
      let s1 := set_max_size (Z.max (d_frame_width d) (fst (max_size s)),
                              snd (max_size s)) s in
      let s2 := set_max_size (fst (max_size s1),
                              Z.max (d_frame_height d) (snd (max_size s1))) s1 in
      match positions_in_src d with
      | Some positions =>
          directions_loop ds' s2
            (built ++ [mkDirection positions (d_origin_x d, d_origin_y d)])
      | None => None
      end
  end.

(** [SpriteAnimationSet::has_animation]. *)
Definition has_animation (s : SpriteAnimationSet) (animation_name : string) : bool :=
  match animations s !! animation_name with
  | Some _ => true
  | None => false
  end.

(** [SpriteAnimationSet::get_animation]; [None] is the failed assertion. *)
Definition get_animation (s : SpriteAnimationSet) (animation_name : string)
  : option SpriteAnimation :=
  if has_animation s animation_name then animations s !! animation_name else None.

(** [SpriteAnimationSet::get_default_animation]. *)
Definition get_default_animation (s : SpriteAnimationSet) : string :=
  default_animation_name s.

(** [SpriteAnimationSet::get_max_size]. *)
Definition get_max_size (s : SpriteAnimationSet) : Z * Z := max_size s.

(** The animation that [l_animation] builds from its table. *)
Definition new_animation (a : AnimationData)
    (built : list SpriteAnimationDirection) : SpriteAnimation :=
  mkAnimation (a_src_image a) built (uint32 (a_frame_delay a)) (a_frame_to_loop_on a).

(** [SpriteAnimationSet::l_animation], on a table whose fields have the
    right types.  The boolean tells whether the function returned; [false]
    is the Lua error raised for a duplicate name, with the set as it is
    then. *)
Definition l_animation (a : AnimationData) (s : SpriteAnimationSet)
  : option (SpriteAnimationSet * bool) :=
  match directions_loop (a_directions a) s [] with
  | None => None
  | Some (s1, built) =>
      if has_animation s1 (a_name a) then Some (s1, false)
      else
        let s2 := mkSet (id s1)
                    (<[a_name a := new_animation a built]> (animations s1))
                    (default_animation_name s1) (max_size s1) in
        (* Set the first animation as the default one. *)
        if Nat.eqb (size (animations s2)) 1
        then Some (mkSet (id s2) (animations s2) (a_name a) (max_size s2), true)
        else Some (s2, true)
  end.

(** The data file is a sequence of [animation{...}] calls; a Lua error ends
    the run of the file ([lua_pcall] fails and the error is logged). *)
Fixpoint run_file (calls : list AnimationData) (s : SpriteAnimationSet)
  : option SpriteAnimationSet :=
  match calls with
  | [] => Some s
  | a :: calls' =>
      match l_animation a s with
      | Some (s1, true) => run_file calls' s1
      | Some (s1, false) => Some s1
      | None => None
      end
  end.

(** [SpriteAnimationSet::load]; [None] when the assertion fails. *)
Definition load (calls : list AnimationData) (s : SpriteAnimationSet)
  : option SpriteAnimationSet :=
  if decide (animations s = ∅) then run_file calls s else None.

(** The frame number [j] of a direction, by the formula of the grid. *)
Definition frame (d : DirectionData) (j : Z) : Rectangle :=
  position_in_src d (j / d_num_columns d) (j mod d_num_columns d).

(** The coordinates of the cell of the row [r] and of the column [c] are
    computed without overflow. *)
Definition cell_fits (d : DirectionData) (r c : Z) : Prop :=
  is_int (c * d_frame_width d) /\ is_int (d_x d + c * d_frame_width d)
  /\ is_int (r * d_frame_height d) /\ is_int (d_y d + r * d_frame_height d).

(** The numbers of a direction are [int]s. *)
Definition int_fields (d : DirectionData) : Prop :=
  is_int (d_x d) /\ is_int (d_y d)
  /\ is_int (d_frame_width d) /\ is_int (d_frame_height d)
  /\ is_int (d_origin_x d) /\ is_int (d_origin_y d)
  /\ is_int (d_num_frames d) /\ is_int (d_num_columns d).

(** Two rectangles with no pixel in common. *)
Definition apart (a b : Rectangle) : Prop :=
  rx a + rw a <= rx b \/ rx b + rw b <= rx a
  \/ ry a + rh a <= ry b \/ ry b + rh b <= ry a.

(** All the frames of the animations of a set fit in its maximum size. *)
Definition frames_fit (s : SpriteAnimationSet) : Prop :=
  forall n anim dir r,
    animations s !! n = Some anim ->
    dir ∈ directions anim -> r ∈ frames dir ->
    rw r <= fst (max_size s) /\ rh r <= snd (max_size s).

End Sprites.

Module SpriteScenario.
Import Sprites.

(** Seven frames of 24x32 pixels on three columns, from (8,16). *)
Definition walking_down : DirectionData := mkDirectionData 8 16 24 32 12 29 7 3.

Definition walking_down_frames : list Rectangle :=
  [mkRect 8 16 24 32; mkRect 32 16 24 32; mkRect 56 16 24 32;
   mkRect 8 48 24 32; mkRect 32 48 24 32; mkRect 56 48 24 32;
   mkRect 8 80 24 32].

Definition walking : AnimationData :=
  mkAnimationData "walking" "hero/tunic1.png" 100 0 [walking_down].

Definition stopped : AnimationData :=
  mkAnimationData "stopped" "hero/tunic1.png" 0 (-1)
    [mkDirectionData 0 0 16 24 8 21 1 1].

Definition empty_set : SpriteAnimationSet := mkSet "hero/tunic1" ∅ "" (0, 0).

(** The set after the file [walking; stopped; walking]: the third call is a
    duplicate. *)
Definition loaded_set : SpriteAnimationSet :=
  mkSet "hero/tunic1"
    (<["stopped"%string :=
         mkAnimation "hero/tunic1.png" [mkDirection [mkRect 0 0 16 24] (8, 21)] 0 (-1)]>
       (<["walking"%string :=
            mkAnimation "hero/tunic1.png"
              [mkDirection walking_down_frames (12, 29)] 100 0]> ∅))
    "walking" (24, 32).

(** A second table named "walking", with one frame of 48x40 pixels. *)
Definition wide_walking : AnimationData :=
  mkAnimationData "walking" "hero/tunic2.png" 100 0
    [mkDirectionData 0 0 48 40 24 37 1 1].

Definition widened_set : SpriteAnimationSet :=
  mkSet "hero/tunic1" (animations loaded_set) "walking" (48, 40).

End SpriteScenario.

(** * Facts *)

(** ** Machine arithmetic *)

Lemma uint32_range z : 0 <= uint32 z < 2 ^ 32.
Proof. unfold uint32. apply Z.mod_pos_bound. lia. Qed.

Lemma uint32_small z : 0 <= z < 2 ^ 32 -> uint32 z = z.
Proof. intros H. unfold uint32. apply Z.mod_small. exact H. Qed.

Lemma uint32_add_r a b : uint32 (a + uint32 b) = uint32 (a + b).
Proof. unfold uint32. apply Zplus_mod_idemp_r. Qed.

Lemma Ground_eqb_eq a b : Ground_eqb a b = true <-> a = b.
Proof.
  split; [destruct a, b; simpl; congruence | intros ->; destruct b; reflexivity].
Qed.

(** ** Logs of moves *)

Lemma moves_validated_cons_test l box r tr :
  moves_validated tr -> moves_validated (EvCollisionTest l box r :: tr).
Proof.
  intros H. destruct tr as [|e tr]; [destruct r; exact I|].
  destruct e; simpl in *; try (destruct r; exact H).
  contradiction.
Qed.

Lemma moves_validated_app tr1 tr2 :
  moves_validated tr1 -> moves_validated tr2 -> moves_validated (tr1 ++ tr2).
Proof.
  remember (length tr1) as n eqn:Hn. revert tr1 Hn.
  induction (lt_wf n) as [n _ IH]. intros tr1 Hn H1 H2.
  destruct tr1 as [|e tr1]; [exact H2|].
  destruct e as [l box r| |].
  - destruct r.
    + simpl in H1 |- *. eapply IH; [|reflexivity|exact H1|exact H2].
      subst n. simpl. lia.
    + destruct tr1 as [|e' tr1].
      * change (moves_validated (EvCollisionTest l box false :: tr2)).
        apply moves_validated_cons_test. exact H2.
      * destruct e' as [l' box' r'|l' box'|].
        -- change (moves_validated ((EvCollisionTest l' box' r' :: tr1) ++ tr2)).
           eapply IH; [|reflexivity|exact H1|exact H2]. subst n. simpl. lia.
        -- simpl in H1 |- *. destruct H1 as (? & ? & H1). repeat split; try assumption.
           eapply IH; [|reflexivity|exact H1|exact H2]. subst n. simpl. lia.
        -- change (moves_validated ((EvPositionChanged :: tr1) ++ tr2)).
           eapply IH; [|reflexivity|exact H1|exact H2]. subst n. simpl. lia.
  - simpl in H1. contradiction.
  - simpl in H1 |- *. eapply IH; [|reflexivity|exact H1|exact H2].
    subst n. simpl. lia.
Qed.

Lemma no_obstructed_move_app tr1 tr2 :
  no_obstructed_move tr1 -> no_obstructed_move tr2 ->
  match tr2 with EvMove _ _ :: _ => False | _ => True end ->
  no_obstructed_move (tr1 ++ tr2).
Proof.
  intros H1 H2 Hhd. induction tr1 as [|e tr1 IH]; [exact H2|].
  destruct e as [l box r| |]; [|exact (IH H1)|exact (IH H1)].
  destruct r; [|exact (IH H1)].
  destruct tr1 as [|e' tr1].
  - destruct tr2 as [|e2 tr2]; [exact I|]. destruct e2; auto.
  - destruct e'; [exact (IH H1)|destruct H1|exact (IH H1)].
Qed.

(** ** Stream actions *)

Section StreamFacts.

Import Streams.

Variable test_collision_with_obstacles : MapEntity -> Layer -> Rectangle -> bool.
Variable overlaps : Stream -> Rectangle -> bool.
Variable get_ground_point : MapEntity -> Rectangle.
Variable direction_to_xy_move : Z -> Z * Z.

Local Abbreviation update := (update test_collision_with_obstacles overlaps get_ground_point).
Local Abbreviation update_loop := (update_loop test_collision_with_obstacles).
Local Abbreviation update_step := (update_step test_collision_with_obstacles).
Local Abbreviation test_obstacles := (test_obstacles test_collision_with_obstacles).
Local Abbreviation run_call :=
  (run_call test_collision_with_obstacles overlaps get_ground_point).
Local Abbreviation run_calls :=
  (run_calls test_collision_with_obstacles overlaps get_ground_point).

(** The box committed by [set_xy] is the box that was tested. *)
Lemma set_xy_translates e d :
  bounding_box (set_xy (get_x e + fst d) (get_y e + snd d) e)
  = add_xy (bounding_box e) d.
Proof.
  unfold set_xy, add_xy, get_x, get_y. simpl. f_equal; lia.
Qed.

Lemma get_x_set_xy x y e : get_x (set_xy x y e) = x.
Proof. unfold get_x, set_xy. simpl. lia. Qed.

Lemma get_y_set_xy x y e : get_y (set_xy x y e) = y.
Proof. unfold get_y, set_xy. simpl. lia. Qed.

(** What one turn of the loop does, by the answer of the collision query. *)
Lemma update_step_obstructed a w :
  let e := w_entity w in
  let box := add_xy (bounding_box e) (dx a, dy a) in
  test_collision_with_obstacles e (layer e) box = true ->
  update_step a w =
    (let a1 := set_next_move_date (uint32 (next_move_date a + delay a)) a in
     if allow_movement (w_stream w) then a1 else set_active false a1,
     log (EvCollisionTest (layer e) box true) w, false).
Proof.
  intros e box H. unfold update_step, Streams.test_obstacles. simpl.
  fold e. fold box. rewrite H. simpl. destruct (allow_movement (w_stream w)); reflexivity.
Qed.

Lemma update_step_free a w :
  let e := w_entity w in
  let box := add_xy (bounding_box e) (dx a, dy a) in
  let e' := set_xy (get_x e + dx a) (get_y e + dy a) e in
  test_collision_with_obstacles e (layer e) box = false ->
  update_step a w =
    (let a1 := set_next_move_date (uint32 (next_move_date a + delay a)) a in
     if has_reached_target a e' then set_active false a1 else a1,
     mkWorld (w_stream w) e'
       (w_trace w ++ [EvCollisionTest (layer e) box false]
                  ++ [EvMove (layer e) box] ++ [EvPositionChanged]),
     true).
Proof.
  intros e box e' H. unfold update_step, Streams.test_obstacles. simpl.
  fold e. fold box. rewrite H. simpl. fold e'.
  assert (Hb : bounding_box e' = box) by apply (set_xy_translates e (dx a, dy a)).
  assert (Hw : log EvPositionChanged
                 (move_entity (get_x e + dx a) (get_y e + dy a)
                    (log (EvCollisionTest (layer e) box false) w))
               = mkWorld (w_stream w) e'
                   (w_trace w ++ [EvCollisionTest (layer e) box false;
                                  EvMove (layer e) box; EvPositionChanged])).
  { unfold log, move_entity. cbn [w_stream w_entity w_trace]. fold e. fold e'.
    rewrite Hb. rewrite <- !app_assoc. reflexivity. }
  rewrite Hw. reflexivity.
Qed.

(** The log of one turn. *)
Lemma update_step_trace a w a' w' again :
  update_step a w = (a', w', again) ->
  exists evs, w_trace w' = w_trace w ++ evs
    /\ moves_validated evs /\ no_obstructed_move evs
    /\ match evs with EvMove _ _ :: _ => False | _ => True end.
Proof.
  intros H.
  destruct (test_collision_with_obstacles (w_entity w) (layer (w_entity w))
              (add_xy (bounding_box (w_entity w)) (dx a, dy a))) eqn:Hq.
  - rewrite (update_step_obstructed a w Hq) in H. injection H as <- <- <-.
    eexists. split; [reflexivity|]. simpl. auto.
  - rewrite (update_step_free a w Hq) in H. injection H as <- <- <-.
    eexists. split; [reflexivity|]. simpl. auto.
Qed.

Lemma update_loop_trace fuel now a w a' w' :
  update_loop fuel now a w = Some (a', w') ->
  exists evs, w_trace w' = w_trace w ++ evs
    /\ moves_validated evs /\ no_obstructed_move evs
    /\ match evs with EvMove _ _ :: _ => False | _ => True end.
Proof.
  revert a w. induction fuel as [|fuel IH]; intros a w H; simpl in H.
  - destruct (loop_condition now a); [discriminate|]. injection H as <- <-.
    exists []. rewrite app_nil_r. simpl. auto.
  - destruct (loop_condition now a).
    + destruct (update_step a w) as [[a1 w1] again] eqn:Hs.
      destruct (update_step_trace _ _ _ _ _ Hs) as (evs1 & E1 & V1 & N1 & M1).
      destruct again.
      * destruct (IH _ _ H) as (evs2 & E2 & V2 & N2 & M2).
        exists (evs1 ++ evs2). rewrite E2, E1, app_assoc. split; [reflexivity|].
        split; [apply moves_validated_app; assumption|].
        split; [apply no_obstructed_move_app; assumption|].
        destruct evs1 as [|e1 evs1]; [exact M2|exact M1].
      * injection H as <- <-. exists evs1. auto.
    + injection H as <- <-. exists []. rewrite app_nil_r. simpl. auto.
Qed.

Lemma update_trace now a w a' w' :
  update now a w = Some (a', w') ->
  exists evs, w_trace w' = w_trace w ++ evs
    /\ moves_validated evs /\ no_obstructed_move evs.
Proof.
  intros H. unfold Streams.update in H.
  assert (Hsame : forall a0, Some (a0, w) = Some (a', w') ->
            exists evs, w_trace w' = w_trace w ++ evs
              /\ moves_validated evs /\ no_obstructed_move evs).
  { intros a0 E. injection E as <- <-. exists []. rewrite app_nil_r. simpl. auto. }
  repeat match type of H with
         | (if ?c then _ else _) = _ => destruct c; [eauto|]
         end.
  destruct (update_loop_trace _ _ _ _ _ _ H) as (evs & ? & ? & ? & ?). eauto.
Qed.

(** The loop needs no more turns than [update] gives it. *)
Lemma remaining_nonneg a e : 0 <= remaining a e.
Proof. unfold remaining. repeat destruct (_ <? _); lia. Qed.

Lemma update_loop_terminates fuel now a w :
  (Z.to_nat (remaining a (w_entity w)) < fuel)%nat ->
  exists r, update_loop fuel now a w = Some r.
Proof.
  revert a w. induction fuel as [|fuel IH]; intros a w Hf; [lia|].
  simpl. destruct (loop_condition now a) eqn:Hc; [|eauto].
  destruct (test_collision_with_obstacles (w_entity w) (layer (w_entity w))
              (add_xy (bounding_box (w_entity w)) (dx a, dy a))) eqn:Hq.
  - rewrite (update_step_obstructed a w Hq). eauto.
  - rewrite (update_step_free a w Hq). cbv zeta.
    set (e' := set_xy _ _ _).
    destruct (has_reached_target a e') eqn:Hr.
    + destruct fuel; simpl; unfold loop_condition, is_active; simpl;
        rewrite andb_false_r; eauto.
    + apply IH. simpl.
      assert (remaining a e' < remaining a (w_entity w)); [|
        pose proof (remaining_nonneg a e');
        unfold remaining in *; simpl in *; lia].
      unfold has_reached_target in Hr. unfold remaining.
      subst e'. rewrite get_x_set_xy, get_y_set_xy in *.
      destruct (Z.eqb_spec (dx a) 0), (Z.eqb_spec (dy a) 0),
        (Z.ltb_spec 0 (dx a)), (Z.ltb_spec 0 (dy a)),
        (Z.ltb_spec (dx a) 0), (Z.ltb_spec (dy a) 0),
        (Z.leb_spec (target_x a) (get_x (w_entity w) + dx a)),
        (Z.leb_spec (target_y a) (get_y (w_entity w) + dy a)),
        (Z.leb_spec (get_x (w_entity w) + dx a) (target_x a)),
        (Z.leb_spec (get_y (w_entity w) + dy a) (target_y a));
        simpl in Hr; try discriminate; try lia.
Qed.

(** [update] always returns. *)
Lemma update_terminates now a w : exists r, update now a w = Some r.
Proof.
  unfold Streams.update.
  repeat match goal with
         | |- exists r, (if ?c then _ else _) = _ => destruct c; [eauto|]
         end.
  apply update_loop_terminates. lia.
Qed.

End StreamFacts.

(** *** The claims on stream actions *)

Section StreamClaims.

Import Streams.

Variable test_collision_with_obstacles : MapEntity -> Layer -> Rectangle -> bool.
Variable overlaps : Stream -> Rectangle -> bool.
Variable get_ground_point : MapEntity -> Rectangle.
Variable direction_to_xy_move : Z -> Z * Z.

Local Abbreviation update :=
  (update test_collision_with_obstacles overlaps get_ground_point).
Local Abbreviation update_step := (update_step test_collision_with_obstacles).
Local Abbreviation run_call :=
  (run_call test_collision_with_obstacles overlaps get_ground_point).
Local Abbreviation run_calls :=
  (run_calls test_collision_with_obstacles overlaps get_ground_point).

Lemma update_inactive now a w : is_active a = false -> update now a w = Some (a, w).
Proof. intros H. unfold Streams.update. rewrite H. reflexivity. Qed.

Lemma set_suspended_active now b a : active (set_suspended now b a) = active a.
Proof.
  unfold set_suspended. destruct b; [reflexivity|].
  simpl. destruct (negb _); reflexivity.
Qed.

Lemma set_suspended_delay now b a : delay (set_suspended now b a) = delay a.
Proof.
  unfold set_suspended. destruct b; [reflexivity|].
  simpl. destruct (negb _); reflexivity.
Qed.

Lemma update_step_delay a w : delay (fst (fst (update_step a w))) = delay a.
Proof.
  unfold Streams.update_step.
  destruct (Streams.test_obstacles _ _ _) as [[] w1]; simpl;
    match goal with |- context [if ?c then _ else _] => destruct c end; reflexivity.
Qed.

Lemma update_loop_delay fuel now a w a' w' :
  update_loop test_collision_with_obstacles fuel now a w = Some (a', w') ->
  delay a' = delay a.
Proof.
  revert a w. induction fuel as [|fuel IH]; intros a w H; simpl in H.
  - destruct (loop_condition now a); [discriminate|]. injection H as <- <-. reflexivity.
  - destruct (loop_condition now a); [|injection H as <- <-; reflexivity].
    pose proof (update_step_delay a w) as Hd.
    destruct (update_step a w) as [[a1 w1] again]. simpl in Hd.
    destruct again; [rewrite (IH _ _ H); exact Hd|].
    injection H as <- <-. exact Hd.
Qed.

Lemma update_delay now a w a' w' : update now a w = Some (a', w') -> delay a' = delay a.
Proof.
  intros H. unfold Streams.update in H.
  repeat match type of H with
         | (if ?c then _ else _) = _ =>
             destruct c; [injection H as <- <-; reflexivity|]
         end.
  eapply update_loop_delay; exact H.
Qed.

Lemma run_call_delay c a w a' w' :
  run_call c (a, w) = Some (a', w') -> delay a' = delay a.
Proof.
  destruct c; simpl; intros H.
  - eapply update_delay; exact H.
  - injection H as <- <-. apply set_suspended_delay.
  - injection H as <- <-. reflexivity.
Qed.

Lemma run_calls_inactive calls : forall a w,
  is_active a = false ->
  exists a' w', run_calls calls (a, w) = Some (a', w') /\ is_active a' = false.
Proof.
  induction calls as [|c calls IH]; intros a w Ha; [simpl; eauto|].
  destruct c as [now|now b|s e]; simpl.
  - rewrite (update_inactive now a w Ha). apply IH, Ha.
  - apply IH. unfold is_active. rewrite set_suspended_active. exact Ha.
  - apply IH, Ha.
Qed.

End StreamClaims.

(** The product by the double nearest to the square root of 2, truncated,
    is the integer part of the real product, for the delays that a stream
    can have. *)
Lemma times_sqrt2_exact d :
  0 <= d <= 1000 -> Streams.times_sqrt2 d = Z.sqrt (2 * d * d).
Proof.
  intros Hd.
  assert (Hall : forallb (fun n => Streams.times_sqrt2 (Z.of_nat n)
                                   =? Z.sqrt (2 * Z.of_nat n * Z.of_nat n))
                   (seq 0 1001) = true) by (vm_compute; reflexivity).
  rewrite forallb_forall in Hall.
  specialize (Hall (Z.to_nat d)). rewrite Z2Nat.id in Hall by lia.
  apply Z.eqb_eq, Hall, in_seq. lia.
Qed.

(** C10 (confirmed).  Inactivity of a stream action is permanent: [update]
    on an inactive action returns at once with the action and the world as
    they were, and whatever is called afterwards ([update], [set_suspended],
    with the stream and the entity changing in between) the calls return
    and [is_active] stays false.  The flag is true when the constructor
    returns. *)
Theorem inactivity_is_permanent
    (test : Streams.MapEntity -> Layer -> Rectangle -> bool)
    (overlaps : Streams.Stream -> Rectangle -> bool)
    (ground_point : Streams.MapEntity -> Rectangle)
    (a : Streams.StreamAction) (w : Streams.World) :
  Streams.is_active a = false ->
  (forall now, Streams.update test overlaps ground_point now a w = Some (a, w))
  /\ (forall calls, exists a' w',
        Streams.run_calls test overlaps ground_point calls (a, w) = Some (a', w')
        /\ Streams.is_active a' = false)
  /\ (forall d2xy now s e, Streams.is_active (Streams.create d2xy now s e) = true).
Proof.
  intros Ha. split; [|split].
  - intros now. apply update_inactive, Ha.
  - intros calls. apply run_calls_inactive, Ha.
  - intros d2xy now s e. unfold Streams.create.
    destruct (_ =? _); [destruct (negb _)|]; reflexivity.
Qed.

Lemma inactivity_is_permanent_witness :
  let a := Streams.set_active false
             (Streams.create direction_to_xy_move_table 0
                StreamScenario.blocking_stream StreamScenario.entity_on_stream) in
  let w := StreamScenario.start_world StreamScenario.blocking_stream in
  Streams.is_active a = false
  /\ Streams.update StreamScenario.no_obstacle StreamScenario.on_stream
       StreamScenario.ground_point 5000 a w = Some (a, w).
Proof.
  intros a w. split; [reflexivity|].
  exact (proj1 (inactivity_is_permanent StreamScenario.no_obstacle
                  StreamScenario.on_stream StreamScenario.ground_point a w
                  eq_refl) 5000).
Defined.

(** The scenario of the blocking stream: the main loop updates the action
    every 10 ms for 3 seconds. *)
Lemma blocking_stream_scenario :
  exists a1 w1,
    Streams.run_calls StreamScenario.wall_after_8px StreamScenario.on_stream
      StreamScenario.ground_point StreamScenario.ticks
      (Streams.create direction_to_xy_move_table 0
         StreamScenario.blocking_stream StreamScenario.entity_on_stream,
       StreamScenario.start_world StreamScenario.blocking_stream)
    = Some (a1, w1)
    /\ Streams.is_active a1 = false
    /\ Streams.get_x (Streams.w_entity w1)
       = Streams.get_x StreamScenario.entity_on_stream + 8
    /\ Streams.get_y (Streams.w_entity w1)
       = Streams.get_y StreamScenario.entity_on_stream.
Proof.
  eexists _, _. split; [vm_compute; reflexivity|].
  vm_compute. repeat split.
Qed.

(** C6 (confirmed).  One turn of the step loop of [update].  If the query
    on the translated box finds an obstacle, the entity is where it was,
    the loop is left, and the action of a stream that does not allow
    movement is inactive (otherwise its flag is as before).  If the box is
    free, the entity has moved by [(dx, dy)], the move and the
    position-changed notification are logged after the query, and an active
    action becomes inactive exactly when each axis is finished: no step on
    it, or the position at or past the target in the direction of the step.
    In the scenario (a stream to the east that does not allow movement, an
    obstacle after 8 of the 16 pixels) the action ends inactive with the
    entity 8 pixels from its start. *)
Theorem stream_step_semantics
    (test : Streams.MapEntity -> Layer -> Rectangle -> bool)
    (a : Streams.StreamAction) (w : Streams.World) :
  let e := Streams.w_entity w in
  let box := add_xy (Streams.bounding_box e) (Streams.dx a, Streams.dy a) in
  let r := Streams.update_step test a w in
  let a' := fst (fst r) in
  let w' := snd (fst r) in
  let e' := Streams.w_entity w' in
  (test e (Streams.layer e) box = true ->
     e' = e /\ snd r = false
     /\ (Streams.allow_movement (Streams.w_stream w) = false ->
         Streams.is_active a' = false)
     /\ (Streams.allow_movement (Streams.w_stream w) = true ->
         Streams.is_active a' = Streams.is_active a))
  /\ (test e (Streams.layer e) box = false ->
      Streams.get_x e' = Streams.get_x e + Streams.dx a
      /\ Streams.get_y e' = Streams.get_y e + Streams.dy a
      /\ Streams.w_trace w' =
           Streams.w_trace w ++ [EvCollisionTest (Streams.layer e) box false;
                                 EvMove (Streams.layer e) box; EvPositionChanged]
      /\ snd r = true
      /\ (Streams.is_active a = true ->
          (Streams.is_active a' = false <->
           (Streams.dx a = 0
            \/ (0 < Streams.dx a /\ Streams.target_x a <= Streams.get_x e')
            \/ (Streams.dx a < 0 /\ Streams.get_x e' <= Streams.target_x a))
           /\ (Streams.dy a = 0
               \/ (0 < Streams.dy a /\ Streams.target_y a <= Streams.get_y e')
               \/ (Streams.dy a < 0 /\ Streams.get_y e' <= Streams.target_y a)))))
  /\ (exists a1 w1,
        Streams.run_calls StreamScenario.wall_after_8px StreamScenario.on_stream
          StreamScenario.ground_point StreamScenario.ticks
          (Streams.create direction_to_xy_move_table 0
             StreamScenario.blocking_stream StreamScenario.entity_on_stream,
           StreamScenario.start_world StreamScenario.blocking_stream)
        = Some (a1, w1)
        /\ Streams.is_active a1 = false
        /\ Streams.get_x (Streams.w_entity w1)
           = Streams.get_x StreamScenario.entity_on_stream + 8
        /\ Streams.get_y (Streams.w_entity w1)
           = Streams.get_y StreamScenario.entity_on_stream).
Proof.
  intros e box r a' w' e'. split; [|split].
  - intros Hq. subst a' w' e' r.
    rewrite (update_step_obstructed test a w Hq). cbn [fst snd].
    split; [reflexivity|]. split; [reflexivity|].
    split; intros ->; reflexivity.
  - intros Hq. subst a' w' e' r.
    rewrite (update_step_free test a w Hq). cbn [fst snd Streams.w_entity Streams.w_trace].
    fold e. rewrite get_x_set_xy, get_y_set_xy.
    split; [reflexivity|]. split; [reflexivity|]. split; [reflexivity|].
    split; [reflexivity|].
    intros Hact. unfold Streams.is_active in *.
    set (e1 := Streams.set_xy _ _ e).
    assert (Hx : Streams.get_x e1 = Streams.get_x e + Streams.dx a)
      by apply get_x_set_xy.
    assert (Hy : Streams.get_y e1 = Streams.get_y e + Streams.dy a)
      by apply get_y_set_xy.
    destruct (Streams.has_reached_target a e1) eqn:Hr; simpl;
      unfold Streams.has_reached_target in Hr; rewrite Hx, Hy in Hr.
    + split; [intros _|reflexivity].
      apply andb_prop in Hr. destruct Hr as [H1 H2].
      rewrite !orb_true_iff, !andb_true_iff in H1, H2. lia.
    + rewrite Hact. split; [discriminate|]. intros [H1 H2]. exfalso.
      apply andb_false_iff in Hr.
      rewrite !orb_false_iff, !andb_false_iff in Hr. lia.
  - exact blocking_stream_scenario.
Qed.

Lemma stream_step_semantics_witness :
  let a := Streams.create direction_to_xy_move_table 0
             StreamScenario.blocking_stream StreamScenario.entity_on_stream in
  let w := StreamScenario.start_world StreamScenario.blocking_stream in
  Streams.get_x
    (Streams.w_entity (snd (fst (Streams.update_step StreamScenario.no_obstacle a w))))
  = 101.
Proof.
  exact (proj1 (proj1 (proj2 (stream_step_semantics StreamScenario.no_obstacle
           (Streams.create direction_to_xy_move_table 0
              StreamScenario.blocking_stream StreamScenario.entity_on_stream)
           (StreamScenario.start_world StreamScenario.blocking_stream)))
         eq_refl)).
Defined.

(** C4 (corrected).  The delay of a stream of speed [S >= 1] is the integer
    quotient [1000 / S] when the direction is even, and the integer part of
    [(1000 / S) * sqrt 2] (the integer square root of twice the square)
    when it is odd: both conversions truncate, neither rounds.  No call
    changes the delay afterwards. *)
Theorem stream_delay_law (d2xy : Z -> Z * Z) (now : Z)
    (s : Streams.Stream) (e : Streams.MapEntity) :
  1 <= Streams.speed s ->
  let a := Streams.create d2xy now s e in
  let q := 1000 / Streams.speed s in
  (Z.even (Streams.direction s) = true -> Streams.delay a = q)
  /\ (Z.odd (Streams.direction s) = true -> Streams.delay a = Z.sqrt (2 * q * q))
  /\ (forall test overlaps ground_point call a0 w a' w',
        Streams.run_call test overlaps ground_point call (a0, w) = Some (a', w') ->
        Streams.delay a' = Streams.delay a0).
Proof.
  intros HS a q.
  assert (Hq : 0 <= q <= 1000).
  { subst q. split; [apply Z.div_pos; lia|].
    apply Z.div_le_upper_bound; lia. }
  assert (Hquot : uint32 (Z.quot 1000 (Streams.speed s)) = q).
  { rewrite Z.quot_div_nonneg by lia. apply uint32_small. lia. }
  assert (Hpar : (Z.rem (Streams.direction s) 2 =? 0) = Z.even (Streams.direction s)).
  { destruct (Z.eqb_spec (Z.rem (Streams.direction s) 2) 0) as [E|E].
    - symmetry. apply Z.even_spec. exists (Z.quot (Streams.direction s) 2).
      pose proof (Z.quot_rem' (Streams.direction s) 2). lia.
    - symmetry. apply not_true_is_false. intros Hev. apply E.
      apply Z.even_spec in Hev. destruct Hev as [k ->].
      rewrite Z.mul_comm. apply Z.rem_mul. lia. }
  split; [|split].
  - intros Hev. subst a. unfold Streams.create. rewrite Hpar, Hev, Hquot.
    destruct (negb _); reflexivity.
  - intros Hodd. subst a. unfold Streams.create. rewrite Hpar.
    rewrite <- Z.negb_odd, Hodd. cbn [negb]. rewrite Hquot. cbn [Streams.delay].
    apply times_sqrt2_exact. exact Hq.
  - intros test overlaps ground_point call a0 w a' w' H.
    eapply run_call_delay; exact H.
Qed.

Lemma stream_delay_law_witness :
  1 <= Streams.speed StreamScenario.diagonal_stream
  /\ Streams.delay (Streams.create direction_to_xy_move_table 0
                      StreamScenario.diagonal_stream StreamScenario.entity_on_stream)
     = 21.
Proof.
  split; [vm_compute; discriminate|].
  exact (proj1 (proj2 (stream_delay_law direction_to_xy_move_table 0
           StreamScenario.diagonal_stream StreamScenario.entity_on_stream
           ltac:(vm_compute; discriminate))) eq_refl).
Defined.

(** C4, the claim as stated fails: a stream to the east of speed 6 gets a
    delay of 166 ms where the nearest integer to 1000/6 is 167, and a
    diagonal stream of speed 64 gets 21 ms where 1000/64 * sqrt 2 is above
    21.5 (its square, times 4 * 64^2, is 8 * 10^6). *)
Lemma stream_delay_not_rounded :
  Streams.delay (Streams.create direction_to_xy_move_table 0
                   StreamScenario.slow_stream StreamScenario.entity_on_stream) = 166
  /\ Streams.round_div 1000 (Streams.speed StreamScenario.slow_stream) = 167
  /\ Streams.delay (Streams.create direction_to_xy_move_table 0
                      StreamScenario.diagonal_stream StreamScenario.entity_on_stream) = 21
  /\ (2 * 21 + 1) ^ 2 * Streams.speed StreamScenario.diagonal_stream ^ 2
     < 4 * (2 * 1000 ^ 2).
Proof. repeat split. Qed.

(** ** The hero: progress of the state machine *)

Section HeroProgress.

Import Heroes.

Lemma addrs_app l l' : addrs (l ++ l') = addrs l ++ addrs l'.
Proof. apply omap_app. Qed.

Lemma addrs_snoc l p : addrs (l ++ [p]) ≡ₚ addrs (p :: l).
Proof.
  rewrite addrs_app. change (p :: l) with ([p] ++ l). rewrite addrs_app.
  apply Permutation_app_comm.
Qed.

Lemma well_formed_stays P h h' :
  stays h h' -> well_formed_with P h -> well_formed_with P h'.
Proof.
  intros (E1 & E2 & E3 & E4 & E5 & E6) [W1 W2 W3 W4 W5 W6 W7].
  constructor; rewrite ?E1, ?E2, ?E3, ?E4, ?E5; assumption.
Qed.

Lemma stays_refl h : stays h h.
Proof. repeat split. Qed.

Lemma stays_trans h1 h2 h3 : stays h1 h2 -> stays h2 h3 -> stays h1 h3.
Proof.
  intros (A1 & A2 & A3 & A4 & A5 & A6) (B1 & B2 & B3 & B4 & B5 & B6).
  repeat split; congruence.
Qed.

Lemma stays_advances h1 h2 h3 : stays h1 h2 -> advances h2 h3 -> advances h1 h3.
Proof.
  intros Hs (D & (l & O) & W).
  pose proof Hs as (A1 & A2 & A3 & A4 & A5 & A6).
  split; [congruence|]. split; [exists l; congruence|].
  intros P HP. destruct (W P (well_formed_stays _ _ _ Hs HP)) as (W' & l' & s & R & S).
  split; [exact W'|]. exists l', s. split; congruence.
Qed.

Lemma advances_stays h1 h2 h3 : advances h1 h2 -> stays h2 h3 -> advances h1 h3.
Proof.
  intros (D & (l & O) & W) Hs.
  pose proof Hs as (A1 & A2 & A3 & A4 & A5 & A6).
  split; [congruence|]. split; [exists l; congruence|].
  intros P HP. destruct (W P HP) as (W' & l' & s & R & S).
  split; [exact (well_formed_stays _ _ _ Hs W')|]. exists l', s. split; congruence.
Qed.

Lemma advances_trans h1 h2 h3 : advances h1 h2 -> advances h2 h3 -> advances h1 h3.
Proof.
  intros (D1 & (l1 & O1) & W1) (D2 & (l2 & O2) & W2).
  split; [congruence|].
  split; [exists (l1 ++ state h2 :: l2); rewrite O2, O1, <- app_assoc; reflexivity|].
  intros P HP. destruct (W1 P HP) as (HP2 & m1 & s1 & R1 & S1).
  destruct (W2 P HP2) as (HP3 & m2 & s2 & R2 & S2).
  split; [exact HP3|]. exists (m1 ++ [s1] ++ m2), s2. split; [|exact S2].
  rewrite R2, R1, <- !app_assoc. reflexivity.
Qed.

Lemma evolves_refl h : evolves h h.
Proof. left. apply stays_refl. Qed.

Lemma evolves_trans h1 h2 h3 : evolves h1 h2 -> evolves h2 h3 -> evolves h1 h3.
Proof.
  intros [A|A] [B|B].
  - left. eapply stays_trans; eassumption.
  - right. eapply stays_advances; eassumption.
  - right. eapply advances_stays; eassumption.
  - right. eapply advances_trans; eassumption.
Qed.

Lemma evolves_well_formed P h h' :
  evolves h h' -> well_formed_with P h -> well_formed_with P h'.
Proof.
  intros [Hs|(_ & _ & W)] HP; [exact (well_formed_stays _ _ _ Hs HP)|].
  apply W, HP.
Qed.

Lemma evolves_destroyed h h' : evolves h h' -> destroyed h' = destroyed h.
Proof. intros [(_ & _ & _ & _ & E & _)|(E & _)]; exact E. Qed.

Lemma evolves_old_states h h' :
  evolves h h' -> exists l, old_states h' = old_states h ++ l.
Proof.
  intros [(_ & E & _)|(_ & (l & E) & _)].
  - exists []. rewrite app_nil_r. exact E.
  - eauto.
Qed.

Lemma quietly_refl h : evolves_quietly h h.
Proof. split; [apply evolves_refl|reflexivity]. Qed.

Lemma quietly_trans h1 h2 h3 :
  evolves_quietly h1 h2 -> evolves_quietly h2 h3 -> evolves_quietly h1 h3.
Proof.
  intros [A1 A2] [B1 B2]. split; [eapply evolves_trans; eassumption|congruence].
Qed.

(** [new] on a well-formed hero: the object is pending. *)
Lemma operator_new_well_formed P c h :
  well_formed_with P h ->
  well_formed_with ({[next_addr h]} ∪ P) (snd (operator_new c h))
  /\ next_addr h ∉ P.
Proof.
  intros [W1 W2 W3 W4 W5 W6 W7].
  assert (Hfresh : forall a, a ∈ addrs (state h :: old_states h) \/ a ∈ P ->
                             (a < next_addr h)%nat).
  { intros a Ha. apply W4, W2, Ha. }
  split.
  - constructor; cbn [operator_new snd state old_states heap next_addr destroyed
                      with_next_addr with_heap].
    + exact W1.
    + intros a. rewrite elem_of_union, elem_of_singleton, W2, elem_of_union,
        elem_of_singleton. tauto.
    + intros a. rewrite elem_of_union, elem_of_singleton. intros [->|Ha].
      * intros Hin. specialize (Hfresh _ (or_introl Hin)). lia.
      * apply W3, Ha.
    + intros a. rewrite elem_of_union, elem_of_singleton. intros [->|Ha]; [lia|].
      specialize (W4 _ Ha). lia.
    + intros a Ha. rewrite elem_of_union, elem_of_singleton.
      destruct (decide (a = next_addr h)) as [->|Hne]; [tauto|].
      destruct (W5 a); [lia|tauto|tauto].
    + intros a Ha. destruct (W6 a Ha) as [Hlt Hnot]. split; [lia|].
      rewrite elem_of_union, elem_of_singleton. intros [->|?]; [lia|tauto].
    + exact W7.
  - intros Hin. specialize (Hfresh _ (or_intror Hin)). lia.
Qed.

(** The old state is retired and the pending one installed. *)
Lemma install_well_formed P s h :
  addr s ∉ P ->
  well_formed_with ({[addr s]} ∪ P) h ->
  well_formed_with P
    (with_state (Some s) (with_old_states (old_states h ++ [state h]) h)).
Proof.
  intros HsP [W1 W2 W3 W4 W5 W6 W7].
  assert (Hs : addr s ∉ addrs (state h :: old_states h)).
  { apply W3, elem_of_union_l, elem_of_singleton. reflexivity. }
  constructor; cbn [state old_states heap next_addr destroyed
                    with_state with_old_states].
  - change (addrs (Some s :: old_states h ++ [state h]))
      with (addr s :: addrs (old_states h ++ [state h])).
    rewrite addrs_snoc. apply NoDup_cons. split; assumption.
  - intros a. change (addrs (Some s :: old_states h ++ [state h]))
      with (addr s :: addrs (old_states h ++ [state h])).
    rewrite addrs_snoc, elem_of_cons, W2, elem_of_union, elem_of_singleton. tauto.
  - intros a Ha. change (addrs (Some s :: old_states h ++ [state h]))
      with (addr s :: addrs (old_states h ++ [state h])).
    rewrite addrs_snoc, elem_of_cons. intros [->|Hin]; [tauto|].
    revert Hin. apply W3, elem_of_union_r, Ha.
  - exact W4.
  - exact W5.
  - exact W6.
  - exact W7.
Qed.

End HeroProgress.

(** ** The operations over [set_new] *)

Ltac break_match H :=
  repeat match type of H with
         | context [match ?x with _ => _ end] =>
             destruct x eqn:?; try discriminate H
         end;
  repeat match goal with
         | E : context [match ?x with _ => _ end] |- _ =>
             destruct x eqn:?; try discriminate E
         end;
  simplify_eq.

Ltac physical :=
  let H := fresh in
  intros H; eapply quietly_trans; [exact H|];
  split; [left; repeat split|reflexivity].

Section OpenFacts.

Import Heroes.

Variable env : Collaborators.
Variable set_new : StateClass -> Hero -> option Hero.
Hypothesis set_new_advances : forall c h h',
  set_new c h = Some h' -> advances h h' /\ trace h' = trace h.

Lemma quietly_with_walking_speed h0 v h :
  evolves_quietly h0 h -> evolves_quietly h0 (with_walking_speed v h).
Proof. physical. Qed.
Lemma quietly_with_next_ground_date h0 v h :
  evolves_quietly h0 h -> evolves_quietly h0 (with_next_ground_date v h).
Proof. physical. Qed.
Lemma quietly_with_next_ice_date h0 v h :
  evolves_quietly h0 h -> evolves_quietly h0 (with_next_ice_date v h).
Proof. physical. Qed.
Lemma quietly_with_ice_movement_direction8 h0 v h :
  evolves_quietly h0 h -> evolves_quietly h0 (with_ice_movement_direction8 v h).
Proof. physical. Qed.
Lemma quietly_with_ground_dxy h0 v h :
  evolves_quietly h0 h -> evolves_quietly h0 (with_ground_dxy v h).
Proof. physical. Qed.
Lemma quietly_with_ground_below h0 v h :
  evolves_quietly h0 h -> evolves_quietly h0 (with_ground_below v h).
Proof. physical. Qed.
Lemma quietly_with_last_solid_ground_coords h0 v h :
  evolves_quietly h0 h -> evolves_quietly h0 (with_last_solid_ground_coords v h).
Proof. physical. Qed.
Lemma quietly_with_last_solid_ground_layer h0 v h :
  evolves_quietly h0 h -> evolves_quietly h0 (with_last_solid_ground_layer v h).
Proof. physical. Qed.
Lemma quietly_with_layer h0 v h :
  evolves_quietly h0 h -> evolves_quietly h0 (with_layer v h).
Proof. physical. Qed.
Lemma quietly_with_suspended h0 v h :
  evolves_quietly h0 h -> evolves_quietly h0 (with_suspended v h).
Proof. physical. Qed.
Lemma quietly_with_when_suspended h0 v h :
  evolves_quietly h0 h -> evolves_quietly h0 (with_when_suspended v h).
Proof. physical. Qed.

Lemma quietly_set_new c h h' h0 :
  set_new c h = Some h' -> evolves_quietly h0 h -> evolves_quietly h0 h'.
Proof.
  intros H Hacc. eapply quietly_trans; [exact Hacc|].
  destruct (set_new_advances _ _ _ H). split; [right|]; assumption.
Qed.

Create HintDb quiet discriminated.
#[local] Hint Resolve quietly_with_walking_speed quietly_with_next_ground_date
  quietly_with_next_ice_date quietly_with_ice_movement_direction8
  quietly_with_ground_dxy quietly_with_ground_below
  quietly_with_last_solid_ground_coords quietly_with_last_solid_ground_layer
  quietly_with_layer quietly_with_suspended quietly_with_when_suspended
  quietly_set_new : quiet.

Ltac quiet H := break_match H; eauto 12 with quiet.

Lemma quietly_run_requests n : forall cb k h h' h0,
  Open.run_requests set_new n cb k h = Some h' ->
  evolves_quietly h0 h -> evolves_quietly h0 h'.
Proof.
  induction n as [|n IH]; intros cb k h h' h0 H Hacc; simpl in H.
  - quiet H.
  - destruct (cb h k); [|injection H as <-; exact Hacc].
    destruct (set_new s h) eqn:E; [|discriminate].
    eapply IH; [exact H|]. eauto with quiet.
Qed.
#[local] Hint Resolve quietly_run_requests : quiet.

Lemma quietly_set_walking_speed v h h' h0 :
  Open.set_walking_speed v h = Some h' ->
  evolves_quietly h0 h -> evolves_quietly h0 h'.
Proof. intros H Hacc. unfold Open.set_walking_speed in H. quiet H. Qed.
#[local] Hint Resolve quietly_set_walking_speed : quiet.

Lemma quietly_start_deep_water h h' h0 :
  Open.start_deep_water env set_new h = Some h' ->
  evolves_quietly h0 h -> evolves_quietly h0 h'.
Proof. intros H Hacc. unfold Open.start_deep_water in H. quiet H. Qed.

Lemma quietly_start_hole now h h' h0 :
  Open.start_hole env set_new now h = Some h' ->
  evolves_quietly h0 h -> evolves_quietly h0 h'.
Proof. intros H Hacc. unfold Open.start_hole in H. cbv zeta in H. quiet H. Qed.

Lemma quietly_start_ice now h h' h0 :
  Open.start_ice env now h = Some h' ->
  evolves_quietly h0 h -> evolves_quietly h0 h'.
Proof. intros H Hacc. unfold Open.start_ice in H. cbv zeta in H. quiet H. Qed.

Lemma quietly_start_grass now h h' h0 :
  Open.start_grass now h = Some h' ->
  evolves_quietly h0 h -> evolves_quietly h0 h'.
Proof. intros H Hacc. unfold Open.start_grass in H. eauto with quiet. Qed.

#[local] Hint Resolve quietly_start_deep_water quietly_start_hole
  quietly_start_ice quietly_start_grass : quiet.

Lemma quietly_notify_ground_below_changed now h h' h0 :
  Open.notify_ground_below_changed env set_new now h = Some h' ->
  evolves_quietly h0 h -> evolves_quietly h0 h'.
Proof.
  intros H Hacc. unfold Open.notify_ground_below_changed in H.
  unfold Open.start_lava, Open.start_prickle in H.
  destruct (ground_below h); quiet H.
Qed.
#[local] Hint Resolve quietly_notify_ground_below_changed : quiet.

Lemma quietly_update_ground_below now h h' h0 :
  Open.update_ground_below env set_new now h = Some h' ->
  evolves_quietly h0 h -> evolves_quietly h0 h'.
Proof. intros H Hacc. unfold Open.update_ground_below in H. cbv zeta in H. quiet H. Qed.

Lemma quietly_check_collision_with_detectors fuel h h' h0 :
  Open.check_collision_with_detectors env set_new fuel h = Some h' ->
  evolves_quietly h0 h -> evolves_quietly h0 h'.
Proof. unfold Open.check_collision_with_detectors. eauto with quiet. Qed.

Lemma quietly_save_last_valid_position h h' h0 :
  Open.save_last_valid_position h = Some h' ->
  evolves_quietly h0 h -> evolves_quietly h0 h'.
Proof. intros H Hacc. unfold Open.save_last_valid_position in H. quiet H. Qed.

Lemma quietly_descend_layer h h' h0 :
  Open.descend_layer env h = Some h' ->
  evolves_quietly h0 h -> evolves_quietly h0 h'.
Proof. intros H Hacc. unfold Open.descend_layer in H. cbv zeta in H. quiet H. Qed.

#[local] Hint Resolve quietly_update_ground_below
  quietly_check_collision_with_detectors quietly_save_last_valid_position
  quietly_descend_layer : quiet.

Lemma quietly_check_position fuel now h h' h0 :
  Open.check_position env set_new fuel now h = Some h' ->
  evolves_quietly h0 h -> evolves_quietly h0 h'.
Proof. intros H Hacc. unfold Open.check_position in H. quiet H. Qed.

End OpenFacts.

(** ** [set_state] *)

Section SetStateFacts.

Import Heroes.

Variable env : Collaborators.

Lemma set_state_unfold fuel now s h :
  set_state env (S fuel) now s h =
  let hr := with_requested (requested h ++ [s]) h in
  match
    match state h with
    | Some old =>
        Open.run_requests (set_new env fuel now) fuel
          (fun h0 k => on_stop env h0 old s k) 0%nat hr
    | None => Some hr
    end
  with
  | None => None
  | Some h1 =>
      if match state h with
         | Some _ => negb (same_state (state h) (state h1))
         | None => false
         end
      then set_state env fuel now s h1
      else
        let h3 := with_state (Some s)
                    (with_old_states (old_states h1 ++ [state h]) h1) in
        match
          Open.run_requests (set_new env fuel now) fuel
            (fun h0 k => on_start env h0 s (state h) k) 0%nat h3
        with
        | None => None
        | Some h4 =>
            if same_state (state h4) (Some s)
            then Open.check_position env (set_new env fuel now) fuel now h4
            else Some h4
        end
  end.
Proof. reflexivity. Qed.

Lemma last_cons_app_cons {A} (x y : A) l1 l2 :
  last (x :: l1 ++ y :: l2) = last (y :: l2).
Proof.
  change (x :: l1 ++ y :: l2) with ((x :: l1) ++ y :: l2).
  generalize (x :: l1) as l. intros l. induction l as [|z l IH]; [reflexivity|].
  rewrite <- IH. destruct l; reflexivity.
Qed.

(** [set_state(new C)], once [set_state] is known to install its argument. *)
Lemma installs_new c h h' :
  installs (fst (operator_new c h)) (snd (operator_new c h)) h' ->
  advances h h' /\ trace h' = trace h.
Proof.
  intros (D & (l & O) & T & W). split; [|exact T].
  split; [exact D|]. split; [exists l; exact O|].
  intros P HP. destruct (operator_new_well_formed P c h HP) as [HP' Hn].
  destruct (W P Hn HP') as (HP'' & m & s' & R & L & S).
  split; [exact HP''|].
  apply last_Some in L. destruct L as [m' Em].
  exists m', s'. split; [|exact S].
  cbn [operator_new fst snd requested with_next_addr with_heap] in R.
  cbn [operator_new fst] in Em. rewrite R, Em. reflexivity.
Qed.

(** The retirement of the old state and what follows it. *)
Lemma install_then_evolve s h h1 h' :
  stays (with_requested (requested h ++ [s]) h) h1 ->
  trace h1 = trace h ->
  evolves_quietly
    (with_state (Some s) (with_old_states (old_states h1 ++ [state h]) h1)) h' ->
  installs s h h'.
Proof.
  intros Hs T1 [He T2].
  pose proof Hs as (S1 & S2 & S3 & S4 & S5 & S6).
  cbn [state old_states heap next_addr destroyed requested with_requested] in *.
  split; [rewrite (evolves_destroyed _ _ He); exact S5|].
  split.
  { destruct (evolves_old_states _ _ He) as [l O]. exists l.
    rewrite O. cbn [old_states with_state with_old_states].
    rewrite S2, <- app_assoc. reflexivity. }
  split; [rewrite T2; exact T1|].
  intros P HsP HP.
  assert (HP1 : well_formed_with ({[addr s]} ∪ P) h1).
  { apply (well_formed_stays _ _ _ Hs). destruct HP. constructor; assumption. }
  pose proof (install_well_formed P s h1 HsP HP1) as HP3. rewrite S1 in HP3.
  destruct He as [Hst|(_ & _ & W)].
  - split; [exact (well_formed_stays _ _ _ Hst HP3)|].
    destruct Hst as (E1 & _ & _ & _ & _ & E6).
    exists [], s. cbn [state requested with_state with_old_states] in E1, E6.
    rewrite E6, S6. auto.
  - destruct (W P HP3) as (HP' & m & s' & R & S). split; [exact HP'|].
    exists (m ++ [s']), s'. cbn [requested with_state with_old_states] in R.
    rewrite R, S6, <- !app_assoc. split; [reflexivity|]. split; [|exact S].
    change (s :: m ++ [s']) with ((s :: m) ++ [s']). apply last_snoc.
Qed.

Theorem set_state_installs fuel : forall now s h h',
  set_state env fuel now s h = Some h' -> installs s h h'.
Proof.
  induction fuel as [|fuel IH]; intros now s h h' H; [discriminate|].
  assert (Hnew : forall c h0 h0', set_new env fuel now c h0 = Some h0' ->
                   advances h0 h0' /\ trace h0' = trace h0).
  { intros c h0 h0' E. apply (installs_new c). exact (IH now _ _ _ E). }
  rewrite set_state_unfold in H. cbv zeta in H.
  set (hr := with_requested (requested h ++ [s]) h) in *.
  destruct (state h) as [old|] eqn:Eold.
  - destruct (Open.run_requests _ _ _ _ hr) as [h1|] eqn:E1; [|discriminate].
    pose proof (quietly_run_requests _ Hnew _ _ _ _ _ hr E1 (quietly_refl hr))
      as [Q1 T1].
    destruct (negb (same_state (Some old) (state h1))) eqn:Esame.
    + (* the state changed during stop(): the transition is forced *)
      apply IH in H. destruct H as (D & (l & O) & T & W).
      destruct Q1 as [Hst|(D1 & (l1 & O1) & W1)].
      { destruct Hst as (E & _). cbn in E. rewrite E, Eold in Esame.
        simpl in Esame. rewrite Nat.eqb_refl in Esame. discriminate. }
      split; [rewrite D, D1; reflexivity|].
      split.
      { exists (l1 ++ state h1 :: l). rewrite O, O1. cbn. rewrite Eold.
        rewrite <- app_assoc. reflexivity. }
      split; [rewrite T, T1; reflexivity|].
      intros P HsP HP.
      assert (HPr : well_formed_with ({[addr s]} ∪ P) hr).
      { destruct HP. constructor; assumption. }
      destruct (W1 _ HPr) as (HP1 & m1 & s1 & R1 & S1).
      destruct (W P HsP HP1) as (HP' & m & s' & R & L & S).
      split; [exact HP'|]. exists (m1 ++ s1 :: s :: m), s'.
      split; [|split; [|exact S]].
      * rewrite R, R1. cbn. rewrite <- !app_assoc. reflexivity.
      * rewrite <- L. rewrite last_cons_app_cons.
        change (s1 :: s :: m) with ([s1] ++ s :: m).
        apply (last_cons_app_cons s1 s [] m).
    + (* the normal case *)
      apply negb_false_iff in Esame.
      destruct (Open.run_requests _ _ _ _ (with_state _ _)) as [h4|] eqn:E4;
        [|discriminate].
      pose proof (quietly_run_requests _ Hnew _ _ _ _ _ _ E4 (quietly_refl _))
        as Q4.
      assert (Q5 : evolves_quietly
                     (with_state (Some s)
                        (with_old_states (old_states h1 ++ [Some old]) h1)) h').
      { destruct (same_state (state h4) (Some s)).
        - eapply quietly_check_position; eassumption.
        - injection H as <-. exact Q4. }
      destruct Q1 as [Hst|(D1 & (l1 & O1) & W1)].
      * rewrite <- Eold in Q5. apply (install_then_evolve s h h1 h' Hst T1 Q5).
      * (* the state object changed and came back: not on a well-formed hero *)
        destruct Q5 as [He T5].
        split; [rewrite (evolves_destroyed _ _ He); exact D1|].
        split.
        { destruct (evolves_old_states _ _ He) as [l O]. exists (l1 ++ Some old :: l).
          rewrite O. cbn. rewrite O1. cbn. rewrite Eold, <- !app_assoc. reflexivity. }
        split; [rewrite T5; exact T1|].
        intros P HsP HP. exfalso.
        assert (HPr : well_formed_with ({[addr s]} ∪ P) hr).
        { destruct HP. constructor; assumption. }
        destruct (W1 _ HPr) as (HP1 & m1 & s1 & R1 & S1).
        destruct HP1 as [N _ _ _ _ _ _]. rewrite S1, O1 in N.
        rewrite S1 in Esame. simpl in Esame. apply Nat.eqb_eq in Esame.
        cbn [state hr with_requested] in N. rewrite Eold in N.
        change (addrs (Some s1 :: old_states hr ++ Some old :: l1))
          with (addr s1 :: addrs (old_states hr ++ Some old :: l1)) in N.
        apply NoDup_cons in N. destruct N as [N _]. apply N.
        rewrite addrs_app. apply elem_of_app. right.
        change (addrs (Some old :: l1)) with (addr old :: addrs l1).
        rewrite Esame. apply elem_of_cons. left. reflexivity.
  - (* inside the constructor: no state yet *)
    cbv beta iota in H.
    destruct (Open.run_requests _ _ _ _ (with_state _ _)) as [h4|] eqn:E4;
      [|discriminate].
    pose proof (quietly_run_requests _ Hnew _ _ _ _ _ _ E4 (quietly_refl _)) as Q4.
    assert (Q5 : evolves_quietly
                   (with_state (Some s)
                      (with_old_states (old_states hr ++ [None]) hr)) h').
    { destruct (same_state (state h4) (Some s)).
      - eapply quietly_check_position; eassumption.
      - injection H as <-. exact Q4. }
    rewrite <- Eold in Q5.
    apply (install_then_evolve s h hr h' (stays_refl hr) eq_refl Q5).
Qed.

(** [set_state(new C)]. *)
Theorem set_new_advances fuel now c h h' :
  set_new env fuel now c h = Some h' -> advances h h' /\ trace h' = trace h.
Proof. intros H. apply (installs_new c). exact (set_state_installs fuel now _ _ _ H). Qed.

End SetStateFacts.

(** ** The operations of the hero *)

Section HeroFacts.

Import Heroes.

Variable env : Collaborators.

Lemma evolves_step h0 h h' :
  evolves_quietly h h' -> evolves h0 h -> evolves h0 h'.
Proof. intros [He _] Hacc. eapply evolves_trans; eassumption. Qed.

Lemma quietly_trace h h' : evolves_quietly h h' -> trace h' = trace h.
Proof. intros [_ T]. exact T. Qed.

Lemma set_new_quietly fuel now c h h' :
  set_new env fuel now c h = Some h' -> evolves_quietly h h'.
Proof.
  intros H. destruct (set_new_advances env fuel now c h h' H).
  split; [right|]; assumption.
Qed.

Lemma check_position_quietly fuel now h h' :
  check_position env fuel now h = Some h' -> evolves_quietly h h'.
Proof.
  intros H. eapply quietly_check_position; [|exact H|apply quietly_refl].
  apply set_new_advances.
Qed.

Lemma run_requests_quietly fuel now cb k h h' :
  run_requests env fuel now cb k h = Some h' -> evolves_quietly h h'.
Proof.
  intros H. eapply quietly_run_requests; [|exact H|apply quietly_refl].
  apply set_new_advances.
Qed.

Lemma set_walking_speed_quietly v h h' :
  Open.set_walking_speed v h = Some h' -> evolves_quietly h h'.
Proof.
  intros H. eapply (quietly_set_walking_speed v h h' h H). apply quietly_refl.
Qed.

Lemma update_ice_quietly now h h' :
  update_ice env now h = Some h' -> evolves_quietly h h'.
Proof.
  unfold update_ice, Open.update_ice. intros H.
  assert (Hacc := quietly_refl h). cbv zeta in H. break_match H;
    repeat first [assumption | apply quietly_with_next_ice_date
                 | apply quietly_with_ground_dxy].
Qed.

Lemma reevaluate_ice_quietly now h h' :
  reevaluate_ice env now h = Some h' -> evolves_quietly h h'.
Proof.
  unfold reevaluate_ice, Open.reevaluate_ice. intros H.
  destruct (Open.update_ice env now h) as [h1|] eqn:E; [|discriminate].
  apply (update_ice_quietly now h h1) in E.
  destruct (state h1); [|discriminate]. injection H as <-.
  apply quietly_with_ice_movement_direction8. exact E.
Qed.

(** [notify_position_changed] logs the notification and nothing else. *)
Lemma notify_position_changed_spec fuel now h h' :
  notify_position_changed env fuel now h = Some h' ->
  evolves h h' /\ trace h' = trace h ++ [EvPositionChanged].
Proof.
  unfold notify_position_changed, Open.notify_position_changed. intros H.
  destruct (Open.check_position _ _ _ _ _) as [h1|] eqn:E; [|discriminate].
  destruct (state h1); [|discriminate]. injection H as <-.
  apply (check_position_quietly fuel now) in E. destruct E as [He T].
  split; [|exact T].
  eapply evolves_trans; [|exact He]. left. repeat split.
Qed.

(** One attempt: an obstacle and nothing moves, or a free box and the hero
    is moved there and notified. *)
Lemma try_ground_move_spec fuel now d h r :
  Open.try_ground_move env (set_new env fuel now) fuel now d h = Some r ->
  let box := add_xy (bounding_box h) d in
  evolves h (fst r)
  /\ trace (fst r) =
       trace h ++
       (if snd r
        then [EvCollisionTest (layer h) box false; EvMove (layer h) box;
              EvPositionChanged]
        else [EvCollisionTest (layer h) box true])
  /\ test_collision_with_obstacles env h (layer h) box = negb (snd r)
  /\ (snd r = false -> ground_dxy (fst r) = ground_dxy h
                       /\ bounding_box (fst r) = bounding_box h
                       /\ layer (fst r) = layer h).
Proof.
  unfold Open.try_ground_move. cbv zeta.
  destruct (test_collision_with_obstacles env h (layer h) _) eqn:Hq; cbn [negb].
  - intros H. injection H as <-. cbn [fst snd].
    split; [left; repeat split|]. split; [reflexivity|]. auto.
  - intros H.
    destruct (Open.notify_position_changed _ _ _ _ _) as [h3|] eqn:E;
      [|discriminate].
    injection H as <-. cbn [fst snd].
    apply (notify_position_changed_spec fuel now) in E. destruct E as [He T].
    split; [eapply evolves_trans; [|exact He]; left; repeat split|].
    split; [|split; [reflexivity|discriminate]].
    rewrite T. unfold log. cbn [trace with_trace with_bounding_box layer].
    rewrite <- !app_assoc. reflexivity.
Qed.

(** The log of [apply_additional_ground_movement]: up to three queries, and
    a move only right after a query that found its box free. *)
Lemma apply_additional_ground_movement_spec fuel now h h' :
  apply_additional_ground_movement env fuel now h = Some h' ->
  evolves h h'
  /\ exists evs, trace h' = trace h ++ evs
       /\ moves_validated evs /\ no_obstructed_move evs.
Proof.
  unfold apply_additional_ground_movement, Open.apply_additional_ground_movement.
  destruct (_ && _).
  { intros H. injection H as <-. split; [apply evolves_refl|].
    exists []. rewrite app_nil_r. simpl. auto. }
  destruct (Open.try_ground_move _ _ _ _ _ h) as [r1|] eqn:E1; [|discriminate].
  apply try_ground_move_spec in E1. cbv zeta in E1.
  destruct E1 as (He1 & T1 & _ & K1).
  destruct (if negb (snd r1) && _ then _ else _) as [r2|] eqn:E2; [|discriminate].
  assert (H2 : evolves h (fst r2)
               /\ exists evs, trace (fst r2) = trace h ++ evs
                    /\ moves_validated evs /\ no_obstructed_move evs).
  { destruct r1 as [h1 []]; cbn [fst snd negb andb] in *.
    - injection E2 as <-. split; [exact He1|]. eexists. split; [exact T1|].
      simpl. auto.
    - destruct (negb _).
      + apply try_ground_move_spec in E2. cbv zeta in E2.
        destruct E2 as (He2 & T2 & _ & _).
        split; [eapply evolves_trans; eassumption|].
        eexists. split; [rewrite T2, T1, <- app_assoc; reflexivity|].
        destruct (snd r2); simpl; auto.
      + injection E2 as <-. split; [exact He1|]. eexists. split; [exact T1|].
        simpl. auto. }
  clear E2 T1 K1 He1. destruct H2 as (He2 & evs2 & T2 & V2 & N2).
  destruct (if negb (snd r2) && _ then _ else _) as [r3|] eqn:E3; [|discriminate].
  assert (H3 : evolves h (fst r3)
               /\ exists evs, trace (fst r3) = trace h ++ evs
                    /\ moves_validated evs /\ no_obstructed_move evs).
  { destruct (negb (snd r2) && _).
    - apply try_ground_move_spec in E3. cbv zeta in E3.
      destruct E3 as (He3 & T3 & _ & _).
      split; [eapply evolves_trans; eassumption|].
      eexists. split; [rewrite T3, T2, <- app_assoc; reflexivity|].
      destruct (snd r3).
      + split; [apply moves_validated_app; simpl; auto|].
        apply no_obstructed_move_app; simpl; auto.
      + split; [apply moves_validated_app; simpl; auto|].
        apply no_obstructed_move_app; simpl; auto.
    - injection E3 as <-. split; [exact He2|]. eauto. }
  clear E3 T2 V2 N2 He2. destruct H3 as (He3 & evs3 & T3 & V3 & N3).
  intros H.
  assert (Hq : evolves_quietly (fst r3) h').
  { destruct (negb (snd r3)); [|injection H as <-; apply quietly_refl].
    destruct (Ground_eqb _ _); [|injection H as <-; apply quietly_refl].
    destruct (Open.set_walking_speed _ _) as [h4|] eqn:E4; [|discriminate].
    eapply quietly_trans; [apply (set_walking_speed_quietly _ _ _ E4)|].
    apply (set_new_quietly _ _ _ _ _ H). }
  destruct Hq as [He T].
  split; [eapply evolves_trans; eassumption|].
  exists evs3. rewrite T. auto.
Qed.

End HeroFacts.

(** ** The retirement queue *)

Section FlushFacts.

Import Heroes.

Variable env : Collaborators.

(** The flush deletes what it is given when every object is alive and
    listed once: no deletion fails. *)
Lemma delete_all_spec l : forall h,
  NoDup (addrs l) -> (forall a, a ∈ addrs l -> a ∈ heap h) ->
  exists h', delete_all l h = Some h'
    /\ heap h' = heap h ∖ list_to_set (addrs l)
    /\ destroyed h' = destroyed h ++ addrs l
    /\ state h' = state h /\ next_addr h' = next_addr h
    /\ requested h' = requested h /\ old_states h' = old_states h
    /\ trace h' = trace h.
Proof.
  induction l as [|p l IH]; intros h N Hin.
  - exists h. simpl. rewrite app_nil_r. repeat split. set_solver.
  - destruct p as [s|].
    + change (addrs (Some s :: l)) with (addr s :: addrs l) in *.
      apply NoDup_cons in N. destruct N as [Ns N].
      simpl. destruct (decide (addr s ∈ heap h)) as [Hs|Hs];
        [|exfalso; apply Hs, Hin, elem_of_cons; left; reflexivity].
      set (h1 := with_destroyed _ _).
      destruct (IH h1 N) as (h' & E & Hh & Hd & H1 & H2 & H3 & H4 & H5).
      { intros a Ha. subst h1. cbn. apply elem_of_difference. split.
        - apply Hin, elem_of_cons. right. exact Ha.
        - rewrite elem_of_singleton. intros ->. contradiction. }
      exists h'. split; [exact E|]. subst h1. cbn in *.
      rewrite Hh, Hd, <- app_assoc. repeat split; try assumption. set_solver.
    + change (addrs (None :: l)) with (addrs l) in *. simpl. apply IH; assumption.
Qed.

(** After the flush of a well-formed hero only the active state is
    alive. *)
Lemma flush_well_formed h h' :
  well_formed h ->
  delete_all (old_states h) h = Some h' ->
  well_formed (with_old_states [] h')
  /\ (exists s, state h' = Some s /\ heap h' = {[addr s]})
  /\ destroyed h' = destroyed h ++ addrs (old_states h).
Proof.
  intros [[W1 W2 W3 W4 W5 W6 W7] [s Hs]] E.
  rewrite Hs in *. change (addrs (Some s :: old_states h))
    with (addr s :: addrs (old_states h)) in *.
  apply NoDup_cons in W1. destruct W1 as [Ns N].
  destruct (delete_all_spec (old_states h) h N) as (h2 & E2 & Hh & Hd & H1 & H2 & H3 & H4 & H5).
  { intros a Ha. apply W2. left. apply elem_of_cons. right. exact Ha. }
  rewrite E in E2. injection E2 as <-.
  assert (Hheap : heap h' = {[addr s]}).
  { rewrite Hh. apply set_eq. intros a.
    rewrite elem_of_difference, elem_of_list_to_set, elem_of_singleton, W2,
      elem_of_cons.
    split; [intros [[[?|?]|?] ?]; try tauto; set_solver|].
    intros ->. tauto. }
  split; [|split; [exists s; rewrite H1; auto|exact Hd]].
  split; [|cbn; rewrite H1; eauto].
  constructor; cbn [state old_states heap next_addr destroyed with_old_states];
    rewrite ?H1, ?H2, ?Hd, ?Hheap, ?Hs.
  - change (addrs [Some s]) with [addr s]. apply NoDup_singleton.
  - intros a. change (addrs [Some s]) with [addr s].
    rewrite elem_of_singleton, list_elem_of_singleton. set_solver.
  - set_solver.
  - intros a. rewrite elem_of_singleton. intros ->. apply W4, W2. left.
    apply elem_of_cons. left. reflexivity.
  - intros a Ha. rewrite elem_of_singleton, elem_of_app.
    destruct (W5 a Ha) as [Hin|Hin]; [|tauto].
    apply W2 in Hin. destruct Hin as [Hin|Hin]; [|set_solver].
    apply elem_of_cons in Hin. tauto.
  - intros a. rewrite elem_of_app, elem_of_singleton. intros [Ha|Ha].
    + destruct (W6 a Ha) as [Hlt Hnot]. split; [exact Hlt|]. intros ->.
      apply Hnot, W2. left. apply elem_of_cons. left. reflexivity.
    + split; [apply W4, W2; left; apply elem_of_cons; right; exact Ha|].
      intros ->. contradiction.
  - apply NoDup_app. split; [exact W7|]. split; [|exact N].
    intros a Ha Hin. destruct (W6 a Ha) as [_ Hnot]. apply Hnot, W2. left.
    apply elem_of_cons. right. exact Hin.
Qed.

Lemma evolves_well_formed_hero h h' :
  evolves h h' -> well_formed h -> well_formed h'.
Proof.
  intros He [W [s Hs]]. split; [exact (evolves_well_formed _ _ _ He W)|].
  destruct He as [(E & _)|(_ & _ & Wa)]; [rewrite E, Hs; eauto|].
  destruct (Wa _ W) as (_ & l & s' & _ & S). rewrite S. eauto.
Qed.

(** On a well-formed hero, either no [set_state] call was made and the
    state is the same, or the state is the argument of the last call. *)
Lemma evolves_last_requested h h' :
  evolves h h' -> well_formed h ->
  (state h' = state h /\ requested h' = requested h)
  \/ (exists l s, requested h' = requested h ++ l ++ [s] /\ state h' = Some s).
Proof.
  intros [(E1 & _ & _ & _ & _ & E6)|(_ & _ & W)] [HP _]; [left; auto|].
  right. destruct (W _ HP) as (_ & l & s & R & S). eauto.
Qed.

Lemma update_state_spec fuel now h :
  well_formed h ->
  forall h1 st, state h = Some st ->
    run_requests env fuel now (fun h0 k => on_update env h0 st k) 0%nat h = Some h1 ->
    exists h', update_state env fuel now h = Some h'
      /\ well_formed h' /\ old_states h' = []
      /\ (exists s, state h' = Some s /\ heap h' = {[addr s]})
      /\ (exists retired, old_states h1 = old_states h ++ retired
            /\ destroyed h' = destroyed h ++ addrs (old_states h ++ retired))
      /\ state h' = state h1 /\ requested h' = requested h1
      /\ evolves h h1.
Proof.
  intros Hwf h1 st Hst E1.
  pose proof (run_requests_quietly env _ _ _ _ _ _ E1) as [He _].
  pose proof (evolves_well_formed_hero _ _ He Hwf) as Hwf1.
  destruct Hwf1 as [W1 S1]. pose proof W1 as [N Hheap _ _ _ _ _].
  destruct (delete_all_spec (old_states h1) h1) as (h2 & E2 & Hh & Hd & H1 & H2 & H3 & H4 & H5).
  { destruct (state h1); [|exact N].
    change (addrs (Some s :: old_states h1)) with (addr s :: addrs (old_states h1)) in N.
    apply NoDup_cons in N. tauto. }
  { intros a Ha. apply Hheap. left. destruct (state h1); [|exact Ha].
    apply elem_of_cons. right. exact Ha. }
  exists (with_old_states [] h2).
  unfold update_state. rewrite Hst, E1, E2.
  split; [reflexivity|].
  destruct (flush_well_formed h1 h2 (conj W1 S1) E2) as (Wf & Hs & Hd').
  split; [exact Wf|]. split; [reflexivity|]. split; [exact Hs|].
  destruct (evolves_old_states _ _ He) as [l O].
  split; [exists l; split; [exact O|]|].
  { cbn. rewrite Hd', (evolves_destroyed _ _ He), O. reflexivity. }
  cbn. auto.
Qed.

End FlushFacts.

(** ** A tick of the hero *)

Section TickFacts.

Import Heroes.

Variable env : Collaborators.

Lemma update_ground_effects_evolves fuel now h h' :
  update_ground_effects env fuel now h = Some h' -> evolves h h'.
Proof.
  unfold update_ground_effects, Open.update_ground_effects. intros H.
  destruct (next_ground_date h <=? now); [|injection H as <-; apply evolves_refl].
  destruct (Open.is_ground_visible h) as [visible|]; [|discriminate].
  destruct (if visible then movement_speed h else None).
  { injection H as <-. left. repeat split. }
  destruct (ground_below h); try (injection H as <-; apply evolves_refl).
  - (* hole *)
    destruct (state h) as [st|]; [|discriminate].
    destruct (negb _); [|injection H as <-; apply evolves_refl].
    cbv zeta in H. destruct (8 <=? _).
    + destruct (Open.set_walking_speed _ _) as [h2|] eqn:E2; [|discriminate].
      apply set_walking_speed_quietly in E2.
      apply (set_new_quietly env) in H.
      eapply evolves_trans; [|apply H]. eapply evolves_trans; [|apply E2].
      left. repeat split.
    + apply (apply_additional_ground_movement_spec env) in H.
      eapply evolves_trans; [|apply H]. left. repeat split.
  - (* ice *)
    destruct (state h) as [st|]; [|discriminate].
    destruct (if negb _ then _ else _) as [h1|] eqn:E1; [|discriminate].
    assert (He1 : evolves h h1).
    { destruct (negb _); [|injection E1 as <-; apply evolves_refl].
      apply (apply_additional_ground_movement_spec env) in E1. apply E1. }
    cbv zeta in H.
    destruct (_ <=? now).
    + apply (reevaluate_ice_quietly env) in H.
      eapply evolves_trans; [exact He1|]. eapply evolves_trans; [|apply H].
      left. repeat split.
    + injection H as <-. eapply evolves_trans; [exact He1|]. left. repeat split.
Qed.

(** What a tick does to the state machine: the flush comes right after the
    update of the state, and what the ground effects and the detectors
    retire after it stays in the queue. *)
Lemma update_spec fuel now h h' :
  well_formed h -> update env fuel now h = Some h' ->
  exists h2,
    well_formed h2 /\ old_states h2 = []
    /\ (exists retired,
          destroyed h2 = destroyed h ++ addrs (old_states h ++ retired))
    /\ evolves h2 h'.
Proof.
  intros Hwf H. unfold update in H.
  destruct (update_movement env fuel now h) as [h1|] eqn:E1; [|discriminate].
  assert (He1 : evolves h h1).
  { unfold update_movement in E1. destruct (movement_speed h).
    - apply (run_requests_quietly env) in E1. apply E1.
    - injection E1 as <-. apply evolves_refl. }
  pose proof (evolves_well_formed_hero _ _ He1 Hwf) as Hwf1.
  destruct (update_state env fuel now h1) as [h2|] eqn:E2; [|discriminate].
  pose proof E2 as E2'. unfold update_state in E2'.
  destruct (state h1) as [st|] eqn:Hst; [|discriminate].
  destruct (run_requests env fuel now _ 0%nat h1) as [h1'|] eqn:Er; [|discriminate].
  destruct (update_state_spec env fuel now h1 Hwf1 h1' st Hst Er)
    as (h2' & E & Wf2 & O2 & _ & (ret & Oret & D2) & _ & _ & _).
  rewrite E2 in E. injection E as <-.
  exists h2. split; [exact Wf2|]. split; [exact O2|].
  split.
  { destruct (evolves_old_states _ _ He1) as [l O].
    exists (l ++ ret). rewrite D2, (evolves_destroyed _ _ He1), O, <- app_assoc.
    reflexivity. }
  destruct (negb (suspended h2)); [|injection H as <-; apply evolves_refl].
  destruct (update_ground_effects env fuel now h2) as [h3|] eqn:E3; [|discriminate].
  apply update_ground_effects_evolves in E3.
  unfold check_collision_with_detectors, Open.check_collision_with_detectors in H.
  apply (run_requests_quietly env) in H.
  eapply evolves_trans; [exact E3|apply H].
Qed.

End TickFacts.

Lemma hero_at_well_formed x y g c solid dxy ice :
  Heroes.well_formed (HeroScenario.hero_at x y g c solid dxy ice).
Proof.
  split; [|eexists; reflexivity].
  constructor; cbn; change (Heroes.addrs [Some (Heroes.mkState 0 c)]) with [0%nat].
  - apply NoDup_singleton.
  - intros a. rewrite elem_of_singleton, list_elem_of_singleton. set_solver.
  - set_solver.
  - intros a. rewrite elem_of_singleton. lia.
  - intros a Ha. left. apply elem_of_singleton. lia.
  - intros a Ha. apply elem_of_nil in Ha. contradiction.
  - apply NoDup_nil_2.
Qed.

(** The constructor leaves a well-formed hero. *)
Lemma create_well_formed env fuel now ice h :
  Heroes.create env fuel now ice = Some h -> Heroes.well_formed h.
Proof.
  intros H. unfold Heroes.create in H.
  destruct (set_new_advances env fuel now _ _ _ H) as [(_ & _ & W) _].
  destruct (W ∅) as (HP & _ & s & _ & S).
  - constructor; cbn.
    + apply NoDup_nil_2.
    + intros a. split; [intros Ha|intros [Ha|Ha]];
        exfalso; revert Ha; first [apply not_elem_of_empty | apply not_elem_of_nil].
    + intros a Ha. apply not_elem_of_nil.
    + intros a Ha. exfalso. revert Ha. apply not_elem_of_empty.
    + intros a Ha. lia.
    + intros a Ha. exfalso. revert Ha. apply not_elem_of_nil.
    + apply NoDup_nil_2.
  - split; [exact HP|]. rewrite S. eauto.
Qed.

Lemma same_state_refl p : Heroes.same_state p p = true.
Proof. destruct p; simpl; [apply Nat.eqb_refl|reflexivity]. Qed.

Lemma well_formed_with_requested P v h :
  Heroes.well_formed_with P h ->
  Heroes.well_formed_with P (Heroes.with_requested v h).
Proof. intros [H1 H2 H3 H4 H5 H6 H7]. constructor; assumption. Qed.

(** The forced re-issue of [set_state]: when the [stop] of the state held
    at the call left another state active, [set_state] is called again with
    the same argument on the hero that [stop] left. *)
Lemma forced_reissue env fuel now c h old h1 h' :
  Heroes.well_formed h ->
  Heroes.state h = Some old ->
  let s := fst (Heroes.operator_new c h) in
  Heroes.run_requests env fuel now
    (fun h0 k => Heroes.on_stop env h0 old s k) 0%nat
    (Heroes.with_requested (Heroes.requested h ++ [s])
       (snd (Heroes.operator_new c h))) = Some h1 ->
  Heroes.same_state (Some old) (Heroes.state h1) = false ->
  Heroes.set_new env (S fuel) now c h = Some h' ->
  Heroes.set_state env fuel now s h1 = Some h'
  /\ exists b r l l' s',
       Heroes.state h1 = Some b
       /\ Heroes.requested h1 = Heroes.requested h ++ s :: r ++ [b]
       /\ Heroes.requested h' = Heroes.requested h1 ++ s :: l
       /\ last (s :: l) = Some s' /\ Heroes.state h' = Some s'
       /\ Heroes.old_states h' = Heroes.old_states h1 ++ Some b :: l'
       /\ Heroes.addr s' <> Heroes.addr b.
Proof.
  intros [Hwf _] Hold s Hrun Hdiff H.
  unfold Heroes.set_new in H.
  rewrite set_state_unfold in H. cbv zeta in H.
  change (Heroes.state (snd (Heroes.operator_new c h))) with (Heroes.state h) in H.
  rewrite Hold in H.
  assert (Hrun' :
    Heroes.Open.run_requests (Heroes.set_new env fuel now) fuel
      (fun h0 k => Heroes.on_stop env h0 old (fst (Heroes.operator_new c h)) k) 0%nat
      (Heroes.with_requested
         (Heroes.requested (snd (Heroes.operator_new c h))
          ++ [fst (Heroes.operator_new c h)])
         (snd (Heroes.operator_new c h))) = Some h1) by exact Hrun.
  rewrite Hrun' in H. clear Hrun'.
  rewrite Hdiff in H. cbn [negb] in H. fold s in H.
  split; [exact H|].
  destruct (operator_new_well_formed ∅ c h Hwf) as [Hwf0 Hfresh].
  apply (well_formed_with_requested _ (Heroes.requested h ++ [s])) in Hwf0.
  pose proof (run_requests_quietly env fuel now _ _ _ _ Hrun) as [[Hst|Hadv] _].
  { destruct Hst as (Hs & _). cbn in Hs. rewrite Hs, Hold in Hdiff.
    rewrite same_state_refl in Hdiff. discriminate. }
  destruct Hadv as (_ & _ & Hw). destruct (Hw _ Hwf0) as (Hwf1 & r & b & Hreq & Hb).
  cbn [Heroes.requested Heroes.with_requested] in Hreq.
  destruct (set_state_installs env fuel now s h1 h' H) as (_ & (l' & Hold') & _ & Hi).
  destruct (Hi ∅ Hfresh Hwf1) as (Hwf' & l & s' & Hreq' & Hlast & Hs').
  exists b, r, l, l', s'.
  split; [exact Hb|]. split; [rewrite Hreq, <- app_assoc; reflexivity|].
  split; [exact Hreq'|]. split; [exact Hlast|]. split; [exact Hs'|].
  split; [rewrite Hold', Hb; reflexivity|].
  destruct Hwf' as [Hnd _ _ _ _ _ _].
  rewrite Hs', Hold', Hb in Hnd. cbn in Hnd.
  apply NoDup_cons in Hnd as [Hnot _].
  intros Heq. apply Hnot. rewrite Heq.
  change (omap Heroes.addr_of (Heroes.old_states h1 ++ Some b :: l'))
    with (Heroes.addrs (Heroes.old_states h1 ++ Some b :: l')).
  rewrite addrs_app. apply elem_of_app. right. cbn. apply elem_of_cons. left. reflexivity.
Qed.

(** What [stop] created ends in the retired states. *)
Lemma forced_reissue_retires env fuel now c h old h1 h' :
  Heroes.well_formed h ->
  Heroes.state h = Some old ->
  let s := fst (Heroes.operator_new c h) in
  Heroes.run_requests env fuel now
    (fun h0 k => Heroes.on_stop env h0 old s k) 0%nat
    (Heroes.with_requested (Heroes.requested h ++ [s])
       (snd (Heroes.operator_new c h))) = Some h1 ->
  Heroes.same_state (Some old) (Heroes.state h1) = false ->
  Heroes.set_new env (S fuel) now c h = Some h' ->
  Heroes.set_state env fuel now s h1 = Some h'
  /\ exists b r l l' s',
       Heroes.state h1 = Some b
       /\ Heroes.requested h1 = Heroes.requested h ++ s :: r ++ [b]
       /\ Heroes.requested h' = Heroes.requested h1 ++ s :: l
       /\ last (s :: l) = Some s' /\ Heroes.state h' = Some s'
       /\ Heroes.old_states h' = Heroes.old_states h1 ++ Some b :: l'
       /\ Heroes.addr s' <> Heroes.addr b
       /\ forall a, (Heroes.addr s < a < Heroes.next_addr h1)%nat ->
            a ∈ Heroes.addrs (Heroes.old_states h') /\ a <> Heroes.addr s'.
Proof.
  intros Hwfh Hold s Hrun Hdiff H.
  destruct (forced_reissue env fuel now c h old h1 h' Hwfh Hold Hrun Hdiff H)
    as (Hf & b & r & l & l' & s' & Hb & Hreq & Hreq' & Hlast & Hs' & Hold' & Hne).
  split; [exact Hf|]. exists b, r, l, l', s'.
  repeat (split; [assumption|]).
  destruct Hwfh as [Hwf _].
  destruct (operator_new_well_formed ∅ c h Hwf) as [Hwf0 Hfresh].
  apply (well_formed_with_requested _ (Heroes.requested h ++ [s])) in Hwf0.
  unfold Heroes.run_requests in Hrun.
  pose proof (run_requests_quietly env fuel now _ _ _ _ Hrun) as [Hev _].
  pose proof (evolves_well_formed _ _ _ Hev Hwf0) as Hwf1.
  pose proof (evolves_destroyed _ _ Hev) as Hd1.
  cbn [Heroes.destroyed Heroes.with_requested Heroes.operator_new snd
       Heroes.with_next_addr Heroes.with_heap] in Hd1.
  destruct (set_state_installs env fuel now s h1 h' Hf) as (_ & _ & _ & Hi).
  destruct (Hi ∅ Hfresh Hwf1) as (Hwf' & _).
  assert (Hin : forall a, (Heroes.addr s < a < Heroes.next_addr h1)%nat ->
                  a ∈ Heroes.addrs (Heroes.old_states h')).
  { intros a [Hlo Hhi]. change (Heroes.addr s) with (Heroes.next_addr h) in Hlo.
    destruct (Heroes.wf_no_leak _ _ Hwf1 a Hhi) as [Hheap|Hdes].
    - apply (Heroes.wf_heap _ _ Hwf1) in Hheap as [Hlive|Hpend].
      + rewrite Hold'. rewrite Hb in Hlive.
        change (Heroes.addrs (Some b :: Heroes.old_states h1))
          with (Heroes.addr b :: Heroes.addrs (Heroes.old_states h1)) in Hlive.
        rewrite addrs_app. apply elem_of_app.
        apply elem_of_cons in Hlive as [->|Hlive]; [right|left; exact Hlive].
        cbn. apply elem_of_cons. left. reflexivity.
      + apply elem_of_union in Hpend as [Hpend|Hpend].
        * apply elem_of_singleton in Hpend. lia.
        * exfalso. revert Hpend. apply not_elem_of_empty.
    - rewrite Hd1 in Hdes. apply (Heroes.wf_destroyed _ _ Hwf) in Hdes. lia. }
  intros a Ha. split; [exact (Hin a Ha)|].
  intros ->. pose proof (Heroes.wf_distinct _ _ Hwf') as Hnd.
  rewrite Hs' in Hnd.
  change (Heroes.addrs (Some s' :: Heroes.old_states h'))
    with (Heroes.addr s' :: Heroes.addrs (Heroes.old_states h')) in Hnd.
  apply NoDup_cons in Hnd as [Hnot _]. exact (Hnot (Hin _ Ha)).
Qed.




(** C2 (confirmed).  Every position change committed by the ground
    displacement helper of the hero and by the step loop of a stream action
    comes right after a collision query on the entity's layer and on the
    resulting bounding box that answered false, and no box whose query
    answered true is committed; this holds whatever the active state
    declares. *)
Theorem committed_moves_are_validated :
  (forall env fuel now h h',
     Heroes.apply_additional_ground_movement env fuel now h = Some h' ->
     exists evs, Heroes.trace h' = Heroes.trace h ++ evs
       /\ moves_validated evs /\ no_obstructed_move evs)
  /\ (forall env fuel now d h r,
        Heroes.try_ground_move env fuel now d h = Some r ->
        let box := add_xy (Heroes.bounding_box h) d in
        Heroes.test_collision_with_obstacles env h (Heroes.layer h) box
        = negb (snd r)
        /\ (snd r = false -> Heroes.bounding_box (fst r) = Heroes.bounding_box h))
  /\ (forall test overlaps ground_point now a w a' w',
        Streams.update test overlaps ground_point now a w = Some (a', w') ->
        exists evs, Streams.w_trace w' = Streams.w_trace w ++ evs
          /\ moves_validated evs /\ no_obstructed_move evs)
  /\ (forall test a w,
        let e := Streams.w_entity w in
        test e (Streams.layer e)
          (add_xy (Streams.bounding_box e) (Streams.dx a, Streams.dy a)) = true ->
        Streams.w_entity (snd (fst (Streams.update_step test a w))) = e).
Proof.
  split; [|split; [|split]].
  - intros env fuel now h h' H.
    apply (apply_additional_ground_movement_spec env fuel now h h' H).
  - intros env fuel now d h r H box.
    destruct (try_ground_move_spec env fuel now d h r H) as (_ & _ & Hq & K).
    split; [exact Hq|]. intros Hm. apply K, Hm.
  - intros test overlaps ground_point now a w a' w' H.
    apply (update_trace test overlaps ground_point now a w a' w' H).
  - intros test a w e Hq. rewrite (update_step_obstructed test a w Hq). reflexivity.
Qed.

Lemma committed_moves_are_validated_witness :
  exists h', Heroes.apply_additional_ground_movement
               (HeroScenario.quiet_env GROUND_HOLE) 5 1000
               HeroScenario.hero_3px_in_hole = Some h'
    /\ exists evs, Heroes.trace h' = Heroes.trace HeroScenario.hero_3px_in_hole ++ evs
         /\ moves_validated evs /\ no_obstructed_move evs.
Proof.
  eexists. split; [vm_compute; reflexivity|].
  refine (proj1 committed_moves_are_validated
            (HeroScenario.quiet_env GROUND_HOLE) 5%nat 1000
            HeroScenario.hero_3px_in_hole _ _).
  vm_compute. reflexivity.
Defined.

(** The two re-evaluations of a slide that starts from rest. *)
Lemma reevaluate_ice_from_rest env now h st :
  Heroes.state h = Some st ->
  Heroes.wanted_movement_direction8 (Heroes.kind st) <> -1 ->
  Heroes.ice_movement_direction8 h = -1 ->
  Heroes.reevaluate_ice env now h =
  Some (Heroes.with_ice_movement_direction8
          (Heroes.wanted_movement_direction8 (Heroes.kind st))
          (Heroes.with_ground_dxy
             (Heroes.direction_to_xy_move env
                (Z.rem (Heroes.wanted_movement_direction8 (Heroes.kind st) + 4) 8))
             h)).
Proof.
  intros Hst Hw Hi.
  unfold Heroes.reevaluate_ice, Heroes.Open.reevaluate_ice, Heroes.Open.update_ice.
  rewrite Hst, Hi.
  destruct (Z.eqb_spec (Heroes.wanted_movement_direction8 (Heroes.kind st)) (-1));
    [contradiction|].
  rewrite Z.eqb_refl. cbn [Heroes.state Heroes.with_ground_dxy].
  rewrite Hst. reflexivity.
Qed.

Lemma reevaluate_ice_same_direction env now h st :
  Heroes.state h = Some st ->
  Heroes.wanted_movement_direction8 (Heroes.kind st) <> -1 ->
  Heroes.ice_movement_direction8 h
  = Heroes.wanted_movement_direction8 (Heroes.kind st) ->
  Heroes.reevaluate_ice env now h =
  Some (Heroes.with_ice_movement_direction8
          (Heroes.wanted_movement_direction8 (Heroes.kind st))
          (Heroes.with_next_ice_date (uint32 (now + 300))
             (Heroes.with_ground_dxy
                (Heroes.direction_to_xy_move env
                   (Heroes.wanted_movement_direction8 (Heroes.kind st)))
                h))).
Proof.
  intros Hst Hw Hi.
  unfold Heroes.reevaluate_ice, Heroes.Open.reevaluate_ice, Heroes.Open.update_ice.
  rewrite Hst, Hi.
  destruct (Z.eqb_spec (Heroes.wanted_movement_direction8 (Heroes.kind st)) (-1));
    [contradiction|].
  rewrite Z.eqb_refl.
  cbn [negb Heroes.state Heroes.with_ground_dxy Heroes.with_next_ice_date].
  rewrite Hst. reflexivity.
Qed.

(** C3 (confirmed).  The re-evaluation of the slide on ice, by the wanted
    direction of the player and the last direction of the slide: both -1,
    the slide is (0,0) and the next re-evaluation is 1000 ms later; wanted
    -1 and a slide, the slide goes on for 300 ms; a wanted direction and no
    slide, the slide is opposite to the wanted direction; a wanted
    direction other than the slide, the slide goes on for 300 ms; the same
    direction, the slide goes on in it for 300 ms.  From rest with a
    constant direction [D], the first re-evaluation slides opposite to [D]
    and every later one slides along [D], the next one 300 ms later. *)
Theorem ice_slide_reevaluation (env : Heroes.Collaborators) (now : Z)
    (h : Heroes.Hero) (st : Heroes.State) :
  Heroes.state h = Some st ->
  let wanted := Heroes.wanted_movement_direction8 (Heroes.kind st) in
  let ice := Heroes.ice_movement_direction8 h in
  let xy := Heroes.direction_to_xy_move env in
  (exists h', Heroes.update_ice env now h = Some h'
     /\ (wanted = -1 -> ice = -1 ->
         Heroes.ground_dxy h' = (0, 0)
         /\ Heroes.next_ice_date h' = uint32 (now + 1000))
     /\ (wanted = -1 -> ice <> -1 ->
         Heroes.ground_dxy h' = xy ice
         /\ Heroes.next_ice_date h' = uint32 (now + 300))
     /\ (0 <= wanted -> ice = -1 ->
         Heroes.ground_dxy h' = xy ((wanted + 4) mod 8)
         /\ Heroes.next_ice_date h' = Heroes.next_ice_date h)
     /\ (wanted <> -1 -> ice <> -1 -> ice <> wanted ->
         Heroes.ground_dxy h' = xy ice
         /\ Heroes.next_ice_date h' = uint32 (now + 300))
     /\ (wanted <> -1 -> ice = wanted ->
         Heroes.ground_dxy h' = xy wanted
         /\ Heroes.next_ice_date h' = uint32 (now + 300)))
  /\ (0 <= wanted -> ice = -1 ->
      forall now2, exists h1 h2,
        Heroes.reevaluate_ice env now h = Some h1
        /\ Heroes.ground_dxy h1 = xy ((wanted + 4) mod 8)
        /\ Heroes.reevaluate_ice env now2 h1 = Some h2
        /\ Heroes.ground_dxy h2 = xy wanted
        /\ Heroes.next_ice_date h2 = uint32 (now2 + 300)
        /\ Heroes.ice_movement_direction8 h2 = wanted
        /\ Heroes.state h2 = Some st)
  /\ (wanted = -1 ->
      exists h0, Heroes.start_ice env now h = Some h0
        /\ Heroes.ice_movement_direction8 h0 = -1
        /\ Heroes.ground_dxy h0 = (0, 0)
        /\ Heroes.next_ice_date h0 = now /\ Heroes.next_ground_date h0 = now).
Proof.
  intros Hst wanted ice xy.
  assert (Hrem : 0 <= wanted -> Z.rem (wanted + 4) 8 = (wanted + 4) mod 8).
  { intros Hw. apply Z.rem_mod_nonneg; lia. }
  split; [|split].
  - unfold Heroes.update_ice, Heroes.Open.update_ice. rewrite Hst.
    fold wanted. fold ice. fold xy.
    destruct (Z.eqb_spec wanted (-1)) as [Hw|Hw];
      destruct (Z.eqb_spec ice (-1)) as [Hi|Hi].
    + eexists. split; [reflexivity|]. repeat split; intros; try lia; reflexivity.
    + eexists. split; [reflexivity|]. repeat split; intros; try lia; reflexivity.
    + eexists. split; [reflexivity|].
      repeat split; intros; try lia; try reflexivity.
      cbn. rewrite Hrem by assumption. reflexivity.
    + destruct (Z.eqb_spec ice wanted) as [He|He].
      * eexists. split; [reflexivity|].
        repeat split; intros; try lia; try reflexivity.
      * eexists. split; [reflexivity|].
        repeat split; intros; try lia; try reflexivity.
  - intros Hw Hi now2.
    assert (Hw' : wanted <> -1) by lia.
    eexists _, _.
    split; [apply (reevaluate_ice_from_rest env now h st Hst Hw' Hi)|].
    split; [cbn; fold wanted; rewrite Hrem by assumption; reflexivity|].
    split; [apply (reevaluate_ice_same_direction env now2 _ st);
            [exact Hst|exact Hw'|reflexivity]|].
    repeat split. exact Hst.
  - intros Hw. unfold Heroes.start_ice, Heroes.Open.start_ice. rewrite Hst.
    fold wanted. rewrite Hw. cbn. eexists. split; [reflexivity|]. repeat split.
Qed.

Lemma ice_slide_reevaluation_witness :
  exists h', Heroes.update_ice (HeroScenario.quiet_env GROUND_ICE) 1000
               (HeroScenario.hero_on_ice 2) = Some h'
    /\ Heroes.ground_dxy h' = (0, 1)
    /\ Heroes.next_ice_date h' = 0.
Proof.
  destruct (ice_slide_reevaluation (HeroScenario.quiet_env GROUND_ICE) 1000
              (HeroScenario.hero_on_ice 2) _ eq_refl)
    as ((h' & E & _ & _ & K & _) & _).
  exists h'. split; [exact E|]. apply K; [discriminate|reflexivity].
Defined.

(** The slide from rest through the pipeline, the player asking for the
    north: at the first evaluation the slide is to the south; 20 ms later
    the hero has moved one pixel south and the slide is to the north, to
    be re-evaluated 300 ms later. *)
Lemma ice_pipeline_from_rest :
  exists h1 h2,
    Heroes.update_ground_effects (HeroScenario.quiet_env GROUND_ICE) 5 1000
      (HeroScenario.hero_on_ice 2) = Some h1
    /\ Heroes.ground_dxy h1 = (0, 1) /\ Heroes.next_ground_date h1 = 1020
    /\ Heroes.update_ground_effects (HeroScenario.quiet_env GROUND_ICE) 5 1020 h1
       = Some h2
    /\ Heroes.get_xy h2 = (100, 101)
    /\ Heroes.ground_dxy h2 = (0, -1) /\ Heroes.next_ice_date h2 = 1320.
Proof.
  eexists _, _. split; [vm_compute; reflexivity|].
  split; [reflexivity|]. split; [reflexivity|].
  split; [vm_compute; reflexivity|]. repeat split.
Qed.

(** C8 (confirmed).  Before the date of the next ground evaluation the
    ground-effect pipeline changes nothing; so a second run in the same
    gated interval, after a run that re-armed the gate to a later date,
    changes nothing more. *)
Theorem ground_effects_gate (env : Heroes.Collaborators) (fuel : nat) (now : Z)
    (h : Heroes.Hero) :
  now < Heroes.next_ground_date h ->
  Heroes.update_ground_effects env fuel now h = Some h
  /\ (forall fuel0 now0 h0,
        Heroes.update_ground_effects env fuel0 now0 h0 = Some h ->
        Heroes.update_ground_effects env fuel now h = Some h).
Proof.
  intros Hgate.
  assert (E : Heroes.update_ground_effects env fuel now h = Some h).
  { unfold Heroes.update_ground_effects, Heroes.Open.update_ground_effects.
    destruct (Z.leb_spec (Heroes.next_ground_date h) now); [lia|reflexivity]. }
  split; [exact E|]. intros _ _ _ _. exact E.
Qed.

Lemma ground_effects_gate_witness :
  exists h1,
    Heroes.update_ground_effects (HeroScenario.quiet_env GROUND_HOLE) 5 1000
      HeroScenario.hero_3px_in_hole = Some h1
    /\ Heroes.next_ground_date h1 = 1060
    /\ Heroes.update_ground_effects (HeroScenario.quiet_env GROUND_HOLE) 5 1010 h1
       = Some h1.
Proof.
  eexists. split; [vm_compute; reflexivity|]. split; [reflexivity|].
  refine (proj1 (ground_effects_gate (HeroScenario.quiet_env GROUND_HOLE) 5 1010 _ _)).
  reflexivity.
Defined.

Lemma set_walking_speed_value v h st :
  Heroes.state h = Some st ->
  Heroes.set_walking_speed v h = Some (Heroes.with_walking_speed v h).
Proof.
  intros Hst. unfold Heroes.set_walking_speed, Heroes.Open.set_walking_speed.
  rewrite Hst. destruct (Z.eqb_spec v (Heroes.walking_speed h)) as [->|_];
    [|reflexivity].
  destruct h. reflexivity.
Qed.

(** C5 (corrected).  While the ground of the hero is a hole that its state
    does not avoid (so that no ground sprite is visible), each elapse of
    the gate re-arms it 60 ms later and then: if the distance to the last
    solid ground, in whole pixels, is at least 8, the walking speed is set
    to the normal one and [set_state] is called with a new falling state,
    which is requested next and is the active state unless a callback
    requests another one; otherwise the stored displacement is applied by
    [apply_additional_ground_movement], which moves the hero by it when the
    translated box is free. *)
Theorem hole_attraction (env : Heroes.Collaborators) (fuel : nat) (now : Z)
    (h : Heroes.Hero) (st : Heroes.State) :
  Heroes.state h = Some st ->
  Heroes.next_ground_date h <= now ->
  Heroes.ground_below h = GROUND_HOLE ->
  Heroes.can_avoid_hole (Heroes.kind st) = false ->
  let h1 := Heroes.with_next_ground_date (uint32 (now + 60)) h in
  let d := Heroes.get_distance h (fst (Heroes.last_solid_ground_coords h))
                                 (snd (Heroes.last_solid_ground_coords h)) in
  (8 <= d ->
     Heroes.update_ground_effects env fuel now h
     = Heroes.set_new env fuel now (Heroes.FallingState env)
         (Heroes.with_walking_speed (Heroes.normal_walking_speed h) h1)
     /\ forall h', Heroes.update_ground_effects env fuel now h = Some h' ->
          Heroes.well_formed h ->
          exists l s,
            Heroes.requested h'
            = Heroes.requested h
              ++ Heroes.mkState (Heroes.next_addr h) (Heroes.FallingState env) :: l
            /\ last (Heroes.mkState (Heroes.next_addr h) (Heroes.FallingState env) :: l)
               = Some s
            /\ Heroes.state h' = Some s
            /\ Heroes.trace h' = Heroes.trace h)
  /\ (d < 8 ->
      Heroes.update_ground_effects env fuel now h
      = Heroes.apply_additional_ground_movement env fuel now h1
      /\ (Heroes.ground_dxy h <> (0, 0) ->
          Heroes.test_collision_with_obstacles env h1 (Heroes.layer h)
            (add_xy (Heroes.bounding_box h) (Heroes.ground_dxy h)) = false ->
          forall h', Heroes.update_ground_effects env fuel now h = Some h' ->
            Heroes.trace h' =
            Heroes.trace h ++
            [EvCollisionTest (Heroes.layer h)
               (add_xy (Heroes.bounding_box h) (Heroes.ground_dxy h)) false;
             EvMove (Heroes.layer h)
               (add_xy (Heroes.bounding_box h) (Heroes.ground_dxy h));
             EvPositionChanged])).
Proof.
  intros Hst Hgate Hg Hav h1 d.
  assert (Hunfold : Heroes.update_ground_effects env fuel now h =
            if 8 <=? d
            then Heroes.set_new env fuel now (Heroes.FallingState env)
                   (Heroes.with_walking_speed (Heroes.normal_walking_speed h) h1)
            else Heroes.apply_additional_ground_movement env fuel now h1).
  { unfold Heroes.update_ground_effects, Heroes.Open.update_ground_effects.
    destruct (Z.leb_spec (Heroes.next_ground_date h) now); [|lia].
    unfold Heroes.Open.is_ground_visible. rewrite Hg, Hst, Hav.
    cbn [negb]. cbv zeta. fold h1.
    change (Heroes.get_distance h1 (fst (Heroes.last_solid_ground_coords h1))
              (snd (Heroes.last_solid_ground_coords h1))) with d.
    destruct (8 <=? d); [|reflexivity].
    change (Heroes.normal_walking_speed h1) with (Heroes.normal_walking_speed h).
    assert (Hs := set_walking_speed_value (Heroes.normal_walking_speed h) h1 st Hst).
    unfold Heroes.set_walking_speed in Hs. rewrite Hs. reflexivity. }
  split.
  - intros Hd. rewrite Hunfold. destruct (Z.leb_spec 8 d); [|lia].
    split; [reflexivity|].
    intros h' Hu [HP _]. unfold Heroes.set_new in Hu.
    apply (set_state_installs env fuel now) in Hu.
    destruct Hu as (_ & _ & T & W).
    destruct (W ∅) as (_ & l & s & R & L & S).
    { apply not_elem_of_empty. }
    { apply (operator_new_well_formed ∅ (Heroes.FallingState env)
               (Heroes.with_walking_speed (Heroes.normal_walking_speed h) h1)).
      destruct HP. constructor; assumption. }
    exists l, s. split; [exact R|]. split; [exact L|]. split; [exact S|exact T].
  - intros Hd. rewrite Hunfold. destruct (Z.leb_spec 8 d); [lia|].
    split; [reflexivity|].
    intros Hdxy Hfree h' Hu.
    unfold Heroes.apply_additional_ground_movement,
      Heroes.Open.apply_additional_ground_movement in Hu.
    change (Heroes.ground_dxy h1) with (Heroes.ground_dxy h) in Hu.
    destruct ((fst (Heroes.ground_dxy h) =? 0) && (snd (Heroes.ground_dxy h) =? 0))
      eqn:Hz.
    { exfalso. apply Hdxy. apply andb_prop in Hz. destruct Hz as [Hx Hy].
      apply Z.eqb_eq in Hx, Hy. destruct (Heroes.ground_dxy h). simpl in *.
      congruence. }
    destruct (Heroes.Open.try_ground_move _ _ _ _ _ h1) as [r1|] eqn:E1;
      [|discriminate].
    destruct (try_ground_move_spec env fuel now _ h1 r1 E1) as (_ & T1 & Q1 & _).
    change (Heroes.layer h1) with (Heroes.layer h) in *.
    change (Heroes.bounding_box h1) with (Heroes.bounding_box h) in *.
    change (Heroes.trace h1) with (Heroes.trace h) in *.
    rewrite Hfree in Q1. destruct (snd r1) eqn:Hm; [|discriminate].
    cbn [negb andb] in Hu. repeat (rewrite Hm in Hu; cbn [negb andb] in Hu).
    injection Hu as <-. exact T1.
Qed.

Lemma hole_attraction_witness :
  exists h', Heroes.update_ground_effects (HeroScenario.quiet_env GROUND_HOLE) 5
               1000 HeroScenario.hero_over_hole = Some h'
    /\ option_map (fun s => Heroes.name (Heroes.kind s)) (Heroes.state h')
       = Some "falling"%string
    /\ Heroes.walking_speed h' = 88 /\ Heroes.next_ground_date h' = 1060
    /\ Heroes.bounding_box h' = Heroes.bounding_box HeroScenario.hero_over_hole.
Proof.
  pose proof (proj1 (proj1 (hole_attraction (HeroScenario.quiet_env GROUND_HOLE)
                              5 1000 HeroScenario.hero_over_hole _ eq_refl
                              ltac:(vm_compute; discriminate) eq_refl eq_refl)
                       ltac:(vm_compute; discriminate))) as E.
  eexists. split; [rewrite E; vm_compute; reflexivity|]. repeat split.
Defined.

(** When every box is blocked, the three attempts of the helper fail and
    the hero over a hole falls where it stands. *)
Lemma blocked_pull_falls :
  exists h', Heroes.update_ground_effects (HeroScenario.walled_env GROUND_HOLE)
               5 1000 HeroScenario.hero_3px_in_hole = Some h'
    /\ option_map (fun s => Heroes.name (Heroes.kind s)) (Heroes.state h')
       = Some "falling"%string
    /\ Heroes.bounding_box h' = Heroes.bounding_box HeroScenario.hero_3px_in_hole
    /\ Heroes.trace h' =
         [EvCollisionTest LAYER_LOW (mkRect 93 87 16 16) true;
          EvCollisionTest LAYER_LOW (mkRect 93 87 16 16) true].
Proof.
  eexists. split; [vm_compute; reflexivity|]. repeat split.
Qed.

(** C5, the claim as stated fails: 8 pixels from the last solid ground is
    not farther than 8 pixels, and the hero falls at once, without a
    pull. *)
Lemma hole_fall_at_8px :
  Heroes.get_distance HeroScenario.hero_8px_in_hole 92 100 = 8
  /\ exists h', Heroes.update_ground_effects (HeroScenario.quiet_env GROUND_HOLE)
                  5 1000 HeroScenario.hero_8px_in_hole = Some h'
       /\ option_map (fun s => Heroes.name (Heroes.kind s)) (Heroes.state h')
          = Some "falling"%string
       /\ Heroes.bounding_box h' = Heroes.bounding_box HeroScenario.hero_8px_in_hole
       /\ Heroes.trace h' = [].
Proof.
  split; [reflexivity|]. eexists. split; [vm_compute; reflexivity|]. repeat split.
Qed.

Lemma is_bad_ground_false g :
  Heroes.is_bad_ground g = false <->
  g <> GROUND_DEEP_WATER /\ g <> GROUND_HOLE /\ g <> GROUND_LAVA
  /\ g <> GROUND_PRICKLE /\ g <> GROUND_EMPTY.
Proof.
  split.
  - intros H. repeat split; intros ->; discriminate.
  - intros (H1 & H2 & H3 & H4 & H5). destruct g; try reflexivity; congruence.
Qed.

(** The step of [check_position] that saves the last valid position. *)
Lemma save_last_valid_position_spec h st :
  Heroes.state h = Some st ->
  let saves :=
    Heroes.is_bad_ground (Heroes.ground_below h) = false
    /\ Heroes.can_come_from_bad_ground (Heroes.kind st) = true
    /\ (Heroes.get_x h <> fst (Heroes.last_solid_ground_coords h)
        \/ Heroes.get_y h <> snd (Heroes.last_solid_ground_coords h)) in
  exists h', Heroes.save_last_valid_position h = Some h'
    /\ (saves -> Heroes.last_solid_ground_coords h' = Heroes.get_xy h
                 /\ Heroes.last_solid_ground_layer h' = Heroes.layer h)
    /\ (~ saves -> h' = h)
    /\ Heroes.state h' = Some st
    /\ Heroes.ground_below h' = Heroes.ground_below h
    /\ Heroes.bounding_box h' = Heroes.bounding_box h
    /\ Heroes.layer h' = Heroes.layer h.
Proof.
  intros Hst saves. unfold Heroes.save_last_valid_position,
    Heroes.Open.save_last_valid_position. rewrite Hst.
  destruct (Heroes.is_bad_ground (Heroes.ground_below h)) eqn:Hb; cbn [negb].
  { exists h. split; [reflexivity|]. split; [intros (? & _); discriminate|].
    repeat split; auto. }
  destruct (Heroes.can_come_from_bad_ground (Heroes.kind st)) eqn:Hc; cbn [andb].
  2:{ exists h. split; [reflexivity|]. split; [intros (_ & ? & _); discriminate|].
      repeat split; auto. }
  destruct (Z.eqb_spec (Heroes.get_x h) (fst (Heroes.last_solid_ground_coords h)))
    as [Hx|Hx];
    destruct (Z.eqb_spec (Heroes.get_y h) (snd (Heroes.last_solid_ground_coords h)))
    as [Hy|Hy]; cbn [negb orb];
    try (eexists; split; [reflexivity|];
         split; [intros _; split; reflexivity|];
         split; [intros Hn; exfalso; apply Hn; subst saves; intuition congruence|];
         repeat split; assumption).
  exists h. split; [reflexivity|]. split; [intros (_ & _ & [?|?]); contradiction|].
  repeat split; auto.
Qed.

Lemma descend_layer_spec env h st :
  Heroes.state h = Some st ->
  exists h', Heroes.descend_layer env h = Some h'
    /\ Heroes.last_solid_ground_coords h' = Heroes.last_solid_ground_coords h
    /\ Heroes.last_solid_ground_layer h' = Heroes.last_solid_ground_layer h
    /\ Heroes.bounding_box h' = Heroes.bounding_box h
    /\ Heroes.ground_below h' = Heroes.ground_below h.
Proof.
  intros Hst. unfold Heroes.descend_layer, Heroes.Open.descend_layer.
  rewrite Hst. cbv zeta.
  repeat match goal with
         | |- context [if ?c then _ else _] => destruct c
         end; eexists; split; try reflexivity; repeat split.
Qed.

(** The re-sampling of the ground when no state is started: the ground is
    recorded and only the effects of the new ground are set up. *)
Lemma update_ground_below_no_transition env set_new now h st :
  Heroes.state h = Some st ->
  let g := Heroes.ground_at env (Heroes.layer h) (Heroes.get_x h) (Heroes.get_y h - 2) in
  g = Heroes.ground_below h \/ Heroes.starts_a_state g st h = false ->
  exists h',
    Heroes.Open.update_ground_below env set_new now h = Some h'
    /\ Heroes.ground_below h' = g
    /\ Heroes.state h' = Some st
    /\ Heroes.bounding_box h' = Heroes.bounding_box h
    /\ Heroes.layer h' = Heroes.layer h
    /\ Heroes.last_solid_ground_coords h' = Heroes.last_solid_ground_coords h
    /\ Heroes.last_solid_ground_layer h' = Heroes.last_solid_ground_layer h.
Proof.
  intros Hst g Hq. unfold Heroes.Open.update_ground_below. fold g.
  destruct (Ground_eqb g (Heroes.ground_below h)) eqn:Heq.
  { apply Ground_eqb_eq in Heq. exists h. repeat split; auto. }
  assert (Hno : Heroes.starts_a_state g st h = false).
  { destruct Hq as [Hq|Hq]; [|exact Hq].
    rewrite Hq in Heq. assert (Ground_eqb (Heroes.ground_below h) (Heroes.ground_below h) = true)
      by (apply Ground_eqb_eq; reflexivity). congruence. }
  clear Hq Heq.
  assert (Hset : forall v h0, Heroes.state h0 = Some st ->
            exists h1, Heroes.Open.set_walking_speed v h0 = Some h1
              /\ Heroes.ground_below h1 = Heroes.ground_below h0
              /\ Heroes.state h1 = Some st
              /\ Heroes.bounding_box h1 = Heroes.bounding_box h0
              /\ Heroes.layer h1 = Heroes.layer h0
              /\ Heroes.last_solid_ground_coords h1 = Heroes.last_solid_ground_coords h0
              /\ Heroes.last_solid_ground_layer h1 = Heroes.last_solid_ground_layer h0).
  { intros v h0 H0. unfold Heroes.Open.set_walking_speed.
    destruct (negb (v =? Heroes.walking_speed h0)).
    - rewrite H0. eexists. split; [reflexivity|]. repeat split; auto.
    - exists h0. repeat split; auto. }
  unfold Heroes.Open.notify_ground_below_changed.
  unfold Heroes.starts_a_state in Hno.
  assert (Hend : forall h1 : Heroes.Hero,
            Heroes.ground_below h1 = g -> Heroes.state h1 = Some st ->
            Heroes.bounding_box h1 = Heroes.bounding_box h ->
            Heroes.layer h1 = Heroes.layer h ->
            Heroes.last_solid_ground_coords h1 = Heroes.last_solid_ground_coords h ->
            Heroes.last_solid_ground_layer h1 = Heroes.last_solid_ground_layer h ->
            exists h', (match Heroes.state h1 with Some _ => Some h1 | None => None end)
                       = Some h'
              /\ Heroes.ground_below h' = g
              /\ Heroes.state h' = Some st
              /\ Heroes.bounding_box h' = Heroes.bounding_box h
              /\ Heroes.layer h' = Heroes.layer h
              /\ Heroes.last_solid_ground_coords h' = Heroes.last_solid_ground_coords h
              /\ Heroes.last_solid_ground_layer h' = Heroes.last_solid_ground_layer h).
  { intros h1 G S B L C CL. rewrite S. exists h1. repeat split; assumption. }
  assert (Hspeed : forall v h0,
            Heroes.ground_below h0 = g -> Heroes.state h0 = Some st ->
            Heroes.bounding_box h0 = Heroes.bounding_box h ->
            Heroes.layer h0 = Heroes.layer h ->
            Heroes.last_solid_ground_coords h0 = Heroes.last_solid_ground_coords h ->
            Heroes.last_solid_ground_layer h0 = Heroes.last_solid_ground_layer h ->
            exists h', (match Heroes.Open.set_walking_speed v h0 with
                        | Some h1 =>
                            match Heroes.state h1 with Some _ => Some h1 | None => None end
                        | None => None
                        end) = Some h'
              /\ Heroes.ground_below h' = g
              /\ Heroes.state h' = Some st
              /\ Heroes.bounding_box h' = Heroes.bounding_box h
              /\ Heroes.layer h' = Heroes.layer h
              /\ Heroes.last_solid_ground_coords h' = Heroes.last_solid_ground_coords h
              /\ Heroes.last_solid_ground_layer h' = Heroes.last_solid_ground_layer h).
  { intros v h0 G S B L C CL.
    destruct (Hset v h0 S) as (h1 & E & G1 & S1 & B1 & L1 & C1 & CL1).
    rewrite E. apply Hend; congruence. }
  clearbody g.
  cbn [Heroes.ground_below Heroes.with_ground_below].
  destruct g; cbn [Heroes.state Heroes.with_ground_below];
    try (eapply (Hend (Heroes.with_ground_below _ h)); reflexivity || exact Hst);
    try (apply Hspeed; reflexivity || exact Hst).
  - (* deep water *)
    rewrite Hst. apply negb_false_iff in Hno. rewrite Hno. cbn [negb].
    eapply (Hend (Heroes.with_ground_below _ h)); reflexivity || exact Hst.
  - (* hole *)
    rewrite Hst.
    destruct (Heroes.can_avoid_hole (Heroes.kind st)) eqn:Hav; cbn [negb andb] in *.
    { eapply (Hend (Heroes.with_ground_below _ h)); reflexivity || exact Hst. }
    apply orb_false_iff in Hno as [Hno Hsame].
    apply orb_false_iff in Hno as [Hctl Hm1].
    apply negb_false_iff in Hctl.
    unfold Heroes.Open.start_hole.
    cbn [Heroes.state Heroes.with_ground_below]. rewrite Hst, Hctl. cbn [negb].
    cbv zeta.
    cbn [Heroes.last_solid_ground_coords Heroes.with_next_ground_date
         Heroes.with_ground_below].
    change (Heroes.get_x (Heroes.with_next_ground_date now
              (Heroes.with_ground_below GROUND_HOLE h))) with (Heroes.get_x h).
    change (Heroes.get_y (Heroes.with_next_ground_date now
              (Heroes.with_ground_below GROUND_HOLE h))) with (Heroes.get_y h).
    rewrite Hm1, Hsame. cbn [orb].
    apply Hspeed; reflexivity || exact Hst.
  - (* ice *)
    rewrite Hst.
    destruct (Heroes.can_avoid_ice (Heroes.kind st)); cbn [negb].
    { eapply (Hend (Heroes.with_ground_below _ h)); reflexivity || exact Hst. }
    unfold Heroes.Open.start_ice. cbn [Heroes.state Heroes.with_ground_below].
    rewrite Hst. cbv zeta.
    destruct (_ =? -1); (eapply Hend; reflexivity || exact Hst).
  - (* prickle *)
    rewrite Hst. apply negb_false_iff in Hno. rewrite Hno. cbn [negb].
    eapply (Hend (Heroes.with_ground_below _ h)); reflexivity || exact Hst.
  - (* lava *)
    rewrite Hst. apply negb_false_iff in Hno. rewrite Hno. cbn [negb].
    eapply (Hend (Heroes.with_ground_below _ h)); reflexivity || exact Hst.
Qed.

(** C9 (corrected).  The position check and the last solid ground.  Take a
    check during which the detectors ask for no transition and the
    re-sampling of the ground starts no state (the ground is of the category
    already recorded, or a category on which [notify_ground_below_changed]
    calls no [set_state]: traversable, grass, shallow water, ladder, ice, a
    wall, empty, a bad ground that the state avoids, or a hole that first
    pulls the hero).  It saves the current coordinates and layer as the last
    solid ground if and only if the hero is on a map, its state does not
    ignore collisions, it is not suspended, the ground below, as the check
    has just re-sampled it, is none of deep water, hole, lava, prickle,
    empty, the state allows to come back from bad ground, and the
    coordinates differ from the stored ones; otherwise the memory is as it
    was.  In all cases the saving step of [check_position] follows this
    rule on the hero that reaches it. *)
Theorem solid_ground_memory (env : Heroes.Collaborators) (fuel : nat) (now : Z)
    (h : Heroes.Hero) (st : Heroes.State) :
  Heroes.state h = Some st ->
  let safe (g : Ground) :=
    g <> GROUND_DEEP_WATER /\ g <> GROUND_HOLE /\ g <> GROUND_LAVA
    /\ g <> GROUND_PRICKLE /\ g <> GROUND_EMPTY in
  let moved :=
    Heroes.get_x h <> fst (Heroes.last_solid_ground_coords h)
    \/ Heroes.get_y h <> snd (Heroes.last_solid_ground_coords h) in
  let allowed := Heroes.can_come_from_bad_ground (Heroes.kind st) = true in
  (exists h', Heroes.save_last_valid_position h = Some h'
     /\ (safe (Heroes.ground_below h) /\ allowed /\ moved ->
         Heroes.last_solid_ground_coords h' = Heroes.get_xy h
         /\ Heroes.last_solid_ground_layer h' = Heroes.layer h)
     /\ (~ (safe (Heroes.ground_below h) /\ allowed /\ moved) -> h' = h))
  /\ (let g := Heroes.ground_at env (Heroes.layer h) (Heroes.get_x h)
                 (Heroes.get_y h - 2) in
      Heroes.on_detectors env h 0%nat = None ->
      g = Heroes.ground_below h \/ Heroes.starts_a_state g st h = false ->
      let checked :=
        Heroes.on_map h = true
        /\ Heroes.are_collisions_ignored (Heroes.kind st) = false
        /\ Heroes.suspended h = false in
      let saves := checked /\ safe g /\ allowed /\ moved in
      exists h', Heroes.check_position env fuel now h = Some h'
        /\ (checked -> Heroes.ground_below h' = g)
        /\ (saves ->
            Heroes.last_solid_ground_coords h' = Heroes.get_xy h
            /\ Heroes.last_solid_ground_layer h' = Heroes.layer h)
        /\ (~ saves ->
            Heroes.last_solid_ground_coords h' = Heroes.last_solid_ground_coords h
            /\ Heroes.last_solid_ground_layer h' = Heroes.last_solid_ground_layer h)).
Proof.
  intros Hst safe moved allowed.
  assert (Hsafe : forall g, Heroes.is_bad_ground g = false <-> safe g)
    by apply is_bad_ground_false.
  split.
  - destruct (save_last_valid_position_spec h st Hst)
      as (h3 & E3 & Hyes & Hno & _).
    unfold safe, moved, allowed in *. clear safe moved allowed.
    exists h3. split; [exact E3|]. split.
    + intros (H1 & H2 & H3). apply Hyes.
      split; [apply Hsafe; exact H1|]. split; assumption.
    + intros Hn. apply Hno. intros (H1 & H2 & H3). apply Hn.
      split; [apply Hsafe; exact H1|]. split; assumption.
  - intros g Hdet Hquiet checked saves. subst checked saves.
    unfold Heroes.check_position, Heroes.Open.check_position.
    destruct (Heroes.on_map h) eqn:Hmap; cbn [negb].
    2:{ exists h. split; [reflexivity|].
        split; [intros (? & _); discriminate|].
        split; [intros ((? & _) & _); discriminate|]. auto. }
    rewrite Hst.
    destruct (Heroes.are_collisions_ignored (Heroes.kind st)) eqn:Hign.
    { exists h. split; [reflexivity|].
      split; [intros (_ & ? & _); discriminate|].
      split; [intros ((_ & ? & _) & _); discriminate|]. auto. }
    unfold Heroes.Open.check_collision_with_detectors.
    assert (Hrun : forall n, Heroes.Open.run_requests (Heroes.set_new env fuel now) n
                     (Heroes.on_detectors env) 0%nat h = Some h).
    { intros n. destruct n; simpl; rewrite Hdet; reflexivity. }
    rewrite Hrun.
    destruct (Heroes.suspended h) eqn:Hsus.
    { exists h. split; [reflexivity|].
      split; [intros (_ & _ & ?); discriminate|].
      split; [intros ((_ & _ & ?) & _); discriminate|]. auto. }
    destruct (update_ground_below_no_transition env (Heroes.set_new env fuel now)
                now h st Hst Hquiet) as (h2 & E2 & G2 & S2 & B2 & L2 & C2 & CL2).
    fold g in G2. rewrite E2.
    destruct (save_last_valid_position_spec h2 st S2)
      as (h3 & E3 & Hyes & Hno & S3 & G3 & B3 & L3).
    unfold Heroes.save_last_valid_position in E3. rewrite E3.
    destruct (descend_layer_spec env h3 st S3) as (h' & E & C & L & _ & G).
    unfold Heroes.descend_layer in E. exists h'. split; [exact E|].
    rewrite C, L.
    assert (Hx : Heroes.get_x h2 = Heroes.get_x h)
      by (unfold Heroes.get_x; rewrite B2; reflexivity).
    assert (Hy : Heroes.get_y h2 = Heroes.get_y h)
      by (unfold Heroes.get_y; rewrite B2; reflexivity).
    assert (Hxy : Heroes.get_xy h2 = Heroes.get_xy h)
      by (unfold Heroes.get_xy; rewrite Hx, Hy; reflexivity).
    rewrite G2, Hx, Hy, C2, Hxy, L2 in Hyes. rewrite G2, Hx, Hy, C2 in Hno.
    unfold safe, moved, allowed in *. clear safe moved allowed.
    split; [intros _; rewrite G, G3; exact G2|]. split.
    + intros (_ & H1 & H2 & H3). apply Hyes.
      split; [apply Hsafe; exact H1|]. split; assumption.
    + intros Hn.
      assert (Hsame : h3 = h2).
      { apply Hno. intros (H1 & H2 & H3). apply Hn.
        split; [repeat split; reflexivity|].
        split; [apply Hsafe; exact H1|]. split; assumption. }
      rewrite Hsame. auto.
Qed.

Lemma solid_ground_memory_witness :
  exists h', Heroes.check_position (HeroScenario.quiet_env GROUND_GRASS) 5 1000
               HeroScenario.hero_on_traversable = Some h'
    /\ Heroes.ground_below h' = GROUND_GRASS
    /\ Heroes.last_solid_ground_coords h' = (100, 100).
Proof.
  destruct (proj2 (solid_ground_memory (HeroScenario.quiet_env GROUND_GRASS)
                     5 1000 HeroScenario.hero_on_traversable _ eq_refl)
              eq_refl (or_intror eq_refl)) as (h' & E & Hg & Hyes & _).
  exists h'. split; [exact E|].
  split; [apply Hg; repeat split|].
  apply Hyes. repeat split; try discriminate. left. vm_compute. discriminate.
Defined.

(** C9, the claim as stated fails: the state of this hero does not ignore
    collisions, the hero is not suspended, stands on traversable ground, and
    is not where its last solid ground is; its state does not allow to come
    back from bad ground and the position check leaves the memory as it
    was. *)
Lemma position_check_keeps_memory :
  Heroes.get_xy HeroScenario.hero_stuck = (100, 100)
  /\ Heroes.suspended HeroScenario.hero_stuck = false
  /\ Heroes.ground_below HeroScenario.hero_stuck = GROUND_TRAVERSABLE
  /\ option_map (fun s => Heroes.are_collisions_ignored (Heroes.kind s))
       (Heroes.state HeroScenario.hero_stuck) = Some false
  /\ exists h', Heroes.check_position (HeroScenario.quiet_env GROUND_TRAVERSABLE)
                  5 1000 HeroScenario.hero_stuck = Some h'
       /\ Heroes.last_solid_ground_coords h' = (90, 100).
Proof.
  repeat split. eexists. split; [vm_compute; reflexivity|]. reflexivity.
Qed.

(** C7 (corrected).  Suspending at [t0] and resuming at [t1] adds
    [t1 - t0], modulo 2^32, to the date of the next ground evaluation of the
    hero, whatever [t0] is, and to the date of the next move of a stream
    action if [t0] is not 0. *)
Theorem resume_shifts_deadlines (t0 t1 : Z) :
  (forall h st, Heroes.state h = Some st ->
     exists h1 h2,
       Heroes.set_suspended t0 true h = Some h1
       /\ Heroes.set_suspended t1 false h1 = Some h2
       /\ Heroes.next_ground_date h2
          = uint32 (Heroes.next_ground_date h + (t1 - t0)))
  /\ (t0 <> 0 ->
      forall a,
        Streams.next_move_date
          (Streams.set_suspended t1 false (Streams.set_suspended t0 true a))
        = uint32 (Streams.next_move_date a + (t1 - t0))).
Proof.
  split.
  - intros h st Hst. unfold Heroes.set_suspended. cbn. rewrite Hst.
    eexists _, _. split; [reflexivity|]. cbn. rewrite Hst.
    split; [reflexivity|]. cbn. apply uint32_add_r.
  - intros Ht0 a. unfold Streams.set_suspended. cbn.
    destruct (Z.eqb_spec t0 0); [contradiction|]. cbn. apply uint32_add_r.
Qed.

Lemma resume_shifts_deadlines_witness :
  (exists h1 h2,
     Heroes.set_suspended 0 true (HeroScenario.hero_on_ice 2) = Some h1
     /\ Heroes.set_suspended 5000 false h1 = Some h2
     /\ Heroes.next_ground_date h2
        = uint32 (Heroes.next_ground_date (HeroScenario.hero_on_ice 2) + (5000 - 0)))
  /\ Streams.next_move_date
       (Streams.set_suspended 5000 false
          (Streams.set_suspended 1000 true
             (Streams.create direction_to_xy_move_table 0
                StreamScenario.blocking_stream StreamScenario.entity_on_stream)))
     = uint32 (250 + (5000 - 1000)).
Proof.
  split.
  - exact (proj1 (resume_shifts_deadlines 0 5000)
             (HeroScenario.hero_on_ice 2) _ eq_refl).
  - exact (proj2 (resume_shifts_deadlines 1000 5000) ltac:(discriminate)
             (Streams.create direction_to_xy_move_table 0
                StreamScenario.blocking_stream StreamScenario.entity_on_stream)).
Defined.

(** C7, the claim as stated fails: a stream action suspended at time 0 and
    resumed at time 500 keeps the date of its next move. *)
Lemma resume_after_suspension_at_0 :
  let a := Streams.create direction_to_xy_move_table 0
             StreamScenario.blocking_stream StreamScenario.entity_on_stream in
  Streams.next_move_date a = 250
  /\ Streams.next_move_date
       (Streams.set_suspended 500 false (Streams.set_suspended 0 true a)) = 250.
Proof. split; reflexivity. Qed.

(** The date of the next re-evaluation of the slide on ice is not shifted
    when the hero resumes. *)
Lemma resume_keeps_ice_date t0 t1 h h1 h2 :
  Heroes.set_suspended t0 true h = Some h1 ->
  Heroes.set_suspended t1 false h1 = Some h2 ->
  Heroes.next_ice_date h2 = Heroes.next_ice_date h.
Proof.
  unfold Heroes.set_suspended. cbn. intros E1 E2.
  destruct (Heroes.state h); [|discriminate]. injection E1 as <-.
  cbn in E2. destruct (Heroes.state h); [|discriminate]. injection E2 as <-.
  reflexivity.
Qed.

(** * More facts *)

(** ** Stream actions *)

Section StreamCourseFacts.

Import Streams StreamCourse.

Variable test_collision_with_obstacles : MapEntity -> Layer -> Rectangle -> bool.
Variable overlaps : Stream -> Rectangle -> bool.
Variable get_ground_point : MapEntity -> Rectangle.

Local Abbreviation update := (update test_collision_with_obstacles overlaps get_ground_point).
Local Abbreviation update_loop := (update_loop test_collision_with_obstacles).
Local Abbreviation update_step := (update_step test_collision_with_obstacles).
Local Abbreviation run_call :=
  (run_call test_collision_with_obstacles overlaps get_ground_point).
Local Abbreviation run_calls :=
  (run_calls test_collision_with_obstacles overlaps get_ground_point).

Lemma reached_iff_no_step_left a e r :
  steps_left a e r -> dx a <> 0 \/ dy a <> 0 ->
  (has_reached_target a e = true <-> r = 0).
Proof.
  intros (Hr & Hx & Hy) Hd. unfold has_reached_target. rewrite Hx, Hy.
  destruct (Z.eqb_spec (dx a) 0), (Z.eqb_spec (dy a) 0),
    (Z.ltb_spec 0 (dx a)), (Z.ltb_spec 0 (dy a)),
    (Z.ltb_spec (dx a) 0), (Z.ltb_spec (dy a) 0),
    (Z.leb_spec (target_x a) (target_x a - dx a * r)),
    (Z.leb_spec (target_y a) (target_y a - dy a * r)),
    (Z.leb_spec (target_x a - dx a * r) (target_x a)),
    (Z.leb_spec (target_y a - dy a * r) (target_y a));
    simpl; split; intros; try discriminate; try reflexivity; try nia.
Qed.

Lemma not_reached_step_left a e r :
  steps_left a e r -> has_reached_target a e = false -> 1 <= r.
Proof.
  intros (Hr & Hx & Hy). unfold has_reached_target. rewrite Hx, Hy.
  destruct (Z.eqb_spec (dx a) 0), (Z.eqb_spec (dy a) 0),
    (Z.ltb_spec 0 (dx a)), (Z.ltb_spec 0 (dy a)),
    (Z.ltb_spec (dx a) 0), (Z.ltb_spec (dy a) 0),
    (Z.leb_spec (target_x a) (target_x a - dx a * r)),
    (Z.leb_spec (target_y a) (target_y a - dy a * r)),
    (Z.leb_spec (target_x a - dx a * r) (target_x a)),
    (Z.leb_spec (target_y a - dy a * r) (target_y a));
    simpl; intros; try discriminate; try nia.
Qed.

Lemma update_step_course c r0 a w a' w' again :
  on_course c r0 a (w_entity w) -> active a = true ->
  update_step a w = (a', w', again) ->
  on_course c r0 a' (w_entity w').
Proof.
  intros (Hc & r & Hle & Hs & Hact) Ha H.
  specialize (Hact Ha).
  destruct (test_collision_with_obstacles (w_entity w) (layer (w_entity w))
              (add_xy (bounding_box (w_entity w)) (dx a, dy a))) eqn:Hq.
  - rewrite (update_step_obstructed _ a w Hq) in H. injection H as <- <- <-.
    split.
    + rewrite <- Hc. destruct (allow_movement (w_stream w)); reflexivity.
    + exists r. split; [exact Hle|]. split.
      * destruct (allow_movement (w_stream w)); exact Hs.
      * intros _. exact Hact.
  - rewrite (update_step_free _ a w Hq) in H. cbv zeta in H.
    injection H as <- <- <-. cbn [w_entity].
    set (e' := set_xy _ _ _).
    assert (Hs' : steps_left a e' (r - 1)).
    { destruct Hs as (Hr & Hx & Hy). unfold steps_left. subst e'.
      rewrite get_x_set_xy, get_y_set_xy, Hx, Hy. split; [lia|]. split; ring. }
    split.
    + rewrite <- Hc. destruct (has_reached_target a e'); reflexivity.
    + exists (r - 1). split; [lia|].
      destruct (has_reached_target a e') eqn:Hreach.
      * split; [exact Hs'|]. simpl. discriminate.
      * split; [exact Hs'|]. intros _.
        exact (not_reached_step_left _ _ _ Hs' Hreach).
Qed.

Lemma update_loop_course c r0 fuel now : forall a w a' w',
  on_course c r0 a (w_entity w) ->
  update_loop fuel now a w = Some (a', w') ->
  on_course c r0 a' (w_entity w').
Proof.
  induction fuel as [|fuel IH]; intros a w a' w' Hc H; simpl in H.
  - destruct (loop_condition now a); [discriminate|]. injection H as <- <-. exact Hc.
  - destruct (loop_condition now a) eqn:Hl.
    + destruct (update_step a w) as [[a1 w1] again] eqn:Hs.
      unfold loop_condition, is_active in Hl. apply andb_true_iff in Hl as [_ Ha].
      pose proof (update_step_course _ _ _ _ _ _ _ Hc Ha Hs) as Hc1.
      destruct again.
      * exact (IH _ _ _ _ Hc1 H).
      * injection H as <- <-. exact Hc1.
    + injection H as <- <-. exact Hc.
Qed.

Lemma on_course_inactive c r0 a a0 e :
  on_course c r0 a e -> course a0 = course a -> active a0 = false ->
  on_course c r0 a0 e.
Proof.
  intros (Hc & r & Hle & (Hr & Hx & Hy) & _) Hco Ha.
  unfold course in *. injection Hco as E1 E2 E3 E4.
  split; [unfold course; congruence|].
  exists r. split; [exact Hle|]. split.
  - unfold steps_left. rewrite E1, E2, E3, E4. auto.
  - rewrite Ha. discriminate.
Qed.

Lemma update_course c r0 now a w a' w' :
  on_course c r0 a (w_entity w) ->
  update now a w = Some (a', w') ->
  on_course c r0 a' (w_entity w').
Proof.
  intros Hc H. unfold Streams.update in H.
  repeat match type of H with
         | (if ?b then _ else _) = _ =>
             destruct b;
             [injection H as <- <-;
              first [exact Hc | apply (on_course_inactive _ _ a); [exact Hc|reflexivity..]]|]
         end.
  exact (update_loop_course _ _ _ _ _ _ _ _ Hc H).
Qed.

Lemma set_suspended_course c r0 now b a e :
  on_course c r0 a e -> on_course c r0 (set_suspended now b a) e.
Proof.
  intros (Hc & r & Hle & Hs & Ha).
  assert (E : course (set_suspended now b a) = course a).
  { unfold set_suspended. destruct b; [reflexivity|]. simpl.
    destruct (negb _); reflexivity. }
  split; [congruence|]. exists r. split; [exact Hle|].
  unfold course in E. injection E as E1 E2 E3 E4. split.
  - unfold steps_left in *. rewrite E1, E2, E3, E4. exact Hs.
  - rewrite set_suspended_active. exact Ha.
Qed.

Lemma run_calls_course c r0 calls : forall a w a' w',
  forallb by_the_action calls = true ->
  on_course c r0 a (w_entity w) ->
  run_calls calls (a, w) = Some (a', w') ->
  on_course c r0 a' (w_entity w').
Proof.
  induction calls as [|call calls IH]; intros a w a' w' Hb Hc H; simpl in H.
  - injection H as <- <-. exact Hc.
  - simpl in Hb. apply andb_true_iff in Hb as [Hb1 Hb2].
    destruct (run_call call (a, w)) as [[a1 w1]|] eqn:H1; [|discriminate].
    refine (IH _ _ _ _ Hb2 _ H). clear H.
    destruct call as [now|now b|s e]; simpl in H1.
    + exact (update_course _ _ _ _ _ _ _ Hc H1).
    + injection H1 as <- <-. apply set_suspended_course. exact Hc.
    + discriminate.
Qed.

(** With no obstacle and time enough, the loop makes every step left. *)
Lemma update_loop_completes fuel now : forall a w r a' w',
  (forall e l box, test_collision_with_obstacles e l box = false) ->
  steps_left a (w_entity w) r -> 1 <= r -> dx a <> 0 \/ dy a <> 0 ->
  active a = true ->
  0 <= delay a -> 0 <= next_move_date a ->
  next_move_date a + (r - 1) * delay a <= now ->
  next_move_date a + r * delay a < 2 ^ 32 ->
  update_loop fuel now a w = Some (a', w') ->
  active a' = false
  /\ get_x (w_entity w') = target_x a /\ get_y (w_entity w') = target_y a
  /\ next_move_date a' = next_move_date a + r * delay a.
Proof.
  induction fuel as [|fuel IH]; intros a w r a' w' Hfree Hs Hr Hd Ha Hdel Hn Hnow Hmax H;
    simpl in H.
  - unfold loop_condition, is_active in H. rewrite Ha in H.
    destruct (Z.leb_spec (next_move_date a) now); [discriminate|nia].
  - unfold loop_condition, is_active in H. rewrite Ha in H.
    destruct (Z.leb_spec (next_move_date a) now); [|nia]. cbn [andb] in H.
    rewrite (update_step_free _ a w (Hfree _ _ _)) in H. cbv zeta in H.
    set (e' := set_xy _ _ _) in H.
    assert (Hs' : steps_left a e' (r - 1)).
    { destruct Hs as (Hr0 & Hx & Hy). unfold steps_left. subst e'.
      rewrite get_x_set_xy, get_y_set_xy, Hx, Hy. split; [lia|]. split; ring. }
    pose proof (reached_iff_no_step_left _ _ _ Hs' Hd) as Hiff.
    assert (Hu : uint32 (next_move_date a + delay a) = next_move_date a + delay a).
    { apply uint32_small. nia. }
    destruct (has_reached_target a e') eqn:Hreach.
    + assert (r = 1) by (pose proof (proj1 Hiff eq_refl); lia). subst r.
      destruct fuel; simpl in H; unfold loop_condition, is_active in H;
        simpl in H; rewrite andb_false_r in H; injection H as <- <-; cbn [w_entity];
        destruct Hs' as (_ & Hx & Hy); simpl; rewrite Hu; repeat split; lia.
    + assert (2 <= r).
      { destruct (Z.eq_dec r 1) as [->|]; [|lia].
        pose proof (proj2 Hiff eq_refl). discriminate. }
      apply IH with (r := r - 1) in H; cbn [w_entity dx dy active delay next_move_date
        set_next_move_date target_x target_y] in *; try assumption; try lia;
        try (rewrite Hu; nia).
      destruct H as (? & ? & ? & ->). rewrite Hu. repeat split; try assumption. ring.
Qed.

End StreamCourseFacts.

(** The course of a created action: a unit step, and for a diagonal stream a
    target 16 steps from the entity. *)
Lemma create_course now s e :
  let a := Streams.create direction_to_xy_move_table now s e in
  0 <= Streams.direction s <= 7 ->
  (Streams.dx a <> 0 \/ Streams.dy a <> 0)
  /\ Streams.active a = true
  /\ (Z.odd (Streams.direction s) = true ->
      Z.abs (Streams.dx a) = 1 /\ Z.abs (Streams.dy a) = 1
      /\ StreamCourse.steps_left a e 16).
Proof.
  intros a Hd. subst a. unfold StreamCourse.steps_left.
  assert (Hc : Streams.direction s = 0 \/ Streams.direction s = 1
               \/ Streams.direction s = 2 \/ Streams.direction s = 3
               \/ Streams.direction s = 4 \/ Streams.direction s = 5
               \/ Streams.direction s = 6 \/ Streams.direction s = 7) by lia.
  unfold Streams.create.
  destruct Hc as [E|[E|[E|[E|[E|[E|[E|E]]]]]]]; rewrite E; simpl;
    (split; [lia|]); (split; [reflexivity|]); intros; try discriminate;
    repeat split; lia.
Qed.

(** X1.  A stream action never carries its entity past its target.  Take an
    action just created (directions 0 to 7) whose entity is [r0 >= 1] unit
    steps before the target on the line of the stream.  Whatever sequence of
    [update] and [set_suspended] calls follows, with any obstacles, the
    entity is still on that line, [r] steps before the target with
    [0 <= r <= r0]; [has_reached_target] holds exactly when [r = 0], and an
    action still active has at least one step to make. *)
Theorem stream_never_overshoots
    (test : Streams.MapEntity -> Layer -> Rectangle -> bool)
    (overlaps : Streams.Stream -> Rectangle -> bool)
    (ground_point : Streams.MapEntity -> Rectangle)
    (now : Z) (s : Streams.Stream) (e : Streams.MapEntity) (tr : list Event)
    (r0 : Z) (calls : list Streams.Call)
    (a' : Streams.StreamAction) (w' : Streams.World) :
  let a := Streams.create direction_to_xy_move_table now s e in
  0 <= Streams.direction s <= 7 ->
  1 <= r0 ->
  StreamCourse.steps_left a e r0 ->
  forallb StreamCourse.by_the_action calls = true ->
  Streams.run_calls test overlaps ground_point calls (a, Streams.mkWorld s e tr)
    = Some (a', w') ->
  exists r, 0 <= r <= r0
    /\ Streams.get_x (Streams.w_entity w') = Streams.target_x a - Streams.dx a * r
    /\ Streams.get_y (Streams.w_entity w') = Streams.target_y a - Streams.dy a * r
    /\ (Streams.has_reached_target a' (Streams.w_entity w') = true <-> r = 0)
    /\ (Streams.is_active a' = true -> 1 <= r).
Proof.
  intros a Hd Hr0 Hs Hcalls Hrun.
  destruct (create_course now s e Hd) as (Hnz & Hact & _). fold a in Hnz, Hact.
  assert (Hc : StreamCourse.on_course (StreamCourse.course a) r0 a
                 (Streams.w_entity (Streams.mkWorld s e tr))).
  { split; [reflexivity|]. exists r0. split; [lia|]. split; [exact Hs|]. auto. }
  destruct (run_calls_course _ _ _ _ _ _ _ _ _ _ Hcalls Hc Hrun)
    as (Hco & r & Hle & Hs' & Ha').
  unfold StreamCourse.course in Hco. injection Hco as E1 E2 E3 E4.
  exists r. destruct Hs' as (Hr & Hx & Hy).
  split; [lia|]. split; [congruence|]. split; [congruence|]. split.
  - apply reached_iff_no_step_left; [repeat split; assumption|].
    rewrite E1, E2. exact Hnz.
  - exact Ha'.
Qed.

Lemma stream_never_overshoots_witness :
  let a := Streams.create direction_to_xy_move_table 0
             StreamScenario.blocking_stream StreamScenario.entity_on_stream in
  exists r, 0 <= r <= 16
    /\ Streams.get_x (Streams.w_entity (Streams.mkWorld StreamScenario.blocking_stream
                        StreamCases.entity_at_101 StreamCases.first_step))
       = Streams.target_x a - Streams.dx a * r
    /\ Streams.get_y (Streams.w_entity (Streams.mkWorld StreamScenario.blocking_stream
                        StreamCases.entity_at_101 StreamCases.first_step))
       = Streams.target_y a - Streams.dy a * r
    /\ (Streams.has_reached_target
          (Streams.set_next_move_date 500 a)
          (Streams.w_entity (Streams.mkWorld StreamScenario.blocking_stream
                        StreamCases.entity_at_101 StreamCases.first_step))
        = true <-> r = 0)
    /\ (Streams.is_active (Streams.set_next_move_date 500 a) = true -> 1 <= r).
Proof.
  intros a.
  apply (stream_never_overshoots StreamScenario.no_obstacle StreamScenario.on_stream
           StreamScenario.ground_point 0 StreamScenario.blocking_stream
           StreamScenario.entity_on_stream [] 16 [Streams.CallUpdate 250]).
  - simpl. lia.
  - lia.
  - vm_compute. repeat split; discriminate.
  - reflexivity.
  - vm_compute. reflexivity.
Defined.

(** X2.  A diagonal stream moves its entity by exactly 16 pixels on both
    axes, never more.  After any sequence of [update] and [set_suspended]
    calls on an action created for an odd direction, the entity has made
    [k] diagonal unit steps from where it was, [0 <= k <= 16], and
    [has_reached_target] holds exactly when [k = 16]. *)
Theorem diagonal_stream_moves_16_pixels
    (test : Streams.MapEntity -> Layer -> Rectangle -> bool)
    (overlaps : Streams.Stream -> Rectangle -> bool)
    (ground_point : Streams.MapEntity -> Rectangle)
    (now : Z) (s : Streams.Stream) (e : Streams.MapEntity) (tr : list Event)
    (calls : list Streams.Call)
    (a' : Streams.StreamAction) (w' : Streams.World) :
  let a := Streams.create direction_to_xy_move_table now s e in
  0 <= Streams.direction s <= 7 ->
  Z.odd (Streams.direction s) = true ->
  forallb StreamCourse.by_the_action calls = true ->
  Streams.run_calls test overlaps ground_point calls (a, Streams.mkWorld s e tr)
    = Some (a', w') ->
  Z.abs (Streams.dx a) = 1 /\ Z.abs (Streams.dy a) = 1
  /\ exists k, 0 <= k <= 16
    /\ Streams.get_x (Streams.w_entity w') = Streams.get_x e + Streams.dx a * k
    /\ Streams.get_y (Streams.w_entity w') = Streams.get_y e + Streams.dy a * k
    /\ (Streams.has_reached_target a' (Streams.w_entity w') = true <-> k = 16).
Proof.
  intros a Hd Hodd Hcalls Hrun.
  destruct (create_course now s e Hd) as (Hnz & Hact & Hdiag). fold a in Hnz, Hact, Hdiag.
  destruct (Hdiag Hodd) as (Hax & Hay & Hs).
  assert (Hc : StreamCourse.on_course (StreamCourse.course a) 16 a
                 (Streams.w_entity (Streams.mkWorld s e tr))).
  { split; [reflexivity|]. exists 16. split; [lia|]. split; [exact Hs|]. lia. }
  destruct (run_calls_course _ _ _ _ _ _ _ _ _ _ Hcalls Hc Hrun)
    as (Hco & r & Hle & Hs' & Ha').
  unfold StreamCourse.course in Hco. injection Hco as E1 E2 E3 E4.
  split; [exact Hax|]. split; [exact Hay|].
  exists (16 - r).
  assert (Hiff : Streams.has_reached_target a' (Streams.w_entity w') = true <-> r = 0).
  { apply reached_iff_no_step_left; [exact Hs'|]. rewrite E1, E2. exact Hnz. }
  destruct Hs' as (Hr & Hx & Hy). destruct Hs as (_ & Hx0 & Hy0).
  split; [lia|]. rewrite Hx, Hy, Hx0, Hy0, E1, E2, E3, E4.
  split; [ring|]. split; [ring|]. rewrite Hiff. lia.
Qed.

Lemma diagonal_stream_moves_16_pixels_witness :
  exists a' w',
    Streams.run_calls StreamScenario.no_obstacle StreamScenario.on_stream
      StreamScenario.ground_point
      [Streams.CallUpdate 100; Streams.CallSetSuspended 150 true;
       Streams.CallSetSuspended 400 false; Streams.CallUpdate 5000;
       Streams.CallUpdate 6000]
      (Streams.create direction_to_xy_move_table 0
         StreamScenario.diagonal_stream StreamScenario.entity_on_stream,
       Streams.mkWorld StreamScenario.diagonal_stream
         StreamScenario.entity_on_stream [])
    = Some (a', w')
    /\ Streams.get_x (Streams.w_entity w') = 100 + 16
    /\ Streams.get_y (Streams.w_entity w') = 100 - 16
    /\ exists k, 0 <= k <= 16
         /\ Streams.get_x (Streams.w_entity w') = 100 + 1 * k
         /\ Streams.get_y (Streams.w_entity w') = 100 + -1 * k
         /\ (Streams.has_reached_target a' (Streams.w_entity w') = true <-> k = 16).
Proof.
  destruct (Streams.run_calls StreamScenario.no_obstacle StreamScenario.on_stream
              StreamScenario.ground_point
              [Streams.CallUpdate 100; Streams.CallSetSuspended 150 true;
               Streams.CallSetSuspended 400 false; Streams.CallUpdate 5000;
               Streams.CallUpdate 6000]
              (Streams.create direction_to_xy_move_table 0
                 StreamScenario.diagonal_stream StreamScenario.entity_on_stream,
               Streams.mkWorld StreamScenario.diagonal_stream
                 StreamScenario.entity_on_stream []))
    as [[a' w']|] eqn:E; [|vm_compute in E; discriminate].
  exists a', w'. split; [reflexivity|].
  assert (Hw : Streams.get_x (Streams.w_entity w') = 100 + 16
               /\ Streams.get_y (Streams.w_entity w') = 100 - 16).
  { pose proof E as E'. vm_compute in E'. injection E' as _ <-. split; reflexivity. }
  split; [exact (proj1 Hw)|]. split; [exact (proj2 Hw)|].
  refine (proj2 (proj2 (diagonal_stream_moves_16_pixels StreamScenario.no_obstacle
           StreamScenario.on_stream StreamScenario.ground_point 0
           StreamScenario.diagonal_stream StreamScenario.entity_on_stream [] _ a' w'
           _ _ _ E))).
  - simpl. lia.
  - reflexivity.
  - reflexivity.
Defined.

(** X3.  With no obstacle in the way, an update that comes late enough
    finishes the action in one call.  Let an active, running action have
    [r >= 1] steps left to its target, its stream and entity alive and
    enabled and the escape test of free-movement streams not firing.  If
    [now] is at least [next_move_date + (r - 1) * delay] (no wrap-around of
    the 32-bit date), [update] returns with the entity exactly on the target
    and the action inactive, its date advanced by [r] delays. *)
Theorem unobstructed_stream_completes
    (test : Streams.MapEntity -> Layer -> Rectangle -> bool)
    (overlaps : Streams.Stream -> Rectangle -> bool)
    (ground_point : Streams.MapEntity -> Rectangle)
    (now : Z) (a : Streams.StreamAction) (w : Streams.World) (r : Z) :
  (forall e l box, test e l box = false) ->
  Streams.is_active a = true ->
  Streams.is_suspended a = false ->
  Streams.stream_being_removed (Streams.w_stream w) = false ->
  Streams.stream_enabled (Streams.w_stream w) = true ->
  Streams.being_removed (Streams.w_entity w) = false ->
  Streams.enabled (Streams.w_entity w) = true ->
  Streams.allow_movement (Streams.w_stream w)
    && negb (overlaps (Streams.w_stream w) (ground_point (Streams.w_entity w)))
    && (8 <? Streams.get_distance (Streams.w_entity w)
               (Streams.target_x a) (Streams.target_y a)) = false ->
  Streams.dx a <> 0 \/ Streams.dy a <> 0 ->
  StreamCourse.steps_left a (Streams.w_entity w) r ->
  1 <= r ->
  0 <= Streams.delay a ->
  0 <= Streams.next_move_date a ->
  Streams.next_move_date a + (r - 1) * Streams.delay a <= now ->
  Streams.next_move_date a + r * Streams.delay a < 2 ^ 32 ->
  exists a' w',
    Streams.update test overlaps ground_point now a w = Some (a', w')
    /\ Streams.is_active a' = false
    /\ Streams.get_x (Streams.w_entity w') = Streams.target_x a
    /\ Streams.get_y (Streams.w_entity w') = Streams.target_y a
    /\ Streams.next_move_date a' = Streams.next_move_date a + r * Streams.delay a.
Proof.
  intros Hfree Ha Hsus Hsr Hse Her Hee Hesc Hd Hs Hr Hdel Hn Hnow Hmax.
  destruct (update_terminates test overlaps ground_point now a w) as ([a' w'] & H).
  exists a', w'. split; [exact H|].
  unfold Streams.update in H. unfold Streams.is_active, Streams.is_suspended in *.
  rewrite Ha, Hsr, Hse, Her, Hee, Hesc, Hsus in H. cbn [negb] in H.
  exact (update_loop_completes test _ now a w r a' w' Hfree Hs Hr Hd Ha Hdel Hn Hnow
           Hmax H).
Qed.

Lemma unobstructed_stream_completes_witness :
  let a := Streams.create direction_to_xy_move_table 0
             StreamScenario.blocking_stream StreamScenario.entity_on_stream in
  let w := StreamScenario.start_world StreamScenario.blocking_stream in
  exists a' w',
    Streams.update StreamScenario.no_obstacle StreamScenario.on_stream
      StreamScenario.ground_point 4000 a w = Some (a', w')
    /\ Streams.is_active a' = false
    /\ Streams.get_x (Streams.w_entity w') = 116
    /\ Streams.get_y (Streams.w_entity w') = 100
    /\ Streams.next_move_date a' = 250 + 16 * 250.
Proof.
  intros a w.
  apply (unobstructed_stream_completes StreamScenario.no_obstacle
           StreamScenario.on_stream StreamScenario.ground_point 4000 a w 16).
  - reflexivity.
  - reflexivity.
  - reflexivity.
  - reflexivity.
  - reflexivity.
  - reflexivity.
  - reflexivity.
  - reflexivity.
  - left. discriminate.
  - vm_compute. repeat split; discriminate.
  - lia.
  - vm_compute. discriminate.
  - vm_compute. discriminate.
  - vm_compute. discriminate.
  - vm_compute. reflexivity.
Defined.

(** One idle update: nothing moves and the schedule stands. *)
Lemma update_idle test overlaps ground_point now a w a' w' :
  Streams.is_suspended a = true \/ now < Streams.next_move_date a ->
  Streams.update test overlaps ground_point now a w = Some (a', w') ->
  w' = w
  /\ Streams.next_move_date a' = Streams.next_move_date a
  /\ Streams.is_suspended a' = Streams.is_suspended a
  /\ Streams.when_suspended a' = Streams.when_suspended a.
Proof.
  intros Hidle H. unfold Streams.update in H.
  repeat match type of H with
         | (if ?b then _ else _) = _ =>
             destruct b eqn:?;
             [injection H as <- <-; repeat split; first [reflexivity|assumption]|]
         end.
  destruct Hidle as [Hs|Hn]; [congruence|].
  simpl in H. unfold Streams.loop_condition in H.
  destruct (Z.leb_spec (Streams.next_move_date a) now); [lia|].
  cbn [andb] in H. injection H as <- <-. repeat split; first [reflexivity|assumption].
Qed.

(** X4.  A suspended action, and an action whose next move is not yet due,
    are frozen: however many times the main loop calls [update] at the
    dates [dates], the stream, the entity and the log are exactly as they
    were (not one collision query is made) and the date of the next move,
    the suspension flag and the suspension date are unchanged. *)
Theorem idle_stream_is_frozen
    (test : Streams.MapEntity -> Layer -> Rectangle -> bool)
    (overlaps : Streams.Stream -> Rectangle -> bool)
    (ground_point : Streams.MapEntity -> Rectangle)
    (dates : list Z) (a a' : Streams.StreamAction) (w w' : Streams.World) :
  Streams.is_suspended a = true
    \/ Forall (fun now => now < Streams.next_move_date a) dates ->
  Streams.run_calls test overlaps ground_point (map Streams.CallUpdate dates) (a, w)
    = Some (a', w') ->
  w' = w
  /\ Streams.next_move_date a' = Streams.next_move_date a
  /\ Streams.is_suspended a' = Streams.is_suspended a
  /\ Streams.when_suspended a' = Streams.when_suspended a.
Proof.
  revert a w. induction dates as [|now dates IH]; intros a w Hidle H; simpl in H.
  - injection H as <- <-. repeat split; reflexivity.
  - destruct (Streams.update test overlaps ground_point now a w) as [[a1 w1]|] eqn:H1;
      [|discriminate].
    apply update_idle in H1 as (-> & En & Es & Ew).
    + apply IH in H as (-> & -> & -> & ->); [repeat split; assumption|].
      destruct Hidle as [Hs|Hn]; [left; congruence|right].
      rewrite En. exact (Forall_inv_tail Hn).
    + destruct Hidle as [Hs|Hn]; [left; exact Hs|right; exact (Forall_inv Hn)].
Qed.

Lemma idle_stream_is_frozen_witness :
  let a := Streams.set_suspended 100 true
             (Streams.create direction_to_xy_move_table 0
                StreamScenario.blocking_stream StreamScenario.entity_on_stream) in
  let w := StreamScenario.start_world StreamScenario.blocking_stream in
  w = w
  /\ Streams.next_move_date a = Streams.next_move_date a
  /\ Streams.is_suspended a = Streams.is_suspended a
  /\ Streams.when_suspended a = Streams.when_suspended a.
Proof.
  intros a w.
  apply (idle_stream_is_frozen StreamScenario.no_obstacle StreamScenario.on_stream
           StreamScenario.ground_point [1000; 2000; 3000] a a w w).
  - left. reflexivity.
  - vm_compute. reflexivity.
Defined.

(** X5.  An action whose stream or entity is being removed or is disabled
    stops at the next [update] without touching the map: the world and its
    log are unchanged even if moves are overdue, the action is inactive, and
    the only pointer dropped is that of the first endpoint found being
    removed (the stream is looked at first). *)
Theorem gone_endpoint_stops_stream
    (test : Streams.MapEntity -> Layer -> Rectangle -> bool)
    (overlaps : Streams.Stream -> Rectangle -> bool)
    (ground_point : Streams.MapEntity -> Rectangle)
    (now : Z) (a : Streams.StreamAction) (w : Streams.World) :
  Streams.is_active a = true ->
  Streams.stream_being_removed (Streams.w_stream w) = true
    \/ Streams.stream_enabled (Streams.w_stream w) = false
    \/ Streams.being_removed (Streams.w_entity w) = true
    \/ Streams.enabled (Streams.w_entity w) = false ->
  exists a',
    Streams.update test overlaps ground_point now a w = Some (a', w)
    /\ Streams.is_active a' = false
    /\ Streams.next_move_date a' = Streams.next_move_date a
    /\ Streams.stream a'
       = (if Streams.stream_being_removed (Streams.w_stream w) then false
          else Streams.stream a)
    /\ Streams.entity_moved a'
       = (if negb (Streams.stream_being_removed (Streams.w_stream w))
             && Streams.stream_enabled (Streams.w_stream w)
             && Streams.being_removed (Streams.w_entity w)
          then false else Streams.entity_moved a).
Proof.
  intros Ha Hgone. unfold Streams.update. rewrite Ha.
  cbn [negb].
  destruct (Streams.stream_being_removed (Streams.w_stream w));
    [eexists; split; [reflexivity|]; repeat split; reflexivity|].
  destruct (Streams.stream_enabled (Streams.w_stream w));
    [|eexists; split; [reflexivity|]; repeat split; reflexivity].
  destruct (Streams.being_removed (Streams.w_entity w));
    [eexists; split; [reflexivity|]; repeat split; reflexivity|].
  destruct (Streams.enabled (Streams.w_entity w));
    [|eexists; split; [reflexivity|]; repeat split; reflexivity].
  exfalso. intuition discriminate.
Qed.

Lemma gone_endpoint_stops_stream_witness :
  let a := Streams.create direction_to_xy_move_table 0
             StreamCases.removed_stream StreamScenario.entity_on_stream in
  let w := StreamScenario.start_world StreamCases.removed_stream in
  exists a',
    Streams.update StreamScenario.no_obstacle StreamScenario.on_stream
      StreamScenario.ground_point 5000 a w = Some (a', w)
    /\ Streams.is_active a' = false
    /\ Streams.next_move_date a' = Streams.next_move_date a
    /\ Streams.stream a' = false
    /\ Streams.entity_moved a' = Streams.entity_moved a.
Proof.
  intros a w.
  apply (gone_endpoint_stops_stream StreamScenario.no_obstacle StreamScenario.on_stream
           StreamScenario.ground_point 5000 a w).
  - reflexivity.
  - left. reflexivity.
Defined.

Lemma count_moves_app tr1 tr2 :
  StreamCourse.count_moves (tr1 ++ tr2)
  = StreamCourse.count_moves tr1 + StreamCourse.count_moves tr2.
Proof.
  induction tr1 as [|ev tr1 IH]; simpl; [reflexivity|].
  destruct ev; rewrite IH; lia.
Qed.

Lemma count_moves_nonneg tr : 0 <= StreamCourse.count_moves tr.
Proof. induction tr as [|ev tr IH]; simpl; [lia|]. destruct ev; lia. Qed.

Lemma paced_refl now a a' w :
  Streams.next_move_date a' = Streams.next_move_date a ->
  StreamCourse.paced now a a' w w.
Proof.
  intros E. exists [], 0. rewrite app_nil_r. simpl. repeat split; lia.
Qed.

Lemma update_loop_paced test fuel now : forall a w a' w',
  0 <= Streams.delay a -> 0 <= Streams.next_move_date a ->
  now + Streams.delay a < 2 ^ 32 ->
  Streams.update_loop test fuel now a w = Some (a', w') ->
  StreamCourse.paced now a a' w w'.
Proof.
  induction fuel as [|fuel IH]; intros a w a' w' Hd Hn Hmax H; simpl in H.
  - destruct (Streams.loop_condition now a); [discriminate|].
    injection H as <- <-. apply paced_refl. reflexivity.
  - destruct (Streams.loop_condition now a) eqn:Hl;
      [|injection H as <- <-; apply paced_refl; reflexivity].
    unfold Streams.loop_condition in Hl. apply andb_true_iff in Hl as [Hdue _].
    apply Z.leb_le in Hdue.
    assert (Hu : uint32 (Streams.next_move_date a + Streams.delay a)
                 = Streams.next_move_date a + Streams.delay a)
      by (apply uint32_small; lia).
    destruct (test (Streams.w_entity w) (Streams.layer (Streams.w_entity w))
                (add_xy (Streams.bounding_box (Streams.w_entity w))
                   (Streams.dx a, Streams.dy a))) eqn:Hq.
    + rewrite (update_step_obstructed test a w Hq) in H. injection H as <- <-.
      eexists _, 1. split; [reflexivity|]. cbn [Streams.w_entity Streams.log].
      split; [destruct (Streams.allow_movement _); simpl; rewrite Hu; lia|].
      simpl. repeat split; lia.
    + rewrite (update_step_free test a w Hq) in H. cbv zeta in H.
      set (e' := Streams.set_xy _ _ _) in H.
      set (a1 := if Streams.has_reached_target a e' then _ else _) in H.
      assert (Ha1 : Streams.next_move_date a1
                    = Streams.next_move_date a + Streams.delay a
                    /\ Streams.delay a1 = Streams.delay a
                    /\ Streams.dx a1 = Streams.dx a /\ Streams.dy a1 = Streams.dy a).
      { subst a1. destruct (Streams.has_reached_target a e'); simpl; rewrite Hu; auto. }
      destruct Ha1 as (N1 & D1 & X1 & Y1).
      apply IH in H; [|lia..].
      destruct H as (evs & n & Et & En & Hc & Hlate & Hx & Hy).
      cbn [Streams.w_trace Streams.w_entity] in Et, Hx, Hy.
      exists ([EvCollisionTest (Streams.layer (Streams.w_entity w))
                 (add_xy (Streams.bounding_box (Streams.w_entity w))
                    (Streams.dx a, Streams.dy a)) false;
               EvMove (Streams.layer (Streams.w_entity w))
                 (add_xy (Streams.bounding_box (Streams.w_entity w))
                    (Streams.dx a, Streams.dy a));
               EvPositionChanged] ++ evs), (1 + n).
      split; [rewrite Et, <- !app_assoc; reflexivity|].
      rewrite count_moves_app. cbn [StreamCourse.count_moves].
      pose proof (count_moves_nonneg evs).
      subst e'. rewrite get_x_set_xy in Hx. rewrite get_y_set_xy in Hy.
      rewrite N1, D1 in *. rewrite X1 in Hx. rewrite Y1 in Hy.
      split; [lia|]. split; [lia|]. split; [nia|]. split; lia.
Qed.

(** X6.  A stream never moves its entity more than once per delay.  For an
    action whose delay is positive (no 32-bit wrap-around of the date), an
    [update] at [now] that logs [m] committed moves has displaced the
    entity by exactly [m] times [(dx, dy)] and advanced [next_move_date] by
    [n] delays with [m <= n <= m + 1] (the extra one is the turn that met an
    obstacle), and the last of these turns was due: [next_move_date +
    (n - 1) * delay <= now].  Hence [m * delay <= now - next_move_date +
    delay]: the moves never run ahead of the clock. *)
Theorem stream_moves_once_per_delay
    (test : Streams.MapEntity -> Layer -> Rectangle -> bool)
    (overlaps : Streams.Stream -> Rectangle -> bool)
    (ground_point : Streams.MapEntity -> Rectangle)
    (now : Z) (a a' : Streams.StreamAction) (w w' : Streams.World) :
  0 < Streams.delay a ->
  0 <= Streams.next_move_date a ->
  now + Streams.delay a < 2 ^ 32 ->
  Streams.update test overlaps ground_point now a w = Some (a', w') ->
  exists evs n,
    Streams.w_trace w' = Streams.w_trace w ++ evs
    /\ Streams.next_move_date a' = Streams.next_move_date a + n * Streams.delay a
    /\ StreamCourse.count_moves evs <= n <= StreamCourse.count_moves evs + 1
    /\ (0 < n -> Streams.next_move_date a + (n - 1) * Streams.delay a <= now)
    /\ Streams.get_x (Streams.w_entity w')
       = Streams.get_x (Streams.w_entity w)
         + StreamCourse.count_moves evs * Streams.dx a
    /\ Streams.get_y (Streams.w_entity w')
       = Streams.get_y (Streams.w_entity w)
         + StreamCourse.count_moves evs * Streams.dy a
    /\ StreamCourse.count_moves evs * Streams.delay a
       <= Z.max 0 (now - Streams.next_move_date a + Streams.delay a).
Proof.
  intros Hd Hn Hmax H.
  assert (Hp : StreamCourse.paced now a a' w w').
  { unfold Streams.update in H.
    repeat match type of H with
           | (if ?b then _ else _) = _ =>
               destruct b; [injection H as <- <-; apply paced_refl; reflexivity|]
           end.
    apply (update_loop_paced test _ now a w a' w' ltac:(lia) Hn Hmax H). }
  destruct Hp as (evs & n & Et & En & Hc & Hlate & Hx & Hy).
  exists evs, n. repeat (split; [assumption|]).
  pose proof (count_moves_nonneg evs).
  destruct (Z.eq_dec n 0) as [->|Hn0]; [nia|].
  specialize (Hlate ltac:(lia)). nia.
Qed.

Lemma stream_moves_once_per_delay_witness :
  let a := Streams.create direction_to_xy_move_table 0
             StreamScenario.blocking_stream StreamScenario.entity_on_stream in
  let w := StreamScenario.start_world StreamScenario.blocking_stream in
  exists evs n,
    Streams.w_trace StreamCases.world_at_600 = Streams.w_trace w ++ evs
    /\ Streams.next_move_date StreamCases.action_at_600
       = Streams.next_move_date a + n * Streams.delay a
    /\ StreamCourse.count_moves evs <= n <= StreamCourse.count_moves evs + 1
    /\ (0 < n -> Streams.next_move_date a + (n - 1) * Streams.delay a <= 600)
    /\ Streams.get_x (Streams.w_entity StreamCases.world_at_600)
       = Streams.get_x (Streams.w_entity w)
         + StreamCourse.count_moves evs * Streams.dx a
    /\ Streams.get_y (Streams.w_entity StreamCases.world_at_600)
       = Streams.get_y (Streams.w_entity w)
         + StreamCourse.count_moves evs * Streams.dy a
    /\ StreamCourse.count_moves evs * Streams.delay a
       <= Z.max 0 (600 - Streams.next_move_date a + Streams.delay a).
Proof.
  intros a w.
  apply (stream_moves_once_per_delay StreamScenario.no_obstacle
           StreamScenario.on_stream StreamScenario.ground_point 600 a
           StreamCases.action_at_600 w StreamCases.world_at_600).
  - vm_compute. reflexivity.
  - vm_compute. discriminate.
  - vm_compute. reflexivity.
  - vm_compute. reflexivity.
Defined.

(** X7.  Every call on a stream action returns.  The loop of [update]
    makes at most one turn per pixel left to the target, plus the turn that
    breaks or finishes, even when the delay is 0 (a speed above 1000) and
    the date of the next move never passes the clock: each turn that does
    not break moves the entity one step closer, and the action stops at the
    target.  So every sequence of [update], [set_suspended] and changes of
    the world returns. *)
Theorem stream_calls_always_return
    (test : Streams.MapEntity -> Layer -> Rectangle -> bool)
    (overlaps : Streams.Stream -> Rectangle -> bool)
    (ground_point : Streams.MapEntity -> Rectangle)
    (calls : list Streams.Call) (a : Streams.StreamAction) (w : Streams.World) :
  (forall now fuel,
     (Z.to_nat (Streams.remaining a (Streams.w_entity w)) < fuel)%nat ->
     is_Some (Streams.update_loop test fuel now a w))
  /\ (forall now, is_Some (Streams.update test overlaps ground_point now a w))
  /\ is_Some (Streams.run_calls test overlaps ground_point calls (a, w)).
Proof.
  split; [|split].
  - intros now fuel Hf.
    destruct (update_loop_terminates test fuel now a w Hf) as [r ->]. eauto.
  - intros now.
    destruct (update_terminates test overlaps ground_point now a w) as [r ->]. eauto.
  - revert a w. induction calls as [|c calls IH]; intros a w; simpl; [eauto|].
    assert (Hc : is_Some (Streams.run_call test overlaps ground_point c (a, w))).
    { destruct c as [now|now b|s e]; simpl; [|eauto..].
      destruct (update_terminates test overlaps ground_point now a w) as [r ->]. eauto. }
    destruct Hc as [[a1 w1] ->]. apply IH.
Qed.

(** ** The hero *)

(** X8.  The destructor of the hero frees every state object exactly once.
    On a hero with no transition under way it never deletes an object
    twice: it returns, the heap of state objects is empty afterwards, what
    it deleted is the active state followed by the retired states in the
    order of their retirement, no address appears twice among all those
    ever deleted, and every object ever allocated has been deleted. *)
Theorem destructor_frees_every_state (h : Heroes.Hero) :
  Heroes.well_formed_with ∅ h ->
  exists h',
    HeroOps.destroy h = Some h'
    /\ Heroes.heap h' = ∅
    /\ Heroes.destroyed h'
       = Heroes.destroyed h ++ Heroes.addrs (Heroes.state h :: Heroes.old_states h)
    /\ NoDup (Heroes.destroyed h')
    /\ (forall a, (a < Heroes.next_addr h)%nat -> a ∈ Heroes.destroyed h').
Proof.
  intros [W1 W2 W3 W4 W5 W6 W7].
  destruct (delete_all_spec (Heroes.state h :: Heroes.old_states h) h W1)
    as (h' & E & Hh & Hd & H1 & H2 & H3 & H4 & H5).
  { intros a Ha. apply W2. left. exact Ha. }
  exists h'.
  assert (Ed : HeroOps.destroy h = Some h').
  { unfold HeroOps.destroy. simpl in E.
    destruct (Heroes.delete_state (Heroes.state h) h) as [h1|] eqn:E1; [|discriminate].
    replace (Heroes.old_states h1) with (Heroes.old_states h); [exact E|].
    unfold Heroes.delete_state in E1. destruct (Heroes.state h); [|congruence].
    destruct (decide _); [|discriminate]. injection E1 as <-. reflexivity. }
  assert (Hheap : Heroes.heap h' = ∅).
  { rewrite Hh. apply set_eq. intros a.
    rewrite elem_of_difference, elem_of_list_to_set, W2.
    pose proof (not_elem_of_empty (C:=gset nat) a). tauto. }
  split; [exact Ed|]. split; [exact Hheap|]. split; [exact Hd|]. split.
  - rewrite Hd. apply NoDup_app. split; [exact W7|]. split; [|exact W1].
    intros a Ha Hin. destruct (W6 a Ha) as [_ Hnot]. apply Hnot, W2. left. exact Hin.
  - intros a Ha. rewrite Hd, elem_of_app.
    destruct (W5 a Ha) as [Hin|Hin]; [|left; exact Hin].
    apply W2 in Hin. destruct Hin as [Hin|Hin]; [right; exact Hin|].
    exfalso. exact (not_elem_of_empty (C:=gset nat) a Hin).
Qed.

Lemma destructor_frees_every_state_witness :
  exists h',
    HeroOps.destroy HeroScenario.hero_on_traversable = Some h'
    /\ Heroes.heap h' = ∅
    /\ Heroes.destroyed h'
       = Heroes.destroyed HeroScenario.hero_on_traversable
         ++ Heroes.addrs (Heroes.state HeroScenario.hero_on_traversable
                          :: Heroes.old_states HeroScenario.hero_on_traversable)
    /\ NoDup (Heroes.destroyed h')
    /\ (forall a, (a < Heroes.next_addr HeroScenario.hero_on_traversable)%nat ->
                  a ∈ Heroes.destroyed h').
Proof.
  apply (destructor_frees_every_state HeroScenario.hero_on_traversable).
  exact (proj1 (hero_at_well_formed 100 100 GROUND_TRAVERSABLE
                  (HeroScenario.free_class (-1)) (90, 100) (0, 0) (-1))).
Defined.

(** X9.  The facing point is one pixel outside the hero's 16x16 bounding
    box, in the middle of the side he faces: for the directions 0 to 3 it
    is a 1x1 rectangle that is not inside the bounding box but inside the
    box that [is_facing_obstacle] tests for the same direction, and both
    functions stop the program for any other direction. *)
Theorem facing_point_touches_the_box (direction : Z) (h : Heroes.Hero) :
  rw (Heroes.bounding_box h) = 16 ->
  rh (Heroes.bounding_box h) = 16 ->
  (0 <= direction <= 3 ->
   exists p box,
     HeroOps.get_facing_point direction h = Some p
     /\ HeroOps.facing_collision_box direction h = Some box
     /\ rw p = 1 /\ rh p = 1
     /\ ~ HeroOps.covers (Heroes.bounding_box h) (rx p) (ry p)
     /\ HeroOps.covers box (rx p) (ry p)
     /\ box = add_xy (Heroes.bounding_box h)
                (direction_to_xy_move_table (2 * direction))
     /\ (rx p = rx (Heroes.bounding_box h) + 8
         \/ ry p = ry (Heroes.bounding_box h) + 8))
  /\ (~ 0 <= direction <= 3 ->
      HeroOps.get_facing_point direction h = None
      /\ HeroOps.facing_collision_box direction h = None).
Proof.
  intros Hw Hh. split.
  - intros Hd.
    assert (Hc : direction = 0 \/ direction = 1 \/ direction = 2 \/ direction = 3)
      by lia.
    destruct Hc as [ -> | [ -> | [ -> | -> ] ] ]; eexists _, _;
      (split; [reflexivity|]); (split; [reflexivity|]);
      unfold HeroOps.covers, add_xy; simpl; rewrite ?Hw, ?Hh;
      repeat split; try lia; auto.
  - intros Hd. destruct direction as [|p|p]; [lia| |split; reflexivity].
    destruct p as [[p|p|]|[p|p|]|]; try lia; split; reflexivity.
Qed.

Lemma facing_point_touches_the_box_witness :
  (0 <= 3 <= 3 ->
   exists p box,
     HeroOps.get_facing_point 3 HeroScenario.hero_on_traversable = Some p
     /\ HeroOps.facing_collision_box 3 HeroScenario.hero_on_traversable = Some box
     /\ rw p = 1 /\ rh p = 1
     /\ ~ HeroOps.covers (Heroes.bounding_box HeroScenario.hero_on_traversable)
            (rx p) (ry p)
     /\ HeroOps.covers box (rx p) (ry p)
     /\ box = add_xy (Heroes.bounding_box HeroScenario.hero_on_traversable)
                (direction_to_xy_move_table (2 * 3))
     /\ (rx p = rx (Heroes.bounding_box HeroScenario.hero_on_traversable) + 8
         \/ ry p = ry (Heroes.bounding_box HeroScenario.hero_on_traversable) + 8))
  /\ (~ 0 <= 3 <= 3 ->
      HeroOps.get_facing_point 3 HeroScenario.hero_on_traversable = None
      /\ HeroOps.facing_collision_box 3 HeroScenario.hero_on_traversable = None).
Proof.
  apply (facing_point_touches_the_box 3 HeroScenario.hero_on_traversable);
    reflexivity.
Defined.

(** X10.  The direction given to the sprites is the wanted direction or one
    of its two neighbours.  Without a wanted direction the answer is -1 and
    no collision query is needed.  For a wanted direction from 1 to 7 the
    answer is between 0 and 7; it is the wanted direction when the hero can
    move that way or when the three directions are blocked, and otherwise
    the first free one of [wanted + 1] (modulo 8) and [wanted - 1].  For
    the wanted direction 0 the second neighbour tried is -1, not 7, since
    the remainder of C++ keeps the sign of [0 - 1]. *)
Theorem real_direction_is_wanted_or_neighbour
    (env : Heroes.Collaborators) (h : Heroes.Hero) (st : Heroes.State) :
  Heroes.state h = Some st ->
  let wanted := Heroes.wanted_movement_direction8 (Heroes.kind st) in
  let free := fun d => HeroOps.can_move_towards env d h in
  (wanted = -1 -> HeroOps.get_real_movement_direction8 env h = Some (-1))
  /\ (1 <= wanted <= 7 ->
      exists r, HeroOps.get_real_movement_direction8 env h = Some r
        /\ 0 <= r <= 7
        /\ (r = wanted \/ r = (wanted + 1) mod 8 \/ r = wanted - 1)
        /\ (free wanted = true -> r = wanted)
        /\ (r <> wanted -> free r = true /\ free wanted = false)
        /\ (free r = false ->
            r = wanted /\ free ((wanted + 1) mod 8) = false
            /\ free (wanted - 1) = false)
        /\ (r = wanted - 1 -> free ((wanted + 1) mod 8) = false))
  /\ (wanted = 0 ->
      HeroOps.get_real_movement_direction8 env h
      = Some (if free 0 then 0 else if free 1 then 1
              else if free (-1) then -1 else 0)).
Proof.
  intros Hs wanted free. unfold HeroOps.get_real_movement_direction8.
  rewrite Hs. fold wanted. cbv zeta. split; [|split].
  - intros ->. reflexivity.
  - intros Hw.
    assert (E1 : Z.rem (wanted + 1) 8 = (wanted + 1) mod 8)
      by (apply Z.rem_mod_nonneg; lia).
    assert (E2 : Z.rem (wanted - 1) 8 = wanted - 1)
      by (apply Z.rem_small; lia).
    assert (E3 : 0 <= (wanted + 1) mod 8 <= 7)
      by (pose proof (Z.mod_pos_bound (wanted + 1) 8); lia).
    assert (E4 : (wanted + 1) mod 8 <> wanted).
    { destruct (Z.eq_dec wanted 7) as [->|]; [discriminate|].
      rewrite Z.mod_small; lia. }
    rewrite E1, E2.
    destruct (Z.eqb_spec wanted (-1)); [lia|].
    fold (free wanted). fold (free ((wanted + 1) mod 8)). fold (free (wanted - 1)).
    destruct (free wanted) eqn:F0.
    { exists wanted. repeat split; try lia; try congruence; auto. }
    destruct (free ((wanted + 1) mod 8)) eqn:F1.
    { exists ((wanted + 1) mod 8). repeat split; try lia; try congruence; auto.
      intros E. exfalso. revert E.
      destruct (Z.eq_dec wanted 7) as [->|]; [discriminate|].
      rewrite Z.mod_small; lia. }
    destruct (free (wanted - 1)) eqn:F2.
    { exists (wanted - 1). repeat split; try lia; try congruence; auto. }
    exists wanted. repeat split; try lia; try congruence; auto.
  - intros E. rewrite E. subst free. cbv beta.
    change (Z.rem (0 + 1) 8) with 1. change (Z.rem (0 - 1) 8) with (-1).
    change (0 =? -1) with false. cbv iota.
    repeat destruct (HeroOps.can_move_towards env _ h); reflexivity.
Qed.

Lemma real_direction_is_wanted_or_neighbour_witness :
  let h := HeroScenario.hero_on_ice 3 in
  let free := fun d => HeroOps.can_move_towards (HeroScenario.quiet_env GROUND_ICE) d h in
  (3 = -1 ->
   HeroOps.get_real_movement_direction8 (HeroScenario.quiet_env GROUND_ICE) h
   = Some (-1))
  /\ (1 <= 3 <= 7 ->
      exists r,
        HeroOps.get_real_movement_direction8 (HeroScenario.quiet_env GROUND_ICE) h
        = Some r
        /\ 0 <= r <= 7
        /\ (r = 3 \/ r = (3 + 1) mod 8 \/ r = 3 - 1)
        /\ (free 3 = true -> r = 3)
        /\ (r <> 3 -> free r = true /\ free 3 = false)
        /\ (free r = false ->
            r = 3 /\ free ((3 + 1) mod 8) = false /\ free (3 - 1) = false)
        /\ (r = 3 - 1 -> free ((3 + 1) mod 8) = false))
  /\ (3 = 0 ->
      HeroOps.get_real_movement_direction8 (HeroScenario.quiet_env GROUND_ICE) h
      = Some (if free 0 then 0 else if free 1 then 1
              else if free (-1) then -1 else 0)).
Proof.
  intros h free.
  exact (real_direction_is_wanted_or_neighbour (HeroScenario.quiet_env GROUND_ICE)
           (HeroScenario.hero_on_ice 3)
           (Heroes.mkState 0 (HeroScenario.free_class 3)) eq_refl).
Defined.

(** X11.  [is_moving_towards] sees one main direction in a straight move and
    two in a diagonal move.  With a movement that is not stopped and a
    wanted direction [m] from 0 to 7, the answer for the main direction
    [d] (0 to 3) is true exactly when [m] is [2 d] or one of its two
    diagonal neighbours modulo 8; without a movement, with a stopped
    movement or with no wanted direction it is false for every [d]. *)
Theorem moving_towards_main_directions
    (h : Heroes.Hero) (st : Heroes.State) (stopped : bool) (d : Z) :
  Heroes.state h = Some st ->
  0 <= d <= 3 ->
  let m := Heroes.wanted_movement_direction8 (Heroes.kind st) in
  (Heroes.movement_speed h = None \/ stopped = true \/ m = -1 ->
   HeroOps.is_moving_towards stopped d h = Some false)
  /\ (Heroes.movement_speed h <> None -> stopped = false -> 0 <= m <= 7 ->
      exists b, HeroOps.is_moving_towards stopped d h = Some b
        /\ (b = true <-> (m - 2 * d) mod 8 = 0 \/ (m - 2 * d) mod 8 = 1
                         \/ (m - 2 * d) mod 8 = 7)
        /\ (Z.even m = true -> (b = true <-> d = m / 2))
        /\ (Z.odd m = true ->
            (b = true <-> d = (m - 1) / 2 \/ d = ((m + 1) / 2) mod 4))).
Proof.
  intros Hs Hd m. unfold HeroOps.is_moving_towards. rewrite Hs. fold m. cbv zeta.
  split.
  - intros [Hm|[->|Hm]].
    + rewrite Hm. reflexivity.
    + destruct (Heroes.movement_speed h); reflexivity.
    + rewrite Hm. destruct (Heroes.movement_speed h); [|reflexivity].
      destruct stopped; reflexivity.
  - intros Hm -> Hr. destruct (Heroes.movement_speed h); [|congruence].
    eexists. split; [reflexivity|].
    assert (Hc : m = 0 \/ m = 1 \/ m = 2 \/ m = 3 \/ m = 4 \/ m = 5 \/ m = 6 \/ m = 7)
      by lia.
    assert (Hc' : d = 0 \/ d = 1 \/ d = 2 \/ d = 3) by lia.
    destruct Hc as [E|[E|[E|[E|[E|[E|[E|E]]]]]]]; rewrite E;
      destruct Hc' as [ -> | [ -> | [ -> | -> ] ] ]; vm_compute;
      repeat split; intros; try discriminate; try tauto;
      repeat match goal with
             | H : _ \/ _ |- _ => destruct H
             end; try discriminate; auto.
Qed.

Lemma moving_towards_main_directions_witness :
  let h := HeroCases.walking_hero 7 in
  (Heroes.movement_speed h = None \/ false = true \/ 7 = -1 ->
   HeroOps.is_moving_towards false 0 h = Some false)
  /\ (Heroes.movement_speed h <> None -> false = false -> 0 <= 7 <= 7 ->
      exists b, HeroOps.is_moving_towards false 0 h = Some b
        /\ (b = true <-> (7 - 2 * 0) mod 8 = 0 \/ (7 - 2 * 0) mod 8 = 1
                         \/ (7 - 2 * 0) mod 8 = 7)
        /\ (Z.even 7 = true -> (b = true <-> 0 = 7 / 2))
        /\ (Z.odd 7 = true ->
            (b = true <-> 0 = (7 - 1) / 2 \/ 0 = ((7 + 1) / 2) mod 4))).
Proof.
  intros h.
  apply (moving_towards_main_directions (HeroCases.walking_hero 7)
           (Heroes.mkState 0 (HeroScenario.free_class 7)) false 0).
  - reflexivity.
  - lia.
Defined.

(** X12.  Snapping to the facing entity moves the hero by at most 5 pixels,
    along one axis only, and only into a free box.  The box tested keeps
    the size of the bounding box; with an even direction of the sprites its
    x is unchanged and its y is that of the entity when they differ by at
    most 5, with an odd direction the same with x and y exchanged.  One
    collision query is made on that box: if it finds an obstacle nothing
    else happens and the hero stays where he is, otherwise the box is
    committed and the position change is notified. *)
Theorem snap_is_short_and_validated
    (env : Heroes.Collaborators) (fuel : nat) (now : Z)
    (animation_direction fx fy : Z) (h h' : Heroes.Hero) :
  HeroOps.try_snap_to_facing_entity env fuel now animation_direction
    (Some (fx, fy)) h = Some h' ->
  let b := Heroes.bounding_box h in
  exists box,
    rw box = rw b /\ rh box = rh b
    /\ Z.abs (rx box - rx b) <= 5 /\ Z.abs (ry box - ry b) <= 5
    /\ (Z.rem animation_direction 2 = 0 ->
        rx box = rx b
        /\ ry box = (if Z.abs (ry b - fy) <=? 5 then fy else ry b))
    /\ (Z.rem animation_direction 2 <> 0 ->
        ry box = ry b
        /\ rx box = (if Z.abs (rx b - fx) <=? 5 then fx else rx b))
    /\ Heroes.evolves h h'
    /\ (if Heroes.test_collision_with_obstacles env h (Heroes.layer h) box
        then Heroes.trace h'
             = Heroes.trace h ++ [EvCollisionTest (Heroes.layer h) box true]
             /\ Heroes.bounding_box h' = b
        else Heroes.trace h'
             = Heroes.trace h
               ++ [EvCollisionTest (Heroes.layer h) box false;
                   EvMove (Heroes.layer h) box; EvPositionChanged]).
Proof.
  unfold HeroOps.try_snap_to_facing_entity. cbv zeta. cbn [fst snd].
  set (b := Heroes.bounding_box h).
  set (box := if Z.rem animation_direction 2 =? 0 then _ else _).
  intros H. exists box.
  assert (Hbox : rw box = rw b /\ rh box = rh b
            /\ Z.abs (rx box - rx b) <= 5 /\ Z.abs (ry box - ry b) <= 5
            /\ (Z.rem animation_direction 2 = 0 ->
                rx box = rx b
                /\ ry box = (if Z.abs (ry b - fy) <=? 5 then fy else ry b))
            /\ (Z.rem animation_direction 2 <> 0 ->
                ry box = ry b
                /\ rx box = (if Z.abs (rx b - fx) <=? 5 then fx else rx b))).
  { subst box. destruct (Z.eqb_spec (Z.rem animation_direction 2) 0) as [E|E].
    - destruct (Z.leb_spec (Z.abs (ry b - fy)) 5); simpl;
        repeat split; intros; try lia; try contradiction.
    - destruct (Z.leb_spec (Z.abs (rx b - fx)) 5); simpl;
        repeat split; intros; try lia; try contradiction. }
  destruct Hbox as (B1 & B2 & B3 & B4 & B5 & B6).
  repeat (split; [assumption|]).
  destruct (Heroes.test_collision_with_obstacles env h (Heroes.layer h) box) eqn:Hq;
    cbn [negb] in H.
  - injection H as <-. split; [left; repeat split|]. split; reflexivity.
  - apply notify_position_changed_spec in H. destruct H as [He T].
    split.
    + eapply evolves_trans; [|exact He]. left. repeat split.
    + rewrite T. unfold Heroes.log.
      cbn [Heroes.trace Heroes.with_trace Heroes.with_bounding_box Heroes.layer].
      rewrite <- !app_assoc. reflexivity.
Qed.

Lemma snap_is_short_and_validated_witness :
  let h := HeroScenario.hero_on_traversable in
  let b := Heroes.bounding_box h in
  exists box,
    rw box = rw b /\ rh box = rh b
    /\ Z.abs (rx box - rx b) <= 5 /\ Z.abs (ry box - ry b) <= 5
    /\ (Z.rem 0 2 = 0 ->
        rx box = rx b
        /\ ry box = (if Z.abs (ry b - 90) <=? 5 then 90 else ry b))
    /\ (Z.rem 0 2 <> 0 ->
        ry box = ry b
        /\ rx box = (if Z.abs (rx b - 108) <=? 5 then 108 else rx b))
    /\ Heroes.evolves h (HeroCases.snapped_hero)
    /\ (if Heroes.test_collision_with_obstacles
             (HeroScenario.quiet_env GROUND_TRAVERSABLE) h (Heroes.layer h) box
        then Heroes.trace HeroCases.snapped_hero
             = Heroes.trace h ++ [EvCollisionTest (Heroes.layer h) box true]
             /\ Heroes.bounding_box HeroCases.snapped_hero = b
        else Heroes.trace HeroCases.snapped_hero
             = Heroes.trace h
               ++ [EvCollisionTest (Heroes.layer h) box false;
                   EvMove (Heroes.layer h) box; EvPositionChanged]).
Proof.
  intros h b.
  apply (snap_is_short_and_validated (HeroScenario.quiet_env GROUND_TRAVERSABLE)
           5%nat 0 0 108 90 h HeroCases.snapped_hero).
  vm_compute. reflexivity.
Defined.

(** X13.  Bumping into an obstacle on ice stops the slide.  When
    [notify_obstacle_reached] returns with the hero on ice, the displacement
    imposed by the ground is (0,0) and the direction of the slide is -1, so
    [apply_additional_ground_movement] does nothing; the next [update_ice]
    keeps the hero at rest for 1000 ms if the player asks for no direction,
    and otherwise pushes against the wanted direction without touching the
    date.  On any other ground both fields are as the callbacks left them. *)
Theorem obstacle_stops_ice_slide
    (env : Heroes.Collaborators)
    (on_obstacle_reached : Heroes.Hero -> nat -> option Heroes.StateClass)
    (fuel : nat) (now now' : Z) (h h1 : Heroes.Hero) (st : Heroes.State) :
  HeroOps.notify_obstacle_reached env on_obstacle_reached fuel now h = Some h1 ->
  Heroes.state h1 = Some st ->
  let wanted := Heroes.wanted_movement_direction8 (Heroes.kind st) in
  Heroes.evolves_quietly h h1
  /\ (Heroes.ground_below h1 = GROUND_ICE ->
      Heroes.ground_dxy h1 = (0, 0)
      /\ Heroes.ice_movement_direction8 h1 = -1
      /\ Heroes.apply_additional_ground_movement env fuel now' h1 = Some h1
      /\ exists h2,
           Heroes.update_ice env now' h1 = Some h2
           /\ Heroes.ground_dxy h2
              = (if wanted =? -1 then (0, 0)
                 else Heroes.direction_to_xy_move env (Z.rem (wanted + 4) 8))
           /\ Heroes.next_ice_date h2
              = (if wanted =? -1 then uint32 (now' + 1000)
                 else Heroes.next_ice_date h1))
  /\ (Heroes.ground_below h1 <> GROUND_ICE ->
      exists h0, Heroes.run_requests env fuel now on_obstacle_reached 0%nat h = Some h0
                 /\ h1 = h0).
Proof.
  intros H Hs wanted. unfold HeroOps.notify_obstacle_reached in H.
  destruct (Heroes.state h) as [st0|]; [|discriminate].
  destruct (Heroes.run_requests env fuel now on_obstacle_reached 0 h) as [h0|] eqn:E;
    [|discriminate].
  pose proof (run_requests_quietly env fuel now _ _ _ _ E) as Hq.
  destruct (Ground_eqb (Heroes.ground_below h0) GROUND_ICE) eqn:Hg;
    injection H as <-.
  - split.
    + apply quietly_with_ice_movement_direction8, quietly_with_ground_dxy. exact Hq.
    + split.
      * intros _. split; [reflexivity|]. split; [reflexivity|]. split; [reflexivity|].
        unfold Heroes.update_ice, Heroes.Open.update_ice. rewrite Hs. fold wanted.
        cbn [Heroes.ice_movement_direction8 Heroes.with_ice_movement_direction8
             Heroes.with_ground_dxy].
        change (-1 =? -1) with true. cbv iota.
        destruct (wanted =? -1); eexists; (split; [reflexivity|]); split; reflexivity.
      * intros Hne. exfalso. apply Hne. cbn. apply Ground_eqb_eq. exact Hg.
  - split; [exact Hq|]. split.
    + intros Hice. apply Ground_eqb_eq in Hice. congruence.
    + intros _. exists h0. split; reflexivity.
Qed.

Lemma obstacle_stops_ice_slide_witness :
  let env := HeroScenario.quiet_env GROUND_ICE in
  let h := HeroCases.sliding_hero in
  let h1 := Heroes.with_ice_movement_direction8 (-1) (Heroes.with_ground_dxy (0, 0) h) in
  Heroes.evolves_quietly h h1
  /\ (Heroes.ground_below h1 = GROUND_ICE ->
      Heroes.ground_dxy h1 = (0, 0)
      /\ Heroes.ice_movement_direction8 h1 = -1
      /\ Heroes.apply_additional_ground_movement env 5%nat 40 h1 = Some h1
      /\ exists h2,
           Heroes.update_ice env 40 h1 = Some h2
           /\ Heroes.ground_dxy h2
              = (if -1 =? -1 then (0, 0)
                 else Heroes.direction_to_xy_move env (Z.rem (-1 + 4) 8))
           /\ Heroes.next_ice_date h2
              = (if -1 =? -1 then uint32 (40 + 1000) else Heroes.next_ice_date h1))
  /\ (Heroes.ground_below h1 <> GROUND_ICE ->
      exists h0, Heroes.run_requests env 5%nat 0 (fun _ _ => None) 0%nat h = Some h0
                 /\ h1 = h0).
Proof.
  intros env h h1.
  apply (obstacle_stops_ice_slide env (fun _ _ => None) 5%nat 0 40 h h1
           (Heroes.mkState 0 (HeroScenario.free_class (-1)))).
  - reflexivity.
  - reflexivity.
Defined.

(** X14.  [stop_ice_movement] clears the displacement but records the
    direction 0, not -1.  The displacement is (0,0) right after the call,
    but whatever direction the player asks for (or none), the next
    [update_ice] finds a slide in direction 0 to continue: it sets the
    displacement to the unit step of direction 0 and the date of the next
    re-evaluation 300 ms later. *)
Theorem stop_ice_movement_slides_east
    (env : Heroes.Collaborators) (now : Z) (h : Heroes.Hero) (st : Heroes.State) :
  Heroes.state h = Some st ->
  let h1 := HeroOps.stop_ice_movement h in
  Heroes.ground_dxy h1 = (0, 0)
  /\ Heroes.ice_movement_direction8 h1 = 0
  /\ exists h2,
       Heroes.update_ice env now h1 = Some h2
       /\ Heroes.ground_dxy h2 = Heroes.direction_to_xy_move env 0
       /\ Heroes.next_ice_date h2 = uint32 (now + 300)
       /\ Heroes.ice_movement_direction8 h2 = 0.
Proof.
  intros Hs h1. split; [reflexivity|]. split; [reflexivity|].
  unfold Heroes.update_ice, Heroes.Open.update_ice. subst h1.
  unfold HeroOps.stop_ice_movement.
  cbn [Heroes.state Heroes.with_ground_dxy Heroes.with_ice_movement_direction8
       Heroes.ice_movement_direction8].
  rewrite Hs. change (0 =? -1) with false. cbv iota.
  destruct (Z.eqb_spec (Heroes.wanted_movement_direction8 (Heroes.kind st)) (-1)).
  - eexists. split; [reflexivity|]. repeat split.
  - destruct (Z.eqb_spec 0 (Heroes.wanted_movement_direction8 (Heroes.kind st)))
      as [E|E]; cbn [negb].
    + eexists. split; [reflexivity|]. rewrite <- E. repeat split.
    + eexists. split; [reflexivity|]. repeat split.
Qed.

Lemma stop_ice_movement_slides_east_witness :
  let env := HeroScenario.quiet_env GROUND_ICE in
  let h1 := HeroOps.stop_ice_movement HeroCases.sliding_hero in
  Heroes.ground_dxy h1 = (0, 0)
  /\ Heroes.ice_movement_direction8 h1 = 0
  /\ exists h2,
       Heroes.update_ice env 40 h1 = Some h2
       /\ Heroes.ground_dxy h2 = Heroes.direction_to_xy_move env 0
       /\ Heroes.next_ice_date h2 = uint32 (40 + 300)
       /\ Heroes.ice_movement_direction8 h2 = 0.
Proof.
  intros env h1.
  exact (stop_ice_movement_slides_east env 40 HeroCases.sliding_hero
           (Heroes.mkState 0 (HeroScenario.free_class (-1))) eq_refl).
Defined.

Section HolePull.

Import Heroes.

Variable env : Collaborators.
Variable fuel : nat.
Variable st : State.
Variables lx ly : Z.

Hypothesis no_detector : forall h k, on_detectors env h k = None.
Hypothesis no_obstacle : forall h l box, test_collision_with_obstacles env h l box = false.
Hypothesis hole_everywhere : forall l x y, ground_at env l x y = GROUND_HOLE.
Hypothesis cannot_avoid : can_avoid_hole (kind st) = false.

Local Abbreviation in_the_hole := (HeroOps.in_the_hole st lx ly).
Local Abbreviation offset := (HeroOps.offset lx ly).

Lemma distance_ge_8 h :
  (8 <=? get_distance h lx ly) = true
  <-> 64 <= (lx - get_x h) * (lx - get_x h) + (ly - get_y h) * (ly - get_y h).
Proof.
  unfold get_distance, get_distance_xy. rewrite Z.leb_le.
  rewrite <- (Z.sqrt_le_square _ 8);
    [reflexivity|apply Z.add_nonneg_nonneg; apply Z.square_nonneg|lia].
Qed.

Lemma notify_position_changed_in_hole now h :
  on_map h = true -> suspended h = false -> state h = Some st ->
  ground_below h = GROUND_HOLE ->
  notify_position_changed env fuel now h = Some (log EvPositionChanged h).
Proof.
  intros Hm Hsus Hs Hg.
  unfold notify_position_changed, Open.notify_position_changed, Open.check_position.
  set (h0 := log EvPositionChanged h).
  assert (H1 : on_map h0 = true) by exact Hm.
  assert (H2 : state h0 = Some st) by exact Hs.
  assert (H3 : suspended h0 = false) by exact Hsus.
  assert (H4 : ground_below h0 = GROUND_HOLE) by exact Hg.
  clearbody h0. rewrite H1, H2. cbn [negb].
  destruct (are_collisions_ignored (kind st)); [rewrite H2; reflexivity|].
  unfold Open.check_collision_with_detectors.
  assert (Hr : Open.run_requests (set_new env fuel now) fuel (on_detectors env) 0 h0
               = Some h0).
  { destruct fuel; simpl; rewrite no_detector; reflexivity. }
  rewrite Hr, H3.
  unfold Open.update_ground_below. rewrite hole_everywhere, H4. cbn [Ground_eqb].
  unfold Open.save_last_valid_position. rewrite H4. cbn [is_bad_ground negb].
  unfold Open.descend_layer. rewrite H4. cbn [Ground_eqb]. rewrite H2. reflexivity.
Qed.

Lemma try_ground_move_in_hole now d h :
  on_map h = true -> suspended h = false -> state h = Some st ->
  ground_below h = GROUND_HOLE ->
  try_ground_move env fuel now d h
  = Some (log EvPositionChanged
            (log (EvMove (layer h) (add_xy (bounding_box h) d))
               (with_bounding_box (add_xy (bounding_box h) d)
                  (log (EvCollisionTest (layer h) (add_xy (bounding_box h) d) false)
                     h))), true).
Proof.
  intros Hm Hsus Hs Hg.
  unfold try_ground_move, Open.try_ground_move. cbv zeta.
  rewrite no_obstacle. cbn [negb].
  change (Open.notify_position_changed env (set_new env fuel now) fuel now)
    with (notify_position_changed env fuel now).
  rewrite notify_position_changed_in_hole; [reflexivity|assumption..].
Qed.

Lemma pull_step now h :
  in_the_hole h -> next_ground_date h <= now ->
  (8 <=? get_distance h lx ly) = false ->
  update_ground_effects env fuel now h = Some (HeroOps.pulled now h).
Proof.
  intros (Hm & Hsus & Hs & Hg & Hl & Hd & Hne) Hdue Hdist.
  unfold update_ground_effects, Open.update_ground_effects.
  destruct (Z.leb_spec (next_ground_date h) now); [|lia].
  unfold Open.is_ground_visible. rewrite Hg, Hs, cannot_avoid. cbn [negb].
  cbn [last_solid_ground_coords with_next_ground_date].
  rewrite Hl. cbn [fst snd].
  replace (get_distance (with_next_ground_date (uint32 (now + 60)) h) lx ly)
    with (get_distance h lx ly) by reflexivity.
  rewrite Hdist.
  unfold Open.apply_additional_ground_movement.
  change (Open.try_ground_move env (set_new env fuel now) fuel now)
    with (try_ground_move env fuel now).
  set (h1 := with_next_ground_date (uint32 (now + 60)) h).
  assert (Hz : (fst (ground_dxy h1) =? 0) && (snd (ground_dxy h1) =? 0) = false).
  { subst h1. cbn [ground_dxy with_next_ground_date]. rewrite Hd. cbn [fst snd].
    destruct (Z.eqb_spec (Z.sgn (get_x h - lx)) 0), (Z.eqb_spec (Z.sgn (get_y h - ly)) 0);
      try reflexivity. lia. }
  rewrite Hz.
  rewrite (try_ground_move_in_hole now (ground_dxy h1) h1 Hm Hsus Hs Hg).
  reflexivity.
Qed.

Lemma pulled_in_the_hole now h :
  in_the_hole h ->
  in_the_hole (HeroOps.pulled now h)
  /\ offset (HeroOps.pulled now h) = offset h + 1
  /\ next_ground_date (HeroOps.pulled now h) = uint32 (now + 60)
  /\ get_x (HeroOps.pulled now h) = get_x h + Z.sgn (get_x h - lx)
  /\ get_y (HeroOps.pulled now h) = get_y h + Z.sgn (get_y h - ly)
  /\ Z.sgn (get_x (HeroOps.pulled now h) - lx) = Z.sgn (get_x h - lx)
  /\ Z.sgn (get_y (HeroOps.pulled now h) - ly) = Z.sgn (get_y h - ly).
Proof.
  intros (Hm & Hsus & Hs & Hg & Hl & Hd & Hne).
  assert (Hx : get_x (HeroOps.pulled now h) = get_x h + Z.sgn (get_x h - lx)).
  { unfold HeroOps.pulled, get_x, add_xy. cbn. rewrite Hd. cbn. unfold get_x, origin.
    cbn [fst snd]. lia. }
  assert (Hy : get_y (HeroOps.pulled now h) = get_y h + Z.sgn (get_y h - ly)).
  { unfold HeroOps.pulled, get_y, add_xy. cbn. rewrite Hd. cbn. unfold get_y, origin.
    cbn [fst snd]. lia. }
  assert (Sx : Z.sgn (get_x (HeroOps.pulled now h) - lx) = Z.sgn (get_x h - lx))
    by (rewrite Hx; lia).
  assert (Sy : Z.sgn (get_y (HeroOps.pulled now h) - ly) = Z.sgn (get_y h - ly))
    by (rewrite Hy; lia).
  split; [|split; [|split; [reflexivity|auto]]].
  - unfold in_the_hole. rewrite Sx, Sy.
    repeat split; try assumption. rewrite Hx, Hy. lia.
  - unfold offset. rewrite Hx, Hy. lia.
Qed.

Lemma pull_until_fall n : forall dates h,
  in_the_hole h -> HeroOps.due_dates (next_ground_date h) dates ->
  8 - offset h <= Z.of_nat n -> (n <= length dates)%nat ->
  exists k hk,
    (k <= n)%nat
    /\ HeroOps.update_ground_effects_at env fuel (firstn k dates) h = Some hk
    /\ in_the_hole hk
    /\ HeroOps.due_dates (next_ground_date hk) (skipn k dates)
    /\ (8 <=? get_distance hk lx ly) = true
    /\ get_x hk = get_x h + Z.of_nat k * Z.sgn (get_x h - lx)
    /\ get_y hk = get_y h + Z.of_nat k * Z.sgn (get_y h - ly).
Proof.
  induction n as [|n IH]; intros dates h Hin Hdue Hoff Hlen.
  - exists 0%nat, h. split; [lia|]. split; [reflexivity|]. split; [exact Hin|].
    split; [exact Hdue|]. split; [|split; lia].
    apply distance_ge_8. unfold offset in Hoff. nia.
  - destruct (8 <=? get_distance h lx ly) eqn:Hdist.
    + exists 0%nat, h. split; [lia|]. split; [reflexivity|]. split; [exact Hin|].
      split; [exact Hdue|]. split; [exact Hdist|split; lia].
    + destruct dates as [|now dates]; [simpl in Hlen; lia|].
      destruct Hdue as (Hgate & Hnow & Hmax & Hrest).
      pose proof (pull_step now h Hin Hgate Hdist) as Hstep.
      destruct (pulled_in_the_hole now h Hin) as (Hin' & Ho & Hn & Hx & Hy & Sx & Sy).
      destruct (IH dates (HeroOps.pulled now h) Hin') as (k & hk & Hk & Hrun & Hink & Hduek & Hd8 & Hxk & Hyk).
      * rewrite Hn, uint32_small by lia. exact Hrest.
      * lia.
      * simpl in Hlen. lia.
      * exists (S k), hk. split; [lia|]. split.
        { simpl. rewrite Hstep. exact Hrun. }
        split; [exact Hink|]. split; [exact Hduek|]. split; [exact Hd8|].
        rewrite Hxk, Hyk, Sx, Sy, Hx, Hy. split; lia.
Qed.

(** Past 8 pixels the hole wins. *)
Lemma fall_step now h :
  in_the_hole h -> next_ground_date h <= now ->
  (8 <=? get_distance h lx ly) = true ->
  update_ground_effects env fuel now h
  = (do h2 <- set_walking_speed (normal_walking_speed h)
                (with_next_ground_date (uint32 (now + 60)) h);
     set_new env fuel now (FallingState env) h2).
Proof.
  intros (Hm & Hsus & Hs & Hg & Hl & Hd & Hne) Hdue Hdist.
  unfold update_ground_effects, Open.update_ground_effects.
  destruct (Z.leb_spec (next_ground_date h) now); [|lia].
  unfold Open.is_ground_visible. rewrite Hg, Hs, cannot_avoid. cbn [negb].
  cbn [last_solid_ground_coords with_next_ground_date].
  rewrite Hl. cbn [fst snd].
  replace (get_distance (with_next_ground_date (uint32 (now + 60)) h) lx ly)
    with (get_distance h lx ly) by reflexivity.
  rewrite Hdist. reflexivity.
Qed.

End HolePull.

(** X15.  A hero whom nothing stops is pulled into the hole within 7
    pixels.  Let the hero step on a hole in a state that controls its
    movement and cannot avoid holes, away from his last solid ground, on a
    map with no obstacle, no detector reacting and hole all around.
    [start_hole] sets the displacement to the signs of his offset from the
    last solid ground and the walking speed to a third of the normal one.
    Then, [update_ground_effects] being called every time it is due, after
    [k <= 7] calls the hero has made exactly [k] steps of that displacement,
    is 8 pixels or more from the last solid ground, and the next call
    restores the walking speed and starts the falling state. *)
Theorem hole_pull_ends_in_fall
    (env : Heroes.Collaborators) (fuel : nat) (now0 : Z) (dates : list Z)
    (h h0 : Heroes.Hero) (st : Heroes.State) :
  (forall h' k, Heroes.on_detectors env h' k = None) ->
  (forall h' l box, Heroes.test_collision_with_obstacles env h' l box = false) ->
  (forall l x y, Heroes.ground_at env l x y = GROUND_HOLE) ->
  Heroes.on_map h = true ->
  Heroes.suspended h = false ->
  Heroes.state h = Some st ->
  Heroes.can_avoid_hole (Heroes.kind st) = false ->
  Heroes.can_control_movement (Heroes.kind st) = true ->
  Heroes.ground_below h = GROUND_HOLE ->
  fst (Heroes.last_solid_ground_coords h) <> -1 ->
  Heroes.get_xy h <> Heroes.last_solid_ground_coords h ->
  Heroes.Open.start_hole env (Heroes.set_new env fuel now0) now0 h = Some h0 ->
  HeroOps.due_dates now0 dates ->
  (8 <= length dates)%nat ->
  let lx := fst (Heroes.last_solid_ground_coords h) in
  let ly := snd (Heroes.last_solid_ground_coords h) in
  let sx := Z.sgn (Heroes.get_x h - lx) in
  let sy := Z.sgn (Heroes.get_y h - ly) in
  Heroes.ground_dxy h0 = (sx, sy)
  /\ Heroes.walking_speed h0 = Z.quot (Heroes.normal_walking_speed h) 3
  /\ exists k hk now rest,
       (k <= 7)%nat
       /\ skipn k dates = now :: rest
       /\ HeroOps.update_ground_effects_at env fuel (firstn k dates) h0 = Some hk
       /\ Heroes.get_x hk = Heroes.get_x h + Z.of_nat k * sx
       /\ Heroes.get_y hk = Heroes.get_y h + Z.of_nat k * sy
       /\ 8 <= Heroes.get_distance hk lx ly
       /\ Heroes.update_ground_effects env fuel now hk
          = (match Heroes.set_walking_speed (Heroes.normal_walking_speed hk)
                     (Heroes.with_next_ground_date (uint32 (now + 60)) hk) with
             | Some h2 => Heroes.set_new env fuel now (Heroes.FallingState env) h2
             | None => None
             end).
Proof.
  intros Hdet Hobs Hhole Hm Hsus Hs Havoid Hctl Hg Hl1 Hne Hstart Hdue Hlen lx ly sx sy.
  assert (Hl : Heroes.last_solid_ground_coords h = (lx, ly))
    by (subst lx ly; destruct (Heroes.last_solid_ground_coords h); reflexivity).
  assert (Hne' : Heroes.get_x h <> lx \/ Heroes.get_y h <> ly).
  { destruct (Z.eq_dec (Heroes.get_x h) lx) as [Ex|]; [|left; assumption].
    destruct (Z.eq_dec (Heroes.get_y h) ly) as [Ey|]; [|right; assumption].
    exfalso. apply Hne. unfold Heroes.get_xy. rewrite Hl, Ex, Ey. reflexivity. }
  set (h1 := Heroes.with_ground_dxy (sx, sy) (Heroes.with_next_ground_date now0 h)).
  assert (Hh0 : Heroes.Open.set_walking_speed
                  (Z.quot (Heroes.normal_walking_speed h) 3) h1 = Some h0).
  { unfold Heroes.Open.start_hole in Hstart. rewrite Hs, Hctl in Hstart.
    cbn [negb] in Hstart. cbv zeta in Hstart.
    cbn [Heroes.last_solid_ground_coords Heroes.with_next_ground_date] in Hstart.
    rewrite Hl in Hstart. cbn [fst snd] in Hstart.
    change (Heroes.get_x (Heroes.with_next_ground_date now0 h)) with (Heroes.get_x h)
      in Hstart.
    change (Heroes.get_y (Heroes.with_next_ground_date now0 h)) with (Heroes.get_y h)
      in Hstart.
    assert (Hc : (lx =? -1) || ((lx =? Heroes.get_x h) && (ly =? Heroes.get_y h)) = false).
    { destruct (Z.eqb_spec lx (-1)); [subst lx; contradiction|].
      destruct (Z.eqb_spec lx (Heroes.get_x h)), (Z.eqb_spec ly (Heroes.get_y h));
        try reflexivity. lia. }
    rewrite Hc in Hstart.
    replace (if lx <? Heroes.get_x h then 1 else if Heroes.get_x h <? lx then -1 else 0)
      with sx in Hstart
      by (subst sx; destruct (Z.ltb_spec lx (Heroes.get_x h));
          [|destruct (Z.ltb_spec (Heroes.get_x h) lx)]; lia).
    replace (if ly <? Heroes.get_y h then 1 else if Heroes.get_y h <? ly then -1 else 0)
      with sy in Hstart
      by (subst sy; destruct (Z.ltb_spec ly (Heroes.get_y h));
          [|destruct (Z.ltb_spec (Heroes.get_y h) ly)]; lia).
    exact Hstart. }
  assert (Hfields : Heroes.walking_speed h0 = Z.quot (Heroes.normal_walking_speed h) 3
           /\ Heroes.ground_dxy h0 = (sx, sy)
           /\ Heroes.next_ground_date h0 = now0
           /\ Heroes.bounding_box h0 = Heroes.bounding_box h
           /\ HeroOps.in_the_hole st lx ly h0).
  { unfold Heroes.Open.set_walking_speed in Hh0.
    destruct (Z.eqb_spec (Z.quot (Heroes.normal_walking_speed h) 3)
                (Heroes.walking_speed h1)) as [E|E]; cbn [negb] in Hh0.
    - injection Hh0 as <-. split; [symmetry; exact E|].
      repeat split; try assumption.
    - change (Heroes.state h1) with (Heroes.state h) in Hh0. rewrite Hs in Hh0.
      injection Hh0 as <-. repeat split; try assumption. }
  destruct Hfields as (Hw & Hdxy & Hgate & Hbox & Hin).
  split; [exact Hdxy|]. split; [exact Hw|].
  assert (Hx0 : Heroes.get_x h0 = Heroes.get_x h)
    by (unfold Heroes.get_x; rewrite Hbox; reflexivity).
  assert (Hy0 : Heroes.get_y h0 = Heroes.get_y h)
    by (unfold Heroes.get_y; rewrite Hbox; reflexivity).
  destruct (pull_until_fall env fuel st lx ly Hdet Hobs Hhole Havoid 7 dates h0 Hin)
    as (k & hk & Hk & Hrun & Hink & Hduek & Hd8 & Hxk & Hyk).
  { rewrite Hgate. exact Hdue. }
  { unfold HeroOps.offset. rewrite Hx0, Hy0. lia. }
  { lia. }
  destruct (skipn k dates) as [|now rest] eqn:Hskip.
  { exfalso. apply (f_equal (@length Z)) in Hskip. rewrite length_skipn in Hskip.
    simpl in Hskip. lia. }
  exists k, hk, now, rest. split; [exact Hk|]. split; [exact Hskip|].
  split; [exact Hrun|].
  rewrite Hx0, Hy0 in *. split; [exact Hxk|]. split; [exact Hyk|].
  split; [apply Z.leb_le; exact Hd8|].
  apply (fall_step env fuel st lx ly Havoid now hk Hink); [|exact Hd8].
  destruct Hduek as (Hgatek & _). exact Hgatek.
Qed.

Lemma hole_pull_ends_in_fall_witness :
  let env := HeroScenario.quiet_env GROUND_HOLE in
  let h := HeroScenario.hero_3px_in_hole in
  let h0 := Heroes.with_ground_dxy (1, 0) (Heroes.with_next_ground_date 0 h) in
  let dates := [0; 60; 120; 180; 240; 300; 360; 420] in
  Heroes.ground_dxy h0 = (Z.sgn (100 - 97), Z.sgn (100 - 100))
  /\ Heroes.walking_speed h0 = Z.quot 88 3
  /\ exists k hk now rest,
       (k <= 7)%nat
       /\ skipn k dates = now :: rest
       /\ HeroOps.update_ground_effects_at env 5%nat (firstn k dates) h0 = Some hk
       /\ Heroes.get_x hk = 100 + Z.of_nat k * Z.sgn (100 - 97)
       /\ Heroes.get_y hk = 100 + Z.of_nat k * Z.sgn (100 - 100)
       /\ 8 <= Heroes.get_distance hk 97 100
       /\ Heroes.update_ground_effects env 5%nat now hk
          = (match Heroes.set_walking_speed (Heroes.normal_walking_speed hk)
                     (Heroes.with_next_ground_date (uint32 (now + 60)) hk) with
             | Some h2 => Heroes.set_new env 5%nat now (Heroes.FallingState env) h2
             | None => None
             end).
Proof.
  intros env h h0 dates.
  apply (hole_pull_ends_in_fall env 5%nat 0 dates h h0
           (Heroes.mkState 0 (HeroScenario.free_class (-1)))).
  - reflexivity.
  - reflexivity.
  - reflexivity.
  - reflexivity.
  - reflexivity.
  - reflexivity.
  - reflexivity.
  - reflexivity.
  - reflexivity.
  - simpl. lia.
  - discriminate.
  - reflexivity.
  - simpl. lia.
  - simpl. lia.
Defined.

(** X16.  What the constructor leaves.  When [Hero::Hero] returns, the
    position check of [set_state] has been skipped (the hero is on no map
    yet): no collision query is logged and no move committed; no state
    object has been deleted; a state is installed; and the list of retired
    states starts with the NULL that stood for the state before the first
    one, which the flush of [update_state] passes over, leaving the active
    state as the only object alive. *)
Theorem constructor_leaves_null_retired
    (env : Heroes.Collaborators) (fuel : nat) (now ice : Z) (h : Heroes.Hero) :
  Heroes.create env fuel now ice = Some h ->
  Heroes.trace h = []
  /\ Heroes.destroyed h = []
  /\ is_Some (Heroes.state h)
  /\ (exists l, Heroes.old_states h = None :: l)
  /\ exists h', Heroes.delete_all (Heroes.old_states h) h = Some h'
       /\ exists s, Heroes.state h' = Some s /\ Heroes.heap h' = {[Heroes.addr s]}.
Proof.
  intros H. pose proof (create_well_formed env fuel now ice h H) as Hwf.
  unfold Heroes.create in H.
  destruct (set_new_advances env fuel now _ _ _ H) as [(Hd & (l & Ho) & _) Ht].
  split; [exact Ht|]. split; [exact Hd|]. split; [exact (proj2 Hwf)|].
  split; [exists l; exact Ho|].
  destruct Hwf as [[W1 W2 W3 W4 W5 W6 W7] [s Hs]].
  destruct (delete_all_spec (Heroes.old_states h) h) as (h' & E & Hh & _ & H1 & _).
  { rewrite Hs in W1. apply NoDup_cons in W1. exact (proj2 W1). }
  { intros a Ha. apply W2. left. rewrite Hs. apply elem_of_cons. right. exact Ha. }
  exists h'. split; [exact E|].
  destruct (flush_well_formed h h') as (_ & Hf & _);
    [split; [constructor; assumption|eauto]|exact E|exact Hf].
Qed.

Lemma constructor_leaves_null_retired_witness :
  let h := HeroCases.new_hero in
  Heroes.trace h = []
  /\ Heroes.destroyed h = []
  /\ is_Some (Heroes.state h)
  /\ (exists l, Heroes.old_states h = None :: l)
  /\ exists h', Heroes.delete_all (Heroes.old_states h) h = Some h'
       /\ exists s, Heroes.state h' = Some s /\ Heroes.heap h' = {[Heroes.addr s]}.
Proof.
  intros h.
  apply (constructor_leaves_null_retired (HeroScenario.quiet_env GROUND_TRAVERSABLE)
           5%nat 0 (-1) h).
  vm_compute. reflexivity.
Defined.

(** X17.  The walking speed on slow ground depends on the ground and on the
    normal speed only.  Let the normal speed [n] be such that [n * 4] is an
    [int] (the products [n * 4] and [n * 3] of the code are computed in
    [int]).  When the ground below becomes traversable, grass, shallow
    water or a ladder, [notify_ground_below_changed] returns with the
    walking speed at the normal speed, at 4/5 of it (grass and shallow
    water) or at 3/5 of it (ladder), the quotient truncated, whatever the
    speed was before; no state is started and nothing else of the state
    machine changes; and the date of the next ground effect is only moved,
    on grass and shallow water, and never to an earlier date.  So stepping
    back on traversable ground always restores the normal speed. *)
Theorem slow_ground_walking_speed
    (env : Heroes.Collaborators)
    (set_new : Heroes.StateClass -> Heroes.Hero -> option Heroes.Hero)
    (now : Z) (h : Heroes.Hero) :
  is_Some (Heroes.state h) ->
  let n := Heroes.normal_walking_speed h in
  - 2 ^ 31 <= n * 4 <= 2 ^ 31 - 1 ->
  forall speed,
    match Heroes.ground_below h with
    | GROUND_TRAVERSABLE => Some n
    | GROUND_GRASS | GROUND_SHALLOW_WATER => Some (Z.quot (n * 4) 5)
    | GROUND_LADDER => Some (Z.quot (n * 3) 5)
    | _ => None
    end = Some speed ->
    exists h',
      Heroes.Open.notify_ground_below_changed env set_new now h = Some h'
      /\ Heroes.walking_speed h' = speed
      /\ Heroes.normal_walking_speed h' = n
      /\ Heroes.stays h h'
      /\ Heroes.next_ground_date h <= Heroes.next_ground_date h'
      /\ (Heroes.ground_below h = GROUND_TRAVERSABLE
          \/ Heroes.ground_below h = GROUND_LADDER ->
          Heroes.next_ground_date h' = Heroes.next_ground_date h)
      /\ (0 <= n -> 0 <= speed <= n)
      /\ exists h'',
           Heroes.Open.notify_ground_below_changed env set_new now
             (Heroes.with_ground_below GROUND_TRAVERSABLE h') = Some h''
           /\ Heroes.walking_speed h'' = n.
Proof.
  intros [st Hs] n Hint speed Hspeed.
  assert (Hset : forall v h0, Heroes.state h0 = Some st ->
            exists h1, Heroes.Open.set_walking_speed v h0 = Some h1
              /\ Heroes.walking_speed h1 = v
              /\ Heroes.normal_walking_speed h1 = Heroes.normal_walking_speed h0
              /\ Heroes.stays h0 h1
              /\ Heroes.next_ground_date h1 = Heroes.next_ground_date h0
              /\ Heroes.state h1 = Some st).
  { intros v h0 H0. unfold Heroes.Open.set_walking_speed.
    destruct (Z.eqb_spec v (Heroes.walking_speed h0)) as [E|E]; cbn [negb].
    - exists h0. repeat split; auto.
    - rewrite H0. eexists. split; [reflexivity|]. repeat split; auto. }
  assert (Hback : forall h', Heroes.state h' = Some st ->
            Heroes.normal_walking_speed h' = n ->
            exists h'',
              Heroes.Open.notify_ground_below_changed env set_new now
                (Heroes.with_ground_below GROUND_TRAVERSABLE h') = Some h''
              /\ Heroes.walking_speed h'' = n).
  { intros h' Hs' Hn'. unfold Heroes.Open.notify_ground_below_changed.
    cbn [Heroes.ground_below Heroes.with_ground_below].
    destruct (Hset (Heroes.normal_walking_speed
                      (Heroes.with_ground_below GROUND_TRAVERSABLE h'))
                (Heroes.with_ground_below GROUND_TRAVERSABLE h') Hs')
      as (h1 & E1 & W1 & _ & _ & _ & S1).
    rewrite E1, S1. exists h1. split; [reflexivity|]. rewrite W1. exact Hn'. }
  unfold Heroes.Open.notify_ground_below_changed.
  destruct (Heroes.ground_below h) eqn:Hg; try discriminate;
    injection Hspeed as <-.
  - (* traversable *)
    destruct (Hset n h Hs) as (h1 & E1 & W1 & N1 & St1 & G1 & S1).
    fold n. rewrite E1, S1. exists h1. split; [reflexivity|].
    repeat split; try assumption; try lia; try apply St1.
    apply Hback; assumption.
  - (* shallow water *)
    unfold Heroes.Open.start_grass.
    destruct (Hset (Z.quot (n * 4) 5)
                (Heroes.with_next_ground_date
                   (Z.max (Heroes.next_ground_date h) now) h) Hs)
      as (h1 & E1 & W1 & N1 & St1 & G1 & S1).
    fold n. rewrite E1, S1. exists h1. split; [reflexivity|].
    cbn [Heroes.next_ground_date Heroes.with_next_ground_date] in G1.
    split; [exact W1|]. split; [exact N1|]. split; [exact St1|].
    split; [lia|]. split; [intros [?|?]; discriminate|].
    split; [intros Hn; split; [apply Z.quot_pos; lia|
              apply Z.quot_le_upper_bound; lia]|].
    apply Hback; assumption.
  - (* grass *)
    unfold Heroes.Open.start_grass.
    destruct (Hset (Z.quot (n * 4) 5)
                (Heroes.with_next_ground_date
                   (Z.max (Heroes.next_ground_date h) now) h) Hs)
      as (h1 & E1 & W1 & N1 & St1 & G1 & S1).
    fold n. rewrite E1, S1. exists h1. split; [reflexivity|].
    cbn [Heroes.next_ground_date Heroes.with_next_ground_date] in G1.
    split; [exact W1|]. split; [exact N1|]. split; [exact St1|].
    split; [lia|]. split; [intros [?|?]; discriminate|].
    split; [intros Hn; split; [apply Z.quot_pos; lia|
              apply Z.quot_le_upper_bound; lia]|].
    apply Hback; assumption.
  - (* ladder *)
    destruct (Hset (Z.quot (n * 3) 5) h Hs) as (h1 & E1 & W1 & N1 & St1 & G1 & S1).
    fold n. rewrite E1, S1. exists h1. split; [reflexivity|].
    split; [exact W1|]. split; [exact N1|]. split; [exact St1|].
    split; [lia|]. split; [intros _; exact G1|].
    split; [intros Hn; split; [apply Z.quot_pos; lia|
              apply Z.quot_le_upper_bound; lia]|].
    apply Hback; assumption.
Qed.

Lemma slow_ground_walking_speed_witness :
  let env := HeroScenario.quiet_env GROUND_GRASS in
  let h := HeroCases.hero_on_grass in
  exists h',
    Heroes.Open.notify_ground_below_changed env (Heroes.set_new env 5%nat 700) 700 h
    = Some h'
    /\ Heroes.walking_speed h' = 70
    /\ Heroes.normal_walking_speed h' = 88
    /\ Heroes.stays h h'
    /\ Heroes.next_ground_date h <= Heroes.next_ground_date h'
    /\ (Heroes.ground_below h = GROUND_TRAVERSABLE
        \/ Heroes.ground_below h = GROUND_LADDER ->
        Heroes.next_ground_date h' = Heroes.next_ground_date h)
    /\ (0 <= 88 -> 0 <= 70 <= 88)
    /\ exists h'',
         Heroes.Open.notify_ground_below_changed env (Heroes.set_new env 5%nat 700) 700
           (Heroes.with_ground_below GROUND_TRAVERSABLE h') = Some h''
         /\ Heroes.walking_speed h'' = 88.
Proof.
  intros env h.
  apply (slow_ground_walking_speed env (Heroes.set_new env 5%nat 700) 700 h).
  - eexists. reflexivity.
  - vm_compute. split; discriminate.
  - reflexivity.
Defined.

Section GroundMoves.

Import Heroes.

Variable env : Collaborators.
Variable fuel : nat.
Variable now : Z.

Lemma try_ground_move_blocked d h :
  test_collision_with_obstacles env h (layer h) (add_xy (bounding_box h) d) = true ->
  try_ground_move env fuel now d h
  = Some (log (EvCollisionTest (layer h) (add_xy (bounding_box h) d) true) h, false).
Proof.
  intros Hq. unfold try_ground_move, Open.try_ground_move. cbv zeta.
  rewrite Hq. reflexivity.
Qed.

Lemma try_ground_move_free d h r :
  test_collision_with_obstacles env h (layer h) (add_xy (bounding_box h) d) = false ->
  try_ground_move env fuel now d h = Some r ->
  snd r = true
  /\ trace (fst r)
     = trace h ++ [EvCollisionTest (layer h) (add_xy (bounding_box h) d) false;
                   EvMove (layer h) (add_xy (bounding_box h) d); EvPositionChanged].
Proof.
  intros Hq H. pose proof (try_ground_move_spec env fuel now d h r H) as Hspec.
  cbv zeta in Hspec. destruct Hspec as (_ & T & Q & _).
  rewrite Hq in Q. destruct (snd r); [|discriminate]. split; [reflexivity|exact T].
Qed.

End GroundMoves.

(** X18.  The displacement imposed by the ground slides along walls.  When
    the box moved by the whole displacement [(dx, dy)], both parts not
    zero, is blocked, [apply_additional_ground_movement] tries the
    horizontal part alone and, only if that is blocked too, the vertical
    part alone; the first free box is committed and notified and nothing
    else is tried.  When the three boxes are blocked nothing moves: over a
    hole the walking speed is set back to normal and the falling state
    started, on any other ground the hero is left with the three queries
    logged. *)
Theorem ground_move_slides_along_walls
    (env : Heroes.Collaborators) (fuel : nat) (now : Z)
    (h : Heroes.Hero) (dx dy : Z) :
  Heroes.ground_dxy h = (dx, dy) ->
  dx <> 0 -> dy <> 0 ->
  let l := Heroes.layer h in
  let b := Heroes.bounding_box h in
  (forall h0, Heroes.test_collision_with_obstacles env h0 l (add_xy b (dx, dy)) = true) ->
  let q := EvCollisionTest l (add_xy b (dx, dy)) true in
  let blocked := fun d =>
    forall h0, Heroes.test_collision_with_obstacles env h0 l (add_xy b d) = true in
  let free := fun d =>
    forall h0, Heroes.test_collision_with_obstacles env h0 l (add_xy b d) = false in
  (free (dx, 0) ->
   forall h', Heroes.apply_additional_ground_movement env fuel now h = Some h' ->
     Heroes.trace h'
     = Heroes.trace h
       ++ [q; EvCollisionTest l (add_xy b (dx, 0)) false;
           EvMove l (add_xy b (dx, 0)); EvPositionChanged])
  /\ (blocked (dx, 0) -> free (0, dy) ->
      forall h', Heroes.apply_additional_ground_movement env fuel now h = Some h' ->
        Heroes.trace h'
        = Heroes.trace h
          ++ [q; EvCollisionTest l (add_xy b (dx, 0)) true;
              EvCollisionTest l (add_xy b (0, dy)) false;
              EvMove l (add_xy b (0, dy)); EvPositionChanged])
  /\ (blocked (dx, 0) -> blocked (0, dy) ->
      let h3 := Heroes.log (EvCollisionTest l (add_xy b (0, dy)) true)
                  (Heroes.log (EvCollisionTest l (add_xy b (dx, 0)) true)
                     (Heroes.log q h)) in
      Heroes.apply_additional_ground_movement env fuel now h
      = (if Ground_eqb (Heroes.ground_below h) GROUND_HOLE then
           match Heroes.set_walking_speed (Heroes.normal_walking_speed h) h3 with
           | Some h4 => Heroes.set_new env fuel now (Heroes.FallingState env) h4
           | None => None
           end
         else Some h3)).
Proof.
  intros Hd Hdx Hdy l b Hfull q blocked free.
  assert (Hz : (fst (Heroes.ground_dxy h) =? 0) && (snd (Heroes.ground_dxy h) =? 0)
               = false).
  { rewrite Hd. cbn [fst snd]. destruct (Z.eqb_spec dx 0); [contradiction|reflexivity]. }
  assert (H1 : Heroes.try_ground_move env fuel now (dx, dy) h
               = Some (Heroes.log q h, false))
    by (apply try_ground_move_blocked; apply Hfull).
  set (h1 := Heroes.log q h) in *.
  assert (Hunfold : Heroes.apply_additional_ground_movement env fuel now h
    = match Heroes.try_ground_move env fuel now (dx, 0) h1 with
      | Some r2 =>
          match (if negb (snd r2) && negb (snd (Heroes.ground_dxy (fst r2)) =? 0)
                 then Heroes.try_ground_move env fuel now
                        (0, snd (Heroes.ground_dxy (fst r2))) (fst r2)
                 else Some r2) with
          | Some r3 =>
              if negb (snd r3) then
                if Ground_eqb (Heroes.ground_below (fst r3)) GROUND_HOLE then
                  match Heroes.Open.set_walking_speed
                          (Heroes.normal_walking_speed (fst r3)) (fst r3) with
                  | Some h4 => Heroes.set_new env fuel now (Heroes.FallingState env) h4
                  | None => None
                  end
                else Some (fst r3)
              else Some (fst r3)
          | None => None
          end
      | None => None
      end).
  { unfold Heroes.apply_additional_ground_movement,
      Heroes.Open.apply_additional_ground_movement.
    rewrite Hz.
    change (Heroes.Open.try_ground_move env (Heroes.set_new env fuel now) fuel now)
      with (Heroes.try_ground_move env fuel now).
    rewrite Hd, H1. cbn [fst snd negb andb].
    change (Heroes.ground_dxy h1) with (Heroes.ground_dxy h). rewrite Hd.
    cbn [fst snd]. destruct (Z.eqb_spec dx 0); [contradiction|]. cbn [negb].
    reflexivity. }
  split; [|split].
  - intros Hx h' H. rewrite Hunfold in H.
    destruct (Heroes.try_ground_move env fuel now (dx, 0) h1) as [r2|] eqn:E2;
      [|discriminate].
    apply try_ground_move_free in E2; [|apply Hx]. destruct E2 as [M2 T2].
    destruct r2 as [h2 m2]. cbn [fst snd] in *. subst m2.
    cbn [negb andb] in H. injection H as <-.
    rewrite T2. subst h1. unfold Heroes.log. cbn. rewrite <- app_assoc. reflexivity.
  - intros Hx Hy h' H. rewrite Hunfold in H.
    rewrite (try_ground_move_blocked env fuel now (dx, 0) h1 (Hx h1)) in H.
    cbn [fst snd negb andb] in H.
    set (h2 := Heroes.log _ h1) in H.
    change (Heroes.ground_dxy h2) with (Heroes.ground_dxy h) in H. rewrite Hd in H.
    cbn [snd] in H. destruct (Z.eqb_spec dy 0); [contradiction|]. cbn [negb] in H.
    destruct (Heroes.try_ground_move env fuel now (0, dy) h2) as [r3|] eqn:E3;
      [|discriminate].
    apply try_ground_move_free in E3; [|apply Hy]. destruct E3 as [M3 T3].
    destruct r3 as [h3 m3]. cbn [fst snd] in *. subst m3.
    cbn [negb] in H. injection H as <-.
    rewrite T3. subst h2 h1. unfold Heroes.log. cbn.
    rewrite <- !app_assoc. reflexivity.
  - intros Hx Hy h3. rewrite Hunfold.
    rewrite (try_ground_move_blocked env fuel now (dx, 0) h1 (Hx h1)).
    cbn [fst snd negb andb].
    set (h2 := Heroes.log _ h1).
    change (Heroes.ground_dxy h2) with (Heroes.ground_dxy h). rewrite Hd.
    cbn [snd]. destruct (Z.eqb_spec dy 0); [contradiction|]. cbn [negb].
    rewrite (try_ground_move_blocked env fuel now (0, dy) h2 (Hy h2)).
    cbn [fst snd negb]. reflexivity.
Qed.

Lemma ground_move_slides_along_walls_witness :
  let env := HeroCases.wall_on_the_right in
  let h := HeroCases.hero_sliding_along_wall in
  exists h',
    Heroes.apply_additional_ground_movement env 5%nat 0 h = Some h'
    /\ Heroes.trace h'
       = Heroes.trace h
         ++ [EvCollisionTest LAYER_LOW (mkRect 94 88 16 16) true;
             EvCollisionTest LAYER_LOW (mkRect 94 87 16 16) true;
             EvCollisionTest LAYER_LOW (mkRect 93 88 16 16) false;
             EvMove LAYER_LOW (mkRect 93 88 16 16); EvPositionChanged].
Proof.
  intros env h.
  destruct (Heroes.apply_additional_ground_movement env 5%nat 0 h) as [h'|] eqn:E;
    [|vm_compute in E; discriminate].
  exists h'. split; [reflexivity|].
  refine (proj1 (proj2 (ground_move_slides_along_walls env 5%nat 0 h 1 1
                          eq_refl _ _ _)) _ _ h' E).
  - discriminate.
  - discriminate.
  - intros h0. reflexivity.
  - intros h0. reflexivity.
  - intros h0. reflexivity.
Defined.

Section Returns.

Import Heroes HeroOps.

Variable env : Collaborators.
Variable now : Z.
Hypothesis Hquiet : quiet env.

Lemma returns_some h : is_Some (state h) -> returns (Some h).
Proof. intros H. exists h. auto. Qed.

Lemma returns_bind (e : option Hero) (k : Hero -> option Hero) :
  returns e -> (forall h, is_Some (state h) -> returns (k h)) ->
  returns (match e with Some h => k h | None => None end).
Proof. intros (h & -> & Hs) Hk. exact (Hk h Hs). Qed.

Lemma run_requests_quiet sn n cb k h :
  (forall h' k', cb h' k' = None) -> Open.run_requests sn n cb k h = Some h.
Proof. intros Hcb. destruct n; simpl; rewrite Hcb; reflexivity. Qed.

Lemma set_walking_speed_returns v h :
  is_Some (state h) -> returns (Open.set_walking_speed v h).
Proof.
  intros [st Hs]. unfold Open.set_walking_speed.
  destruct (negb _); [rewrite Hs|]; apply returns_some; cbn; rewrite Hs; eauto.
Qed.

Lemma save_last_valid_position_returns h :
  is_Some (state h) -> returns (Open.save_last_valid_position h).
Proof.
  intros [st Hs]. unfold Open.save_last_valid_position.
  destruct (negb _); [rewrite Hs; destruct (_ && _)|];
    apply returns_some; cbn; rewrite Hs; eauto.
Qed.

Lemma descend_layer_returns h :
  is_Some (state h) -> returns (Open.descend_layer env h).
Proof.
  intros [st Hs]. unfold Open.descend_layer.
  destruct (Ground_eqb _ _); [rewrite Hs; destruct (is_touching_ground _);
    [destruct (_ && _)|]|]; apply returns_some; cbn; rewrite Hs; eauto.
Qed.

(** The position check, given that the transitions it may start return. *)
Lemma check_position_returns sn fuel h :
  is_Some (state h) ->
  (on_map h = false \/ settled env h \/
   forall c h0, is_Some (state h0) -> settled env h0 -> returns (sn c h0)) ->
  returns (Open.check_position env sn fuel now h).
Proof.
  intros [st Hs] Hsn. unfold Open.check_position.
  destruct (on_map h) eqn:Hm; cbn [negb]; [|apply returns_some; eauto].
  destruct Hsn as [Hsn|Hsn]; [discriminate|].
  rewrite Hs. destruct (are_collisions_ignored (kind st)); [apply returns_some; eauto|].
  unfold Open.check_collision_with_detectors.
  rewrite run_requests_quiet by apply Hquiet.
  destruct (suspended h); [apply returns_some; eauto|].
  apply returns_bind; [|intros h2 H2; apply returns_bind;
    [apply save_last_valid_position_returns; exact H2
    |intros h3 H3; apply descend_layer_returns; exact H3]].
  unfold Open.update_ground_below.
  destruct (Ground_eqb _ (ground_below h)) eqn:Hg; [apply returns_some; eauto|].
  destruct Hsn as [Hset|Hsn].
  { exfalso. unfold settled in Hset. rewrite Hset in Hg.
    assert (Ground_eqb (ground_below h) (ground_below h) = true)
      by (apply Ground_eqb_eq; reflexivity). congruence. }
  set (g := ground_at env (layer h) (get_x h) (get_y h - 2)) in *.
  set (h5 := with_ground_below g h).
  assert (S5 : state h5 = Some st) by exact Hs.
  assert (G5 : settled env h5) by reflexivity.
  assert (Hnew : forall c (h0 : Hero), state h0 = Some st -> settled env h0 ->
            returns (sn c h0)) by (intros c h0 E0 G0; apply Hsn; [rewrite E0; eauto|exact G0]).
  unfold Open.notify_ground_below_changed.
  assert (Hend : forall e : option Hero, returns e ->
            returns (match e with
                     | Some h1 => match state h1 with Some _ => Some h1 | None => None end
                     | None => None
                     end)).
  { intros e He. apply returns_bind; [exact He|]. intros h1 [s1 H1]. rewrite H1.
    apply returns_some. rewrite H1. eauto. }
  apply Hend.
  change (ground_below h5) with g.
  destruct g; try (apply returns_some; rewrite S5; eauto); rewrite ?S5.
  - apply set_walking_speed_returns. rewrite S5. eauto.
  - destruct (negb _); [|apply returns_some; rewrite S5; eauto].
    unfold Open.start_deep_water. rewrite S5.
    destruct (negb _); [|destruct (has_ability_swim env)]; apply Hnew; assumption.
  - unfold Open.start_grass. apply set_walking_speed_returns. cbn. rewrite Hs. eauto.
  - unfold Open.start_grass. apply set_walking_speed_returns. cbn. rewrite Hs. eauto.
  - destruct (negb _); [|apply returns_some; rewrite S5; eauto].
    unfold Open.start_hole. rewrite S5.
    destruct (negb _); [apply Hnew; assumption|]. cbv zeta.
    destruct (_ || _); [apply Hnew; [exact Hs|exact G5]|].
    apply set_walking_speed_returns. cbn. rewrite Hs. eauto.
  - destruct (negb _); [|apply returns_some; rewrite S5; eauto].
    unfold Open.start_ice. rewrite S5. cbv zeta.
    destruct (_ =? _); apply returns_some; cbn; rewrite Hs; eauto.
  - apply set_walking_speed_returns. rewrite S5. eauto.
  - destruct (negb _); [|apply returns_some; rewrite S5; eauto].
    unfold Open.start_prickle. apply Hnew; assumption.
  - destruct (negb _); [|apply returns_some; rewrite S5; eauto].
    unfold Open.start_lava. apply Hnew; assumption.
Qed.

(** [set_state], given that the transitions started by its position check
    return. *)
Lemma set_state_returns_when n s h :
  (on_map h = false \/ settled env h \/
   forall c h0, is_Some (state h0) -> settled env h0 ->
                returns (set_new env n now c h0)) ->
  returns (set_state env (S n) now s h).
Proof.
  intros Hsn. rewrite set_state_unfold. cbv zeta.
  set (hr := with_requested _ h).
  assert (E1 : match state h with
               | Some old =>
                   Open.run_requests (set_new env n now) n
                     (fun h0 k => on_stop env h0 old s k) 0%nat hr
               | None => Some hr
               end = Some hr).
  { destruct (state h); [apply run_requests_quiet; intros; apply Hquiet|reflexivity]. }
  rewrite E1.
  assert (E2 : match state h with
               | Some _ => negb (same_state (state h) (state hr))
               | None => false
               end = false).
  { change (state hr) with (state h). destruct (state h); [|reflexivity].
    simpl. rewrite Nat.eqb_refl. reflexivity. }
  rewrite E2.
  rewrite run_requests_quiet by (intros; apply Hquiet).
  cbn [state with_state same_state]. rewrite Nat.eqb_refl.
  apply check_position_returns; [cbn; eauto|exact Hsn].
Qed.

Lemma set_new_settled n c h :
  settled env h -> returns (set_new env (S n) now c h).
Proof.
  intros Hg. unfold set_new. apply set_state_returns_when. right. left. exact Hg.
Qed.

Lemma set_state_returns n s h : returns (set_state env (S (S n)) now s h).
Proof.
  apply set_state_returns_when. right. right.
  intros c h0 _ Hg. apply set_new_settled. exact Hg.
Qed.

Lemma set_new_returns n c h : returns (set_new env (S (S n)) now c h).
Proof. unfold set_new. apply set_state_returns. Qed.

Lemma notify_position_changed_returns n h :
  is_Some (state h) -> returns (notify_position_changed env (S n) now h).
Proof.
  intros Hs. unfold notify_position_changed, Open.notify_position_changed.
  apply returns_bind.
  - apply check_position_returns; [exact Hs|]. right. right.
    intros c h0 _ Hg. apply set_new_settled. exact Hg.
  - intros h1 [s1 H1]. rewrite H1. apply returns_some. rewrite H1. eauto.
Qed.

(** One attempt of the ground returns, moved or not. *)
Lemma try_ground_move_returns n d h :
  is_Some (state h) ->
  exists h' moved, try_ground_move env (S n) now d h = Some (h', moved)
                   /\ is_Some (state h').
Proof.
  intros Hs. unfold try_ground_move, Open.try_ground_move. cbv zeta.
  destruct (negb _).
  - change (Open.notify_position_changed env (set_new env (S n) now) (S n) now)
      with (notify_position_changed env (S n) now).
    destruct (notify_position_changed_returns n
                (log (EvMove (layer (log (EvCollisionTest (layer h)
                                            (add_xy (bounding_box h) d)
                                            (test_collision_with_obstacles env h
                                               (layer h) (add_xy (bounding_box h) d)))
                                       h))
                        (add_xy (bounding_box h) d))
                   (with_bounding_box (add_xy (bounding_box h) d)
                      (log (EvCollisionTest (layer h) (add_xy (bounding_box h) d)
                              (test_collision_with_obstacles env h (layer h)
                                 (add_xy (bounding_box h) d))) h))) Hs)
      as (h3 & E & H3).
    rewrite E. eauto.
  - eauto.
Qed.

Lemma apply_additional_ground_movement_returns n h :
  is_Some (state h) ->
  returns (apply_additional_ground_movement env (S (S n)) now h).
Proof.
  intros Hs. unfold apply_additional_ground_movement,
    Open.apply_additional_ground_movement.
  destruct (_ && _); [apply returns_some; exact Hs|].
  change (Open.try_ground_move env (set_new env (S (S n)) now) (S (S n)) now)
    with (try_ground_move env (S (S n)) now).
  destruct (try_ground_move_returns (S n) (ground_dxy h) h Hs) as (h1 & m1 & E1 & H1).
  rewrite E1. cbn [fst snd].
  assert (E2 : exists h2 m2,
            (if negb m1 && negb (fst (ground_dxy h1) =? 0)
             then try_ground_move env (S (S n)) now (fst (ground_dxy h1), 0) h1
             else Some (h1, m1)) = Some (h2, m2) /\ is_Some (state h2)).
  { destruct (negb m1 && negb (fst (ground_dxy h1) =? 0));
      [apply try_ground_move_returns; exact H1|eauto]. }
  destruct E2 as (h2 & m2 & E2 & H2). rewrite E2. cbn [fst snd].
  assert (E3 : exists h3 m3,
            (if negb m2 && negb (snd (ground_dxy h2) =? 0)
             then try_ground_move env (S (S n)) now (0, snd (ground_dxy h2)) h2
             else Some (h2, m2)) = Some (h3, m3) /\ is_Some (state h3)).
  { destruct (negb m2 && negb (snd (ground_dxy h2) =? 0));
      [apply try_ground_move_returns; exact H2|eauto]. }
  destruct E3 as (h3 & m3 & E3 & H3). rewrite E3. cbn [fst snd].
  destruct (negb m3); [|apply returns_some; exact H3].
  destruct (Ground_eqb _ _); [|apply returns_some; exact H3].
  apply returns_bind; [apply set_walking_speed_returns; exact H3|].
  intros h4 _. apply set_new_returns.
Qed.

Lemma update_ground_effects_returns n h :
  is_Some (state h) ->
  returns (update_ground_effects env (S (S n)) now h).
Proof.
  intros [st Hs]. unfold update_ground_effects, Open.update_ground_effects.
  destruct (_ <=? _); [|apply returns_some; eauto].
  assert (Hv : exists b, Open.is_ground_visible h = Some b).
  { unfold Open.is_ground_visible. rewrite Hs. destruct (ground_below h); eauto. }
  destruct Hv as [b ->].
  destruct (if b then movement_speed h else None);
    [apply returns_some; cbn; rewrite Hs; eauto|].
  destruct (ground_below h); try (apply returns_some; rewrite Hs; eauto).
  - rewrite Hs. destruct (negb _); [|apply returns_some; rewrite Hs; eauto].
    cbv zeta. destruct (8 <=? _).
    + apply returns_bind; [apply set_walking_speed_returns; cbn; rewrite Hs; eauto|].
      intros h2 _. apply set_new_returns.
    + apply apply_additional_ground_movement_returns. cbn. rewrite Hs. eauto.
  - rewrite Hs.
    apply returns_bind.
    { destruct (negb _); [apply apply_additional_ground_movement_returns
                         |apply returns_some]; rewrite Hs; eauto. }
    intros h1 [s1 H1]. cbv zeta.
    destruct (_ <=? _); [|apply returns_some; cbn; rewrite H1; eauto].
    unfold Open.reevaluate_ice.
    assert (Hi : returns (Open.update_ice env now
                            (with_next_ground_date (uint32 (now + 20)) h1))).
    { unfold Open.update_ice. cbn [state with_next_ground_date]. rewrite H1.
      cbv zeta. repeat destruct (_ =? _); cbn [negb];
        apply returns_some; cbn; rewrite H1; eauto. }
    apply returns_bind; [exact Hi|].
    intros h2 [s2 H2]. rewrite H2. apply returns_some. cbn. rewrite H2. eauto.
Qed.

End Returns.

(** X19.  With callbacks that ask for no transition, the operations of the
    hero return, and [set_state] nests at most twice.  For every hero and
    every state object, [set_state] returns with a state installed as soon
    as two nested calls are allowed (the second one is the transition that
    a change of ground starts from the position check; one is enough when
    the ground recorded is the ground under the hero, or when he is on no
    map); so does the constructor; and on a well-formed hero [update]
    returns too: the flush of the retired states never fails and the
    ground effects return. *)
Theorem quiet_hero_operations_return
    (env : Heroes.Collaborators) (fuel : nat) (now : Z) :
  HeroOps.quiet env ->
  (2 <= fuel)%nat ->
  (forall s h, HeroOps.returns (Heroes.set_state env fuel now s h))
  /\ (forall s h, HeroOps.settled env h \/ Heroes.on_map h = false ->
        HeroOps.returns (Heroes.set_state env 1 now s h))
  /\ (forall ice, HeroOps.returns (Heroes.create env 1 now ice))
  /\ (forall h, Heroes.well_formed h -> HeroOps.returns (Heroes.update env fuel now h)).
Proof.
  intros Hq Hfuel. destruct fuel as [|[|n]]; try lia.
  split; [|split; [|split]].
  - intros s h. apply set_state_returns. exact Hq.
  - intros s h Hh. apply set_state_returns_when; [exact Hq|]. tauto.
  - intros ice. unfold Heroes.create, Heroes.set_new.
    apply set_state_returns_when; [exact Hq|]. left. reflexivity.
  - intros h [Hwf [st Hs]].
    assert (Hreq : forall cb h0, (forall h' k', cb h' k' = None) ->
              Heroes.run_requests env (S (S n)) now cb 0%nat h0 = Some h0).
    { intros cb h0 Hcb. unfold Heroes.run_requests. apply run_requests_quiet. exact Hcb. }
    unfold Heroes.update.
    assert (E1 : Heroes.update_movement env (S (S n)) now h = Some h).
    { unfold Heroes.update_movement. destruct (Heroes.movement_speed h); [|reflexivity].
      apply Hreq. apply Hq. }
    rewrite E1.
    destruct Hwf as [W1 W2 W3 W4 W5 W6 W7].
    destruct (delete_all_spec (Heroes.old_states h) h) as (h' & E & _ & _ & H1 & _).
    { rewrite Hs in W1. apply NoDup_cons in W1. exact (proj2 W1). }
    { intros a Ha. apply W2. left. rewrite Hs. apply elem_of_cons. right. exact Ha. }
    assert (E2 : Heroes.update_state env (S (S n)) now h
                 = Some (Heroes.with_old_states [] h')).
    { unfold Heroes.update_state. rewrite Hs, Hreq by (intros; apply Hq).
      rewrite E. reflexivity. }
    rewrite E2.
    assert (H2 : is_Some (Heroes.state (Heroes.with_old_states [] h')))
      by (cbn; rewrite H1, Hs; eauto).
    destruct (negb _); [|apply returns_some; exact H2].
    apply returns_bind; [apply update_ground_effects_returns; assumption|].
    intros h3 H3. unfold Heroes.check_collision_with_detectors,
      Heroes.Open.check_collision_with_detectors.
    rewrite run_requests_quiet by apply Hq. apply returns_some. exact H3.
Qed.

Lemma quiet_hero_operations_return_witness :
  let env := HeroScenario.quiet_env GROUND_HOLE in
  (forall s h, HeroOps.returns (Heroes.set_state env 2 10 s h))
  /\ (forall s h, HeroOps.settled env h \/ Heroes.on_map h = false ->
        HeroOps.returns (Heroes.set_state env 1 10 s h))
  /\ (forall ice, HeroOps.returns (Heroes.create env 1 10 ice))
  /\ (forall h, Heroes.well_formed h -> HeroOps.returns (Heroes.update env 2 10 h)).
Proof.
  intros env.
  apply (quiet_hero_operations_return env 2 10).
  - repeat split; intros; reflexivity.
  - lia.
Defined.

(** ** Sprite animation sets *)

Section SpriteFacts.

Import Sprites.

Variable d : DirectionData.
Hypothesis columns : 1 <= d_num_columns d.
Hypothesis frames_nonneg : 0 <= d_num_frames d.

Local Abbreviation nc := (d_num_columns d).
Local Abbreviation nf := (d_num_frames d).
Local Abbreviation rows := ((nf + nc - 1) / nc).

Lemma num_rows_spec : num_rows d = Some rows.
Proof.
  unfold num_rows.
  destruct (Z.eqb_spec nc 0); [lia|]. destruct (Z.eqb_spec nc (-1)); [lia|].
  rewrite andb_false_r. cbn [orb].
  rewrite Z.rem_mod_nonneg, Z.quot_div_nonneg by lia.
  pose proof (Z.div_mod nf nc ltac:(lia)) as Hdm.
  pose proof (Z.mod_pos_bound nf nc ltac:(lia)) as Hmod.
  destruct (Z.eqb_spec (nf mod nc) 0) as [E|E]; f_equal.
  - apply Z.div_unique with (r := nc - 1); [lia|]. nia.
  - apply Z.div_unique with (r := nf mod nc - 1); [lia|]. nia.
Qed.

Lemma num_rows_bounds : 0 <= rows /\ nf <= rows * nc.
Proof.
  pose proof (Z.div_mod (nf + nc - 1) nc ltac:(lia)) as Hdm.
  pose proof (Z.mod_pos_bound (nf + nc - 1) nc ltac:(lia)) as Hmod.
  assert (0 <= (nf + nc - 1) / nc) by (apply Z.div_pos; lia).
  split; [assumption|nia].
Qed.

(** The inner loop pushes the frames of the row [r] from the column [c] on,
    until the row or the frames are exhausted. *)
Lemma columns_loop_spec fuel : forall r c j positions,
  0 <= c <= nc -> (Z.to_nat (nc - c) <= fuel)%nat ->
  let m := Z.max 0 (Z.min (nc - c) (nf - j)) in
  columns_loop fuel d r c j positions
  = Some (j + m, positions ++ ((fun i => position_in_src d r (c + i)) <$> seqZ 0 m)).
Proof.
  induction fuel as [|fuel IH]; intros r c j positions Hc Hf m; simpl.
  - assert (c = nc) by lia. subst c. subst m.
    destruct (Z.ltb_spec nc nc); [lia|]. cbn [andb].
    rewrite Z.max_l by lia. rewrite Z.add_0_r. simpl. rewrite app_nil_r. reflexivity.
  - destruct (Z.ltb_spec c nc), (Z.ltb_spec j nf); cbn [andb].
    + rewrite IH by lia. cbv zeta. subst m.
      replace (Z.max 0 (Z.min (nc - c) (nf - j)))
        with (1 + Z.max 0 (Z.min (nc - (c + 1)) (nf - (j + 1)))) by lia.
      set (m' := Z.max 0 (Z.min (nc - (c + 1)) (nf - (j + 1)))).
      rewrite seqZ_app by lia. rewrite fmap_app.
      change (seqZ 0 1) with [0]. cbn [fmap list_fmap].
      rewrite Z.add_0_r, <- app_assoc. cbn [app].
      change (0 + 1) with (1 + 0).
      rewrite <- (fmap_add_seqZ 1 0 m'), <- list_fmap_compose.
      replace (j + 1 + m') with (j + (1 + m')) by lia.
      do 4 f_equal.
      apply list_fmap_ext. intros _ i _. simpl. f_equal. lia.
    + subst m. rewrite Z.max_l by lia. rewrite Z.add_0_r. simpl.
      rewrite app_nil_r. reflexivity.
    + subst m. rewrite Z.max_l by lia. rewrite Z.add_0_r. simpl.
      rewrite app_nil_r. reflexivity.
    + subst m. rewrite Z.max_l by lia. rewrite Z.add_0_r. simpl.
      rewrite app_nil_r. reflexivity.
Qed.

Lemma frame_in_row r i :
  0 <= i < nc -> frame d (r * nc + i) = position_in_src d r i.
Proof.
  intros Hi. unfold frame.
  rewrite Z.add_comm, Z.div_add, Z.mod_add, Z.div_small, Z.mod_small by lia.
  reflexivity.
Qed.

(** The outer loop, entered at the row [r] with the frames of the rows
    before it pushed, ends with all the frames. *)
Lemma rows_loop_spec fuel : forall r,
  0 <= r <= rows -> (Z.to_nat (rows - r) <= fuel)%nat ->
  rows_loop fuel d rows r (Z.min nf (r * nc))
    (frame d <$> seqZ 0 (Z.min nf (r * nc)))
  = Some (frame d <$> seqZ 0 nf).
Proof.
  destruct num_rows_bounds as [Hrows Hall].
  induction fuel as [|fuel IH]; intros r Hr Hf; simpl.
  - assert (r = rows) by lia. subst r.
    destruct (Z.ltb_spec rows rows); [lia|]. cbn [andb].
    rewrite Z.min_l by lia. reflexivity.
  - destruct (Z.ltb_spec r rows), (Z.ltb_spec (Z.min nf (r * nc)) nf);
      cbn [andb]; try (rewrite Z.min_l by nia; reflexivity).
    rewrite Z.min_r by lia.
    rewrite columns_loop_spec by lia. cbv zeta.
    set (m := Z.max 0 (Z.min (nc - 0) (nf - r * nc))).
    assert (Hm : 0 <= m <= nc) by lia.
    assert (Hj : r * nc + m = Z.min nf ((r + 1) * nc)) by lia.
    assert (Hp : (frame d <$> seqZ 0 (r * nc))
                 ++ ((fun i => position_in_src d r (0 + i)) <$> seqZ 0 m)
                 = frame d <$> seqZ 0 (Z.min nf ((r + 1) * nc))).
    { rewrite <- Hj. rewrite seqZ_app by nia. rewrite fmap_app. f_equal.
      rewrite Z.add_0_l, <- (Z.add_0_r (r * nc)) at 1.
      rewrite <- (fmap_add_seqZ (r * nc) 0 m), <- list_fmap_compose.
      apply list_fmap_ext. intros k i Hk. apply lookup_seqZ in Hk.
      simpl. rewrite frame_in_row by lia. reflexivity. }
    rewrite Hp, Hj. apply IH; lia.
Qed.

Lemma positions_in_src_spec : positions_in_src d = Some (frame d <$> seqZ 0 nf).
Proof.
  unfold positions_in_src. rewrite num_rows_spec.
  destruct num_rows_bounds as [Hrows _].
  pose proof (rows_loop_spec (Z.to_nat rows) 0 ltac:(lia) ltac:(lia)) as H.
  rewrite Z.mul_0_l, Z.min_r in H by lia. exact H.
Qed.

End SpriteFacts.

(** An [int] is its own conversion to [int]. *)
Lemma int32_small z : Sprites.is_int z -> Sprites.int32 z = z.
Proof.
  unfold Sprites.is_int, Sprites.INT_MIN, Sprites.INT_MAX, Sprites.int32.
  intros H. rewrite Z.mod_small by lia. lia.
Qed.

(** Where nothing overflows the cell is where the grid puts it. *)
Lemma position_in_src_fits d r c :
  Sprites.cell_fits d r c ->
  Sprites.position_in_src d r c
  = mkRect (Sprites.d_x d + c * Sprites.d_frame_width d)
           (Sprites.d_y d + r * Sprites.d_frame_height d)
           (Sprites.d_frame_width d) (Sprites.d_frame_height d).
Proof.
  intros (H1 & H2 & H3 & H4). unfold Sprites.position_in_src.
  rewrite (int32_small _ H1), (int32_small _ H2), (int32_small _ H3),
    (int32_small _ H4). reflexivity.
Qed.

(** The number of rows of a table of [int]s is an [int]: the increment of
    the quotient does not overflow. *)
Lemma num_rows_is_int d n :
  Sprites.int_fields d -> Sprites.num_rows d = Some n -> Sprites.is_int n.
Proof.
  intros (_ & _ & _ & _ & _ & _ & Hf & Hc). unfold Sprites.num_rows.
  unfold Sprites.is_int, Sprites.INT_MIN, Sprites.INT_MAX in *.
  change (- 2 ^ 31) with (-2147483648) in *.
  change (2 ^ 31) with 2147483648 in *.
  destruct (Z.eqb_spec (Sprites.d_num_columns d) 0) as [|Hz]; [discriminate|].
  cbn [orb].
  set (f := Sprites.d_num_frames d) in *. set (c := Sprites.d_num_columns d) in *.
  pose proof (Z.quot_rem' f c) as Hqr.
  pose proof (Z.rem_bound_abs f c Hz) as Hrb.
  assert (HA : Z.abs c * Z.abs (f ÷ c) <= Z.abs f).
  { rewrite <- Z.quot_abs by exact Hz. apply Z.mul_quot_le; lia. }
  set (q := f ÷ c) in *.
  assert (Hexcl : (f =? -2147483648) && (c =? -1) = false ->
                  ~ (f = -2147483648 /\ c = -1)).
  { intros H [-> ->]. discriminate. }
  destruct ((f =? -2147483648) && (c =? -1)) eqn:Hex; [discriminate|].
  specialize (Hexcl eq_refl).
  destruct (Z.eqb_spec (Z.rem f c) 0) as [E|E]; intros [= <-].
  - rewrite E, Z.add_0_r in Hqr.
    assert (Z.abs q <= 2147483648) by nia.
    destruct (Z.eq_dec q 2147483648) as [Eq|]; [|lia].
    exfalso. assert (Z.abs c = 1) by nia.
    assert (c = 1 \/ c = -1) as [Hc1|Hc1] by lia; rewrite Hc1 in *; lia.
  - assert (2 <= Z.abs c) by lia.
    assert (Z.abs q <= 1073741824) by nia. lia.
Qed.

(** Every rectangle pushed by the loops has the size of the frames. *)
Lemma columns_loop_sizes (P : Rectangle -> Prop) d fuel : forall r c j positions j' positions',
  (forall r c, P (Sprites.position_in_src d r c)) ->
  Forall P positions ->
  Sprites.columns_loop fuel d r c j positions = Some (j', positions') ->
  Forall P positions'.
Proof.
  induction fuel as [|fuel IH]; intros r c j positions j' positions' HP Hall H;
    simpl in H; destruct (_ && _); try discriminate;
    try (injection H as <- <-; exact Hall).
  apply IH in H; [exact H|exact HP|].
  apply Forall_app. split; [exact Hall|]. constructor; [apply HP|constructor].
Qed.

Lemma rows_loop_sizes (P : Rectangle -> Prop) d fuel : forall n r j positions positions',
  (forall r c, P (Sprites.position_in_src d r c)) ->
  Forall P positions ->
  Sprites.rows_loop fuel d n r j positions = Some positions' ->
  Forall P positions'.
Proof.
  induction fuel as [|fuel IH]; intros n r j positions positions' HP Hall H;
    simpl in H; destruct (_ && _); try discriminate;
    try (injection H as <-; exact Hall).
  destruct (Sprites.columns_loop _ d r 0 j positions) as [[j1 p1]|] eqn:E;
    [|discriminate].
  apply (columns_loop_sizes P) in E; [|exact HP|exact Hall].
  exact (IH _ _ _ _ _ HP E H).
Qed.

Lemma positions_in_src_sizes d positions :
  Sprites.positions_in_src d = Some positions ->
  Forall (fun r => rw r = Sprites.d_frame_width d /\ rh r = Sprites.d_frame_height d)
         positions.
Proof.
  unfold Sprites.positions_in_src.
  destruct (Sprites.num_rows d); [|discriminate].
  apply rows_loop_sizes; [|constructor]. intros r c. split; reflexivity.
Qed.

(** X20.  The frames of a direction fill a grid row by row.  With at least
    one column and a number of frames that is not negative, [l_animation]
    builds exactly [num_frames] rectangles, and the frame [j], when the
    [int] arithmetic of its coordinates does not overflow, is the cell of
    the column [j mod num_columns] and of the row [j / num_columns] of a
    grid of cells of the size of a frame whose top-left corner is [(x, y)];
    the last row may be incomplete. *)
Theorem frames_fill_the_grid (d : Sprites.DirectionData) :
  1 <= Sprites.d_num_columns d ->
  0 <= Sprites.d_num_frames d ->
  exists positions,
    Sprites.positions_in_src d = Some positions
    /\ length positions = Z.to_nat (Sprites.d_num_frames d)
    /\ forall j, 0 <= j < Sprites.d_num_frames d ->
         Sprites.cell_fits d (j / Sprites.d_num_columns d)
           (j mod Sprites.d_num_columns d) ->
         positions !! Z.to_nat j
         = Some (mkRect
                   (Sprites.d_x d
                    + (j mod Sprites.d_num_columns d) * Sprites.d_frame_width d)
                   (Sprites.d_y d
                    + (j / Sprites.d_num_columns d) * Sprites.d_frame_height d)
                   (Sprites.d_frame_width d) (Sprites.d_frame_height d)).
Proof.
  intros Hc Hf. eexists. split; [apply positions_in_src_spec; assumption|].
  split.
  - rewrite length_fmap, length_seqZ. reflexivity.
  - intros j Hj Hfit. rewrite list_lookup_fmap.
    rewrite lookup_seqZ_lt by lia. rewrite Z2Nat.id by lia. cbn [fmap option_fmap
      option_map]. f_equal. unfold Sprites.frame.
    apply position_in_src_fits. exact Hfit.
Qed.

Lemma frames_fill_the_grid_witness :
  exists positions,
    Sprites.positions_in_src SpriteScenario.walking_down = Some positions
    /\ length positions = Z.to_nat 7
    /\ positions !! Z.to_nat 4 = Some (mkRect (8 + 1 * 24) (16 + 1 * 32) 24 32)
    /\ positions !! Z.to_nat 6 = Some (mkRect (8 + 0 * 24) (16 + 2 * 32) 24 32).
Proof.
  destruct (frames_fill_the_grid SpriteScenario.walking_down)
    as (positions & Hp & Hlen & Hframe).
  - simpl. lia.
  - simpl. lia.
  - exists positions. split; [exact Hp|]. split; [exact Hlen|]. split.
    + apply (Hframe 4); [simpl; lia|]. vm_compute. intuition discriminate.
    + apply (Hframe 6); [simpl; lia|]. vm_compute. intuition discriminate.
Defined.

(** X21.  The frames of a direction never overlap and stay inside the area
    of the grid.  When the frames have a positive width and height, there
    is at least one column and the [int] arithmetic of the coordinates of
    the frames does not overflow, two different frames of the vector built
    by [l_animation] have no pixel in common, and every frame lies inside
    the rectangle of [num_columns] by [num_rows] cells that starts at
    [(x, y)]. *)
Theorem frames_do_not_overlap (d : Sprites.DirectionData)
    (positions : list Rectangle) :
  1 <= Sprites.d_num_columns d ->
  0 < Sprites.d_frame_width d ->
  0 < Sprites.d_frame_height d ->
  (forall j, 0 <= j < Sprites.d_num_frames d ->
     Sprites.cell_fits d (j / Sprites.d_num_columns d)
       (j mod Sprites.d_num_columns d)) ->
  Sprites.positions_in_src d = Some positions ->
  (forall i j ri rj, i <> j ->
     positions !! i = Some ri -> positions !! j = Some rj -> Sprites.apart ri rj)
  /\ exists n, Sprites.num_rows d = Some n
       /\ forall i r, positions !! i = Some r ->
            Sprites.d_x d <= rx r
            /\ rx r + rw r
               <= Sprites.d_x d + Sprites.d_num_columns d * Sprites.d_frame_width d
            /\ Sprites.d_y d <= ry r
            /\ ry r + rh r <= Sprites.d_y d + n * Sprites.d_frame_height d.
Proof.
  intros Hc Hw Hh Hfit Hp.
  destruct (Z.lt_ge_cases (Sprites.d_num_frames d) 0) as [Hneg|Hf].
  { assert (positions = []).
    { unfold Sprites.positions_in_src in Hp.
      destruct (Sprites.num_rows d) as [n|]; [|discriminate].
      destruct (Z.to_nat n); simpl in Hp;
        destruct (Z.ltb_spec 0 (Sprites.d_num_frames d)); try lia;
        rewrite andb_false_r in Hp; congruence. }
    subst positions. split; [intros; discriminate|].
    unfold Sprites.positions_in_src in Hp.
    destruct (Sprites.num_rows d) as [n|]; [|discriminate].
    exists n. split; [reflexivity|]. intros; discriminate. }
  rewrite (positions_in_src_spec d Hc Hf) in Hp. injection Hp as <-.
  assert (Hlook : forall i r,
            (Sprites.frame d <$> seqZ 0 (Sprites.d_num_frames d)) !! i = Some r ->
            r = mkRect
                  (Sprites.d_x d
                   + (Z.of_nat i mod Sprites.d_num_columns d) * Sprites.d_frame_width d)
                  (Sprites.d_y d
                   + (Z.of_nat i / Sprites.d_num_columns d) * Sprites.d_frame_height d)
                  (Sprites.d_frame_width d) (Sprites.d_frame_height d)
            /\ 0 <= Z.of_nat i < Sprites.d_num_frames d).
  { intros i r H. rewrite list_lookup_fmap in H.
    destruct (seqZ 0 (Sprites.d_num_frames d) !! i) as [k|] eqn:E; [|discriminate].
    apply lookup_seqZ in E. injection H as <-. destruct E as [-> E].
    rewrite Z.add_0_l. split; [|lia].
    apply position_in_src_fits, Hfit. lia. }
  destruct (num_rows_bounds d Hc Hf) as [Hrows Hall].
  split.
  - intros i j ri rj Hij Hi Hj.
    apply Hlook in Hi as [-> Hi]. apply Hlook in Hj as [-> Hj].
    unfold Sprites.apart. cbn [rx ry rw rh].
    pose proof (Z.div_mod (Z.of_nat i) (Sprites.d_num_columns d) ltac:(lia)).
    pose proof (Z.div_mod (Z.of_nat j) (Sprites.d_num_columns d) ltac:(lia)).
    pose proof (Z.mod_pos_bound (Z.of_nat i) (Sprites.d_num_columns d) ltac:(lia)).
    pose proof (Z.mod_pos_bound (Z.of_nat j) (Sprites.d_num_columns d) ltac:(lia)).
    set (qi := Z.of_nat i / Sprites.d_num_columns d) in *.
    set (qj := Z.of_nat j / Sprites.d_num_columns d) in *.
    set (mi := Z.of_nat i mod Sprites.d_num_columns d) in *.
    set (mj := Z.of_nat j mod Sprites.d_num_columns d) in *.
    destruct (Z.lt_trichotomy mi mj) as [L|[E|L]].
    + left. nia.
    + destruct (Z.lt_trichotomy qi qj) as [L'|[E'|L']].
      * right. right. left. nia.
      * exfalso. apply Hij. apply Nat2Z.inj. nia.
      * right. right. right. nia.
    + right. left. nia.
  - eexists. split; [apply num_rows_spec; assumption|].
    intros i r Hi. apply Hlook in Hi as [-> Hi]. cbn [rx ry rw rh].
    pose proof (Z.div_mod (Z.of_nat i) (Sprites.d_num_columns d) ltac:(lia)).
    pose proof (Z.mod_pos_bound (Z.of_nat i) (Sprites.d_num_columns d) ltac:(lia)).
    assert (0 <= Z.of_nat i / Sprites.d_num_columns d) by (apply Z.div_pos; lia).
    assert (Z.of_nat i / Sprites.d_num_columns d
            < (Sprites.d_num_frames d + Sprites.d_num_columns d - 1)
              / Sprites.d_num_columns d).
    { apply Z.div_lt_upper_bound; [lia|]. nia. }
    repeat split; nia.
Qed.

Lemma frames_do_not_overlap_witness :
  (forall i j ri rj, i <> j ->
     SpriteScenario.walking_down_frames !! i = Some ri ->
     SpriteScenario.walking_down_frames !! j = Some rj -> Sprites.apart ri rj)
  /\ exists n, Sprites.num_rows SpriteScenario.walking_down = Some n
       /\ forall i r, SpriteScenario.walking_down_frames !! i = Some r ->
            8 <= rx r /\ rx r + rw r <= 8 + 3 * 24
            /\ 16 <= ry r /\ ry r + rh r <= 16 + n * 32.
Proof.
  apply (frames_do_not_overlap SpriteScenario.walking_down
           SpriteScenario.walking_down_frames).
  - simpl. lia.
  - simpl. lia.
  - simpl. lia.
  - intros j Hj. cbn in Hj |- *.
    pose proof (Z.mod_pos_bound j 3 ltac:(lia)).
    assert (0 <= j / 3 <= 2)
      by (split; [apply Z.div_pos; lia|apply Z.div_le_upper_bound; lia]).
    unfold Sprites.cell_fits, Sprites.is_int, Sprites.INT_MIN, Sprites.INT_MAX.
    cbn. lia.
  - vm_compute. reflexivity.
Defined.

Lemma foldl_max_ge l : forall a, a <= foldl Z.max a l.
Proof.
  induction l as [|x l IH]; intros a; simpl; [lia|].
  specialize (IH (Z.max a x)). lia.
Qed.

(** What the loop over the directions does to the set: only the maximum
    size changes, and it grows to hold the frames of each direction. *)
Lemma directions_loop_spec ds : forall s built s1 built1,
  Sprites.directions_loop ds s built = Some (s1, built1) ->
  Sprites.id s1 = Sprites.id s
  /\ Sprites.animations s1 = Sprites.animations s
  /\ Sprites.default_animation_name s1 = Sprites.default_animation_name s
  /\ fst (Sprites.max_size s1)
     = foldl Z.max (fst (Sprites.max_size s)) (Sprites.d_frame_width <$> ds)
  /\ snd (Sprites.max_size s1)
     = foldl Z.max (snd (Sprites.max_size s)) (Sprites.d_frame_height <$> ds)
  /\ exists new, built1 = built ++ new
       /\ Forall (fun dir => Forall (fun r => rw r <= fst (Sprites.max_size s1)
                                              /\ rh r <= snd (Sprites.max_size s1))
                                    (Sprites.frames dir)) new.
Proof.
  induction ds as [|d ds IH]; intros s built s1 built1 H; simpl in H.
  - injection H as <- <-. repeat split. exists []. rewrite app_nil_r. split; constructor.
  - destruct (Sprites.positions_in_src d) as [positions|] eqn:Hp; [|discriminate].
    apply IH in H. cbn [Sprites.id Sprites.animations Sprites.default_animation_name
                        Sprites.max_size Sprites.set_max_size fst snd] in H.
    destruct H as (H1 & H2 & H3 & H4 & H5 & new & -> & Hall).
    split; [exact H1|]. split; [exact H2|]. split; [exact H3|].
    split; [simpl; rewrite H4; f_equal; lia|].
    split; [simpl; rewrite H5; f_equal; lia|].
    eexists. split; [rewrite <- app_assoc; reflexivity|].
    constructor; [|exact Hall]. cbn [Sprites.frames].
    apply positions_in_src_sizes in Hp.
    eapply Forall_impl; [exact Hp|]. intros r [-> ->].
    rewrite H4, H5.
    pose proof (foldl_max_ge (Sprites.d_frame_width <$> ds)
                  (Z.max (Sprites.d_frame_width d) (fst (Sprites.max_size s)))).
    pose proof (foldl_max_ge (Sprites.d_frame_height <$> ds)
                  (Z.max (Sprites.d_frame_height d) (snd (Sprites.max_size s)))).
    lia.
Qed.

(** What one call does to the set. *)
Lemma l_animation_spec a s s' returned :
  Sprites.l_animation a s = Some (s', returned) ->
  exists s1 built,
    Sprites.directions_loop (Sprites.a_directions a) s [] = Some (s1, built)
    /\ Sprites.max_size s' = Sprites.max_size s1
    /\ Sprites.id s' = Sprites.id s
    /\ returned = negb (Sprites.has_animation s (Sprites.a_name a))
    /\ (returned = false ->
        Sprites.animations s' = Sprites.animations s
        /\ Sprites.default_animation_name s' = Sprites.default_animation_name s)
    /\ (returned = true ->
        Sprites.animations s'
        = <[Sprites.a_name a := Sprites.new_animation a built]> (Sprites.animations s)
        /\ Sprites.default_animation_name s'
           = (if decide (Sprites.animations s = ∅) then Sprites.a_name a
              else Sprites.default_animation_name s)).
Proof.
  unfold Sprites.l_animation. intros H.
  destruct (Sprites.directions_loop _ s []) as [[s1 built]|] eqn:E; [|discriminate].
  exists s1, built. split; [reflexivity|].
  destruct (directions_loop_spec _ _ _ _ _ E) as (H1 & H2 & H3 & _).
  assert (Hhas : Sprites.has_animation s1 (Sprites.a_name a)
                 = Sprites.has_animation s (Sprites.a_name a))
    by (unfold Sprites.has_animation; rewrite H2; reflexivity).
  rewrite Hhas in H.
  destruct (Sprites.has_animation s (Sprites.a_name a)) eqn:Hh.
  - injection H as <- <-. repeat split; try assumption; discriminate.
  - cbv zeta in H. cbn [Sprites.animations Sprites.id Sprites.max_size
                        Sprites.default_animation_name] in H.
    assert (Hnone : Sprites.animations s !! Sprites.a_name a = None).
    { unfold Sprites.has_animation in Hh.
      destruct (Sprites.animations s !! Sprites.a_name a); [discriminate|reflexivity]. }
    rewrite H2, map_size_insert, Hnone in H.
    destruct (decide (Sprites.animations s = ∅)) as [Hemp|Hemp].
    + rewrite Hemp, map_size_empty in H. simpl in H. injection H as <- <-.
      cbn. rewrite <- Hemp. repeat split; try assumption; discriminate.
    + apply map_size_non_empty_iff in Hemp.
      destruct (size (Sprites.animations s)) as [|n] eqn:Hsize; [contradiction|].
      simpl in H. injection H as <- <-. cbn.
      repeat split; try assumption; discriminate.
Qed.

(** Once an animation is defined, the rest of the file changes neither it
    nor the default animation. *)
Lemma run_file_keeps calls : forall s s',
  Sprites.run_file calls s = Some s' ->
  Sprites.animations s <> ∅ ->
  Sprites.default_animation_name s' = Sprites.default_animation_name s
  /\ forall n anim, Sprites.animations s !! n = Some anim ->
                    Sprites.animations s' !! n = Some anim.
Proof.
  induction calls as [|a calls IH]; intros s s' H Hne; simpl in H.
  - injection H as <-. auto.
  - destruct (Sprites.l_animation a s) as [[s1 returned]|] eqn:E; [|discriminate].
    destruct (l_animation_spec _ _ _ _ E) as (s2 & built & _ & _ & _ & Hr & Hf & Ht).
    destruct returned.
    + destruct (Ht eq_refl) as [Ha Hd].
      destruct (decide (Sprites.animations s = ∅)) as [|_]; [contradiction|].
      apply IH in H; [|rewrite Ha; apply insert_non_empty].
      destruct H as [Hd' Hk]. split; [congruence|].
      intros n anim Hn. apply Hk. rewrite Ha.
      rewrite lookup_insert_ne; [exact Hn|]. intros <-.
      symmetry in Hr. apply negb_true_iff in Hr.
      unfold Sprites.has_animation in Hr. rewrite Hn in Hr. discriminate.
    + injection H as <-. destruct (Hf eq_refl) as [Ha Hd].
      split; [exact Hd|]. intros n anim Hn. rewrite Ha. exact Hn.
Qed.

(** X22.  The default animation of a set is the first animation of its
    file.  If [load] returns on a file whose first call defines the
    animation [a], the default animation is the name of [a], it is an
    animation of the set, and [get_animation] on it gives the animation
    built from [a], whatever the file defines afterwards: a later
    definition never replaces it. *)
Theorem first_animation_is_the_default
    (a : Sprites.AnimationData) (calls : list Sprites.AnimationData)
    (s0 s : Sprites.SpriteAnimationSet) :
  Sprites.load (a :: calls) s0 = Some s ->
  Sprites.get_default_animation s = Sprites.a_name a
  /\ Sprites.has_animation s (Sprites.a_name a) = true
  /\ exists s1 built,
       Sprites.directions_loop (Sprites.a_directions a) s0 [] = Some (s1, built)
       /\ Sprites.get_animation s (Sprites.get_default_animation s)
          = Some (Sprites.new_animation a built).
Proof.
  unfold Sprites.load. destruct (decide (Sprites.animations s0 = ∅)) as [He|];
    [|discriminate].
  intros H. simpl in H.
  destruct (Sprites.l_animation a s0) as [[s1 returned]|] eqn:E; [|discriminate].
  destruct (l_animation_spec _ _ _ _ E) as (s2 & built & Hl & _ & _ & Hr & _ & Ht).
  assert (Hno : Sprites.has_animation s0 (Sprites.a_name a) = false)
    by (unfold Sprites.has_animation; rewrite He, lookup_empty; reflexivity).
  rewrite Hno in Hr. cbn [negb] in Hr. subst returned.
  destruct (Ht eq_refl) as [Ha Hd].
  destruct (decide (Sprites.animations s0 = ∅)); [|contradiction].
  apply run_file_keeps in H; [|rewrite Ha; apply insert_non_empty].
  destruct H as [Hd' Hk].
  assert (Hlook : Sprites.animations s !! Sprites.a_name a
                  = Some (Sprites.new_animation a built)).
  { apply Hk. rewrite Ha. apply lookup_insert_eq. }
  unfold Sprites.get_default_animation. rewrite Hd', Hd.
  split; [reflexivity|].
  unfold Sprites.get_animation, Sprites.has_animation. rewrite Hlook.
  split; [reflexivity|]. exists s2, built. split; [exact Hl|reflexivity].
Qed.

Lemma first_animation_is_the_default_witness :
  Sprites.get_default_animation SpriteScenario.loaded_set = "walking"%string
  /\ Sprites.has_animation SpriteScenario.loaded_set "walking" = true
  /\ exists s1 built,
       Sprites.directions_loop [SpriteScenario.walking_down]
         SpriteScenario.empty_set [] = Some (s1, built)
       /\ Sprites.get_animation SpriteScenario.loaded_set
            (Sprites.get_default_animation SpriteScenario.loaded_set)
          = Some (Sprites.new_animation SpriteScenario.walking built).
Proof.
  apply (first_animation_is_the_default SpriteScenario.walking
           [SpriteScenario.stopped; SpriteScenario.walking]
           SpriteScenario.empty_set SpriteScenario.loaded_set).
  vm_compute. reflexivity.
Defined.

Lemma l_animation_fit a s s' returned :
  Sprites.l_animation a s = Some (s', returned) ->
  Sprites.frames_fit s -> Sprites.frames_fit s'.
Proof.
  intros E Hfit.
  destruct (l_animation_spec _ _ _ _ E) as (s1 & built & Hl & Hm & _ & Hr & Hf & Ht).
  destruct (directions_loop_spec _ _ _ _ _ Hl) as (_ & _ & _ & Hw & Hh & new & Hb & Hall).
  simpl in Hb. subst new.
  pose proof (foldl_max_ge (Sprites.d_frame_width <$> Sprites.a_directions a)
                (fst (Sprites.max_size s))) as Gw.
  pose proof (foldl_max_ge (Sprites.d_frame_height <$> Sprites.a_directions a)
                (snd (Sprites.max_size s))) as Gh.
  assert (Hold : forall n anim dir r,
            Sprites.animations s !! n = Some anim ->
            dir ∈ Sprites.directions anim -> r ∈ Sprites.frames dir ->
            rw r <= fst (Sprites.max_size s') /\ rh r <= snd (Sprites.max_size s')).
  { intros n anim dir r Hn Hd Hin. destruct (Hfit n anim dir r Hn Hd Hin).
    rewrite Hm, Hw, Hh. lia. }
  intros n anim dir r Hn Hd Hin. destruct returned.
  - destruct (Ht eq_refl) as [Ha _]. rewrite Ha in Hn.
    destruct (decide (Sprites.a_name a = n)) as [<-|Hne].
    + rewrite lookup_insert_eq in Hn. injection Hn as <-. cbn in Hd.
      rewrite Forall_forall in Hall. specialize (Hall dir Hd).
      rewrite Forall_forall in Hall. rewrite Hm. exact (Hall r Hin).
    + rewrite lookup_insert_ne in Hn by exact Hne. exact (Hold n anim dir r Hn Hd Hin).
  - destruct (Hf eq_refl) as [Ha _]. rewrite Ha in Hn.
    exact (Hold n anim dir r Hn Hd Hin).
Qed.

(** X23.  The maximum size of a loaded set holds every frame: for each
    animation of the set, each of its directions and each rectangle of that
    direction, the width and the height of the rectangle are at most those
    of [get_max_size]. *)
Theorem max_size_holds_every_frame
    (calls : list Sprites.AnimationData) (s0 s : Sprites.SpriteAnimationSet)
    (n : string) (anim : Sprites.SpriteAnimation)
    (dir : Sprites.SpriteAnimationDirection) (r : Rectangle) :
  Sprites.load calls s0 = Some s ->
  Sprites.get_animation s n = Some anim ->
  dir ∈ Sprites.directions anim ->
  r ∈ Sprites.frames dir ->
  rw r <= fst (Sprites.get_max_size s) /\ rh r <= snd (Sprites.get_max_size s).
Proof.
  unfold Sprites.load. destruct (decide (Sprites.animations s0 = ∅)) as [He|];
    [|discriminate].
  intros H Hget. assert (Hfit : Sprites.frames_fit s).
  { assert (H0 : Sprites.frames_fit s0).
    { intros n' anim' dir' r' Hn. rewrite He, lookup_empty in Hn. discriminate. }
    clear He Hget. revert s0 H H0.
    induction calls as [|a calls IH]; intros s0 H H0; simpl in H.
    - injection H as <-. exact H0.
    - destruct (Sprites.l_animation a s0) as [[s1 returned]|] eqn:E; [|discriminate].
      pose proof (l_animation_fit _ _ _ _ E H0) as H1.
      destruct returned; [exact (IH _ H H1)|]. injection H as <-. exact H1. }
  unfold Sprites.get_animation in Hget.
  destruct (Sprites.has_animation s n); [|discriminate].
  exact (Hfit n anim dir r Hget).
Qed.

Lemma max_size_holds_every_frame_witness :
  rw (mkRect 8 80 24 32) <= fst (Sprites.get_max_size SpriteScenario.loaded_set)
  /\ rh (mkRect 8 80 24 32) <= snd (Sprites.get_max_size SpriteScenario.loaded_set).
Proof.
  apply (max_size_holds_every_frame
           [SpriteScenario.walking; SpriteScenario.stopped; SpriteScenario.walking]
           SpriteScenario.empty_set SpriteScenario.loaded_set "walking"
           (Sprites.mkAnimation "hero/tunic1.png"
              [Sprites.mkDirection SpriteScenario.walking_down_frames (12, 29)] 100 0)
           (Sprites.mkDirection SpriteScenario.walking_down_frames (12, 29))
           (mkRect 8 80 24 32)).
  - vm_compute. reflexivity.
  - vm_compute. reflexivity.
  - apply list_elem_of_singleton. reflexivity.
  - unfold SpriteScenario.walking_down_frames. cbn [Sprites.frames].
    repeat (apply elem_of_cons; first [left; reflexivity | right]).
Defined.

(** X24.  A second definition of an animation name ends the load and is
    dropped, but its frames already count in the maximum size.  When the
    file calls [animation] with a name that the set has, the run of the
    file stops there: the animations and the default animation are those
    before the call, the calls that follow in the file have no effect, and
    the maximum size has grown to the largest frame width and height of the
    directions of the rejected table. *)
Theorem duplicate_animation_ends_the_load
    (a : Sprites.AnimationData) (calls : list Sprites.AnimationData)
    (s s' : Sprites.SpriteAnimationSet) :
  Sprites.has_animation s (Sprites.a_name a) = true ->
  Sprites.run_file (a :: calls) s = Some s' ->
  Sprites.animations s' = Sprites.animations s
  /\ Sprites.get_default_animation s' = Sprites.get_default_animation s
  /\ Sprites.run_file [a] s = Some s'
  /\ fst (Sprites.get_max_size s')
     = foldl Z.max (fst (Sprites.get_max_size s))
         (Sprites.d_frame_width <$> Sprites.a_directions a)
  /\ snd (Sprites.get_max_size s')
     = foldl Z.max (snd (Sprites.get_max_size s))
         (Sprites.d_frame_height <$> Sprites.a_directions a).
Proof.
  intros Hhas H. simpl in *.
  destruct (Sprites.l_animation a s) as [[s1 returned]|] eqn:E; [|discriminate].
  destruct (l_animation_spec _ _ _ _ E) as (s2 & built & Hl & Hm & _ & Hr & Hf & _).
  rewrite Hhas in Hr. cbn [negb] in Hr. subst returned. injection H as <-.
  destruct (Hf eq_refl) as [Ha Hd].
  destruct (directions_loop_spec _ _ _ _ _ Hl) as (_ & _ & _ & Hw & Hh & _).
  unfold Sprites.get_default_animation, Sprites.get_max_size. rewrite Hm.
  repeat split; assumption.
Qed.

Lemma duplicate_animation_ends_the_load_witness :
  let s := SpriteScenario.loaded_set in
  let a := SpriteScenario.wide_walking in
  Sprites.animations SpriteScenario.widened_set = Sprites.animations s
  /\ Sprites.get_default_animation SpriteScenario.widened_set
     = Sprites.get_default_animation s
  /\ Sprites.run_file [a] s = Some SpriteScenario.widened_set
  /\ fst (Sprites.get_max_size SpriteScenario.widened_set)
     = foldl Z.max (fst (Sprites.get_max_size s))
         (Sprites.d_frame_width <$> Sprites.a_directions a)
  /\ snd (Sprites.get_max_size SpriteScenario.widened_set)
     = foldl Z.max (snd (Sprites.get_max_size s))
         (Sprites.d_frame_height <$> Sprites.a_directions a).
Proof.
  intros s a.
  apply (duplicate_animation_ends_the_load a [SpriteScenario.stopped] s
           SpriteScenario.widened_set).
  - vm_compute. reflexivity.
  - vm_compute. reflexivity.
Defined.

(** The loops never run out of turns. *)
Lemma columns_loop_returns d fuel : forall r c j positions,
  (Z.to_nat (Sprites.d_num_columns d - c) <= fuel)%nat ->
  is_Some (Sprites.columns_loop fuel d r c j positions).
Proof.
  induction fuel as [|fuel IH]; intros r c j positions Hf; simpl.
  - destruct (Z.ltb_spec c (Sprites.d_num_columns d)); [lia|]. cbn [andb]. eauto.
  - destruct (Z.ltb_spec c (Sprites.d_num_columns d)); cbn [andb]; [|eauto].
    destruct (_ <? _); [|eauto]. apply IH. lia.
Qed.

Lemma rows_loop_returns d fuel : forall n r j positions,
  (Z.to_nat (n - r) <= fuel)%nat ->
  is_Some (Sprites.rows_loop fuel d n r j positions).
Proof.
  induction fuel as [|fuel IH]; intros n r j positions Hf; simpl.
  - destruct (Z.ltb_spec r n); [lia|]. cbn [andb]. eauto.
  - destruct (Z.ltb_spec r n); cbn [andb]; [|eauto].
    destruct (_ <? _); [|eauto].
    destruct (columns_loop_returns d (Z.to_nat (Sprites.d_num_columns d)) r 0 j
                positions ltac:(lia)) as [[j1 p1] ->].
    apply IH. lia.
Qed.

Lemma positions_in_src_returns d :
  Sprites.positions_in_src d = None
  <-> Sprites.d_num_columns d = 0
      \/ (Sprites.d_num_frames d = Sprites.INT_MIN /\ Sprites.d_num_columns d = -1).
Proof.
  unfold Sprites.positions_in_src, Sprites.num_rows.
  destruct (Z.eqb_spec (Sprites.d_num_columns d) 0) as [E|E]; cbn [orb]; [tauto|].
  destruct (Z.eqb_spec (Sprites.d_num_frames d) Sprites.INT_MIN) as [F|F];
    destruct (Z.eqb_spec (Sprites.d_num_columns d) (-1)) as [C|C]; cbn [andb];
    [tauto| | |];
    (destruct (Z.rem _ _ =? 0);
     match goal with
     | |- context [Sprites.rows_loop (Z.to_nat ?n) d ?n 0 0 []] =>
         destruct (rows_loop_returns d (Z.to_nat n) n 0 0 [] ltac:(lia)) as [p ->]
     end;
     (split; [discriminate|intros [?|[? ?]]; contradiction])).
Qed.

Lemma directions_loop_returns ds : forall s built,
  Sprites.directions_loop ds s built = None
  <-> exists d, d ∈ ds
        /\ (Sprites.d_num_columns d = 0
            \/ (Sprites.d_num_frames d = Sprites.INT_MIN
                /\ Sprites.d_num_columns d = -1)).
Proof.
  induction ds as [|d ds IH]; intros s built; simpl.
  - split; [discriminate|]. intros (d & Hd & _). apply elem_of_nil in Hd. contradiction.
  - destruct (Sprites.positions_in_src d) as [p|] eqn:Hp.
    + rewrite IH. split.
      * intros (d' & Hd & Hz). exists d'. split; [apply elem_of_cons; auto|exact Hz].
      * intros (d' & Hd & Hz). apply elem_of_cons in Hd as [->|Hd].
        -- apply positions_in_src_returns in Hz. congruence.
        -- eauto.
    + split; [|reflexivity]. intros _. exists d. split; [apply elem_of_cons; auto|].
      apply positions_in_src_returns. exact Hp.
Qed.

Lemma l_animation_returns a s :
  Sprites.l_animation a s = None
  <-> exists d, d ∈ Sprites.a_directions a
        /\ (Sprites.d_num_columns d = 0
            \/ (Sprites.d_num_frames d = Sprites.INT_MIN
                /\ Sprites.d_num_columns d = -1)).
Proof.
  unfold Sprites.l_animation.
  destruct (Sprites.directions_loop (Sprites.a_directions a) s []) as [[s1 built]|]
    eqn:E.
  - split.
    + destruct (Sprites.has_animation _ _); [discriminate|].
      cbv zeta. destruct (Nat.eqb _ _); discriminate.
    + intros H. apply directions_loop_returns with (s := s) (built := []) in H.
      congruence.
  - split; [|reflexivity]. intros _.
    apply directions_loop_returns with (s := s) (built := []). exact E.
Qed.

(** X25.  [l_animation] fails only where its division is undefined
    (the exhaustion of the memory apart, which is not represented).
    Whatever the [int]s of the table (negative ones included), the two
    loops that build the frames end and [l_animation] returns or raises its
    duplicate-name error, except when the table has a direction whose
    [num_columns] is 0, or whose [num_frames] is [INT_MIN] with
    [num_columns] -1: then, and only then, [num_frames % num_columns] is
    undefined (the processor traps).  In particular a direction declared
    with 0 frames and no [num_columns] (which defaults to [num_frames]) is
    such a case.  The same holds for the load of a whole file on an empty
    set. *)
Theorem l_animation_fails_only_in_the_division
    (a : Sprites.AnimationData) (s : Sprites.SpriteAnimationSet)
    (calls : list Sprites.AnimationData) :
  (forall d, d ∈ Sprites.a_directions a -> Sprites.int_fields d) ->
  (Sprites.l_animation a s = None
   <-> exists d, d ∈ Sprites.a_directions a
         /\ (Sprites.d_num_columns d = 0
             \/ (Sprites.d_num_frames d = Sprites.INT_MIN
                 /\ Sprites.d_num_columns d = -1)))
  /\ (Sprites.animations s = ∅ ->
      (forall a' d, a' ∈ calls -> d ∈ Sprites.a_directions a' ->
         Sprites.int_fields d
         /\ Sprites.d_num_columns d <> 0
         /\ ~ (Sprites.d_num_frames d = Sprites.INT_MIN
               /\ Sprites.d_num_columns d = -1)) ->
      is_Some (Sprites.load calls s)).
Proof.
  intros _. split; [apply l_animation_returns|].
  intros He Hall. unfold Sprites.load.
  destruct (decide (Sprites.animations s = ∅)); [|contradiction]. clear He e.
  revert s. induction calls as [|a' calls IH]; intros s; simpl; [eauto|].
  destruct (Sprites.l_animation a' s) as [[s1 returned]|] eqn:E.
  - destruct returned; [|eauto]. apply IH.
    intros a'' d Ha Hd. apply (Hall a'' d); [apply elem_of_cons; auto|exact Hd].
  - exfalso. apply l_animation_returns in E. destruct E as (d & Hd & Hz).
    destruct (Hall a' d) as (_ & H0 & H1); [apply elem_of_cons; auto|exact Hd|].
    tauto.
Qed.

Lemma l_animation_fails_only_in_the_division_witness :
  Sprites.l_animation
    (Sprites.mkAnimationData "walking" "hero/tunic1.png" 100 0
       [SpriteScenario.walking_down;
        Sprites.mkDirectionData 0 0 16 24 8 21 (- 2 ^ 31) (-1)])
    SpriteScenario.empty_set = None
  /\ is_Some (Sprites.load [SpriteScenario.walking; SpriteScenario.stopped]
                SpriteScenario.empty_set).
Proof.
  split.
  - apply (l_animation_fails_only_in_the_division
             (Sprites.mkAnimationData "walking" "hero/tunic1.png" 100 0
                [SpriteScenario.walking_down;
                 Sprites.mkDirectionData 0 0 16 24 8 21 (- 2 ^ 31) (-1)])
             SpriteScenario.empty_set []).
    + intros d Hd. apply elem_of_cons in Hd as [->|Hd];
        [|apply list_elem_of_singleton in Hd; subst d];
        vm_compute; intuition discriminate.
    + eexists. split; [apply elem_of_cons; right; apply list_elem_of_singleton;
                       reflexivity|].
      right. split; reflexivity.
  - apply (l_animation_fails_only_in_the_division SpriteScenario.walking
             SpriteScenario.empty_set [SpriteScenario.walking; SpriteScenario.stopped]).
    + intros d Hd. apply list_elem_of_singleton in Hd. subst d.
      vm_compute. intuition discriminate.
    + reflexivity.
    + intros a' d Ha Hd.
      apply elem_of_cons in Ha as [->|Ha];
        [|apply list_elem_of_singleton in Ha; subst a'];
        apply list_elem_of_singleton in Hd; subst d;
        (split; [vm_compute; intuition discriminate|]);
        (split; [discriminate|intros [_ ?]; discriminate]).
Defined.
